(** * The match session engine of the 3D Battleship server (server.js)

    A shallow embedding of the room registry, the ship placement
    validator, the attack resolver and the disconnect handling, and the
    properties of the specification that concern them. *)

From Stdlib Require Import ZArith String List Lia.
From stdpp Require Import base option list gmap strings sorting pretty.

Open Scope string_scope.
Open Scope Z_scope.

(** ** JavaScript numbers

    The handlers compare, index and print client numbers.  A finite number
    that is an integer is [JInt] (the two zeros behave alike in every
    operation used here and are identified); a finite number that is not an
    integer is a dyadic fraction with an odd numerator, [JFrac k e] standing
    for (2k+1)/2^e, so that equal numbers are equal terms. *)

Inductive jsnum :=
| JInt (n : Z)
| JFrac (k : Z) (e : positive)
| JNaN
| JInf (negative : bool).

Global Instance jsnum_eq_dec : EqDecision jsnum.
Proof. solve_decision. Defined.

Global Instance jsnum_countable : Countable jsnum.
Proof.
  refine (inj_countable'
    (λ n, match n with
          | JInt n => inl (inl n)
          | JFrac k e => inl (inr (k, e))
          | JNaN => inr None
          | JInf b => inr (Some b)
          end)
    (λ s, match s with
          | inl (inl n) => JInt n
          | inl (inr (k, e)) => JFrac k e
          | inr None => JNaN
          | inr (Some b) => JInf b
          end) _).
  by intros [].
Defined.

(** [x < c] and [x >= c] of JavaScript for an integer constant [c]:
    both are false on NaN. *)
Definition js_lt (x : jsnum) (c : Z) : bool :=
  match x with
  | JInt n => n <? c
  | JFrac k e => 2 * k + 1 <? c * Z.pow_pos 2 e
  | JNaN => false
  | JInf negative => negative
  end.

Definition js_ge (x : jsnum) (c : Z) : bool :=
  match x with
  | JInt n => c <=? n
  | JFrac k e => c * Z.pow_pos 2 e <=? 2 * k + 1
  | JNaN => false
  | JInf negative => negb negative
  end.

Definition Number_isInteger (x : jsnum) : bool :=
  match x with JInt _ => true | _ => false end.

(** The mathematical value of a number that passed [Number_isInteger]. *)
Definition int_value (x : jsnum) : Z :=
  match x with JInt n => n | _ => 0 end.

(** ** Constants *)

Definition BOARD_SIZE : Z := 5.

Definition SHIPS : list (string * nat) :=
  [ ("Carrier", 5%nat); ("Battleship", 4%nat); ("Cruiser", 3%nat);
    ("Submarine", 3%nat); ("Destroyer", 2%nat) ].

Definition MAX_CHAT_MESSAGES : nat := 200.

(** ** Data model *)

(** A coordinate object as the client sends it.  [placeShips] reads each
    axis through [Number(cell?.x)], and the fields below hold that number
    (NaN for a missing cell or axis); [attack] uses the axes of a numeric
    target as they are. *)
Record coords := Coords { px : jsnum; py : jsnum; pz : jsnum }.

(** A normalized cell [{x, y, z}] stored by the validator. *)
Record cell := Cell { cx : Z; cy : Z; cz : Z }.

Global Instance cell_eq_dec : EqDecision cell.
Proof. solve_decision. Defined.

(** The key [`${x}:${y}:${z}`] of the hit, miss and occupancy sets.  Number
    to string conversion is injective on [jsnum] and never yields a colon,
    so the key is represented by the triple it prints. *)
Abbreviation key := (jsnum * jsnum * jsnum)%type.

Definition coordKey (x y z : jsnum) : key := (x, y, z).

Definition cellKey (c : cell) : key :=
  coordKey (JInt (cx c)) (JInt (cy c)) (JInt (cz c)).

Record ship := Ship { name : string; cells : list cell }.

(** An element of the submitted [ships] array: either it fails the shape
    test ([!ship || typeof ship.name !== 'string' ||
    !Array.isArray(ship.cells)]) or it has a name and an array of cells. *)
Inductive ship_payload :=
| Malformed
| Placement (pname : string) (pcells : list coords).

Abbreviation grid := (list (list (list (option string)))).

Inductive entry_kind := KindUser | KindSystem.

Record chat_entry := ChatEntry {
  entry_id : string;
  entry_username : string;
  message : string;
  kind : entry_kind;
  timestamp : N;
}.

Record player := Player {
  id : string;
  ready : bool;
  board : grid;
  ships : list ship;
  hits : gset key;
  misses : gset key;
  username : option string;
}.

Record room := Room {
  code : string;
  players : list player;
  turn : option string;
  chat : list chat_entry;
}.

(** The [attackResult] payload. *)
Inductive shot_result := Miss | Hit | Sunk.

Record payload := Payload {
  attacker : string;
  target : coords;
  result : shot_result;
  shipName : option string;
  nextTurn : option string;
  winner : option string;
}.

(** What a handler hands to its callback; [Uncaught] is a handler that
    ends in an uncaught [TypeError] and answers nothing. *)
Inductive reply :=
| NoReply
| ReplyError (msg : string)
| ReplySuccess
| ReplyCreated (c : string)
| ReplyAttack (p : payload)
| Uncaught.

(** Messages broadcast to a room with [io.to(code).emit]. *)
Inductive broadcast :=
| RoomState (roster : list (string * option string * bool))
            (t : option string) (started : bool)
| PlayerJoined
| UsernameUpdate (names : list (string * option string))
| GameStarted (t : option string)
| PlayerReady
| AttackResult (p : payload)
| ChatUpdate (e : chat_entry)
| PlayerLeft (leaver : string).

(** The global [rooms] map together with what the process has emitted. *)
Record outcome := Outcome {
  answer : reply;
  emitted : list (string * broadcast);
  registry : gmap string room;
}.

(** ** Errors thrown inside the validator *)

Inductive thrown (A : Type) :=
| Return (a : A)
| Throw (msg : string).
Arguments Return {A} a.
Arguments Throw {A} msg.

Global Instance thrown_ret : MRet thrown := λ A a, Return a.
Global Instance thrown_bind : MBind thrown := λ A B f m,
  match m with Return a => f a | Throw msg => Throw msg end.

(** [array.map(f)] and [array.forEach(f)] with a callback that may throw. *)
Fixpoint map_throw {A B} (f : A → thrown B) (l : list A) : thrown (list B) :=
  match l with
  | [] => Return []
  | a :: l => b ← f a; bs ← map_throw f l; Return (b :: bs)
  end.

Fixpoint forEach_throw {A S} (f : S → A → thrown S) (s : S) (l : list A)
  : thrown S :=
  match l with
  | [] => Return s
  | a :: l => s' ← f s a; forEach_throw f s' l
  end.

(** ** Boards *)

Definition createEmptyBoard : grid :=
  replicate (Z.to_nat BOARD_SIZE)
    (replicate (Z.to_nat BOARD_SIZE)
       (replicate (Z.to_nat BOARD_SIZE) None)).

(** [board[x][y][z] = v] for integer indices already checked to lie on the
    board. *)
Definition board_set (b : grid) (x y z : Z) (v : option string) : grid :=
  alter (alter (λ column, <[Z.to_nat z := v]> column) (Z.to_nat y))
        (Z.to_nat x) b.

(** [array[i]] for a number [i]: an element for an index of the array,
    [undefined] ([None]) for every other number. *)
Definition array_get {A} (l : list A) (i : jsnum) : option A :=
  match i with
  | JInt n => if 0 <=? n then l !! Z.to_nat n else None
  | _ => None
  end.

(** [board[x][y][z]]: [None] when [board[x]] or [board[x][y]] is
    [undefined] and the next index throws a [TypeError]; otherwise the value
    found, [undefined] and [null] both read as [None]. *)
Definition board_get (b : grid) (x y z : jsnum) : option (option string) :=
  plane ← array_get b x;
  column ← array_get plane y;
  Some (match array_get column z with Some v => v | None => None end).

(** Truthiness of a board value: a non-empty string. *)
Definition truthy (v : option string) : bool :=
  match v with Some s => negb (String.eqb s "") | None => false end.

(** ** Ship placement validator (the body of the [placeShips] handler) *)

Definition expectedShips : gmap string nat :=
  foldl (λ m config, <[config.1 := config.2]> m) ∅ SHIPS.

(** The locals [board], [occupied], [seenNames] and [sanitizedShips] the
    handler fills while it walks over the submitted ships. *)
Record layout := Layout {
  layout_board : grid;
  occupied : gset key;
  seenNames : gset string;
  sanitizedShips : list ship;
}.

Definition empty_layout : layout := Layout createEmptyBoard ∅ ∅ [].

(** The callback of [ship.cells.map]. *)
Definition normalize_cell (c : coords) : thrown cell :=
  let x := px c in
  let y := py c in
  let z := pz c in
  if negb (forallb Number_isInteger [x; y; z]) then
    Throw "Ship coordinates must be whole numbers."
  else if js_lt x 0 || js_lt y 0 || js_lt z 0
          || js_ge x BOARD_SIZE || js_ge y BOARD_SIZE || js_ge z BOARD_SIZE then
    Throw "Ship out of bounds"
  else Return (Cell (int_value x) (int_value y) (int_value z)).

Inductive axis := AxisX | AxisY | AxisZ.

Global Instance axis_eq_dec : EqDecision axis.
Proof. solve_decision. Defined.

Definition axes : list axis := [AxisX; AxisY; AxisZ].

(** [cell[axis]] *)
Definition coordinate (a : axis) (c : cell) : Z :=
  match a with AxisX => cx c | AxisY => cy c | AxisZ => cz c end.

(** [new Set(normalizedCells.map((cell) => cell[axis])).size] *)
Definition distinct_values (a : axis) (normalizedCells : list cell) : nat :=
  size (list_to_set (coordinate a <$> normalizedCells) : gset Z).

(** [.sort((a, b) => a - b)] *)
Definition sort_numeric (l : list Z) : list Z := merge_sort Z.le l.

(** The loop over [sortedValues]: is there an index whose value is not its
    predecessor plus one? *)
Fixpoint has_gap (sortedValues : list Z) : bool :=
  match sortedValues with
  | previous :: (value :: _) as rest =>
      negb (value =? previous + 1) || has_gap rest
  | _ => false
  end.

(** The block guarded by [normalizedCells.length > 1]. *)
Definition check_line (normalizedCells : list cell) : thrown unit :=
  if (1 <? length normalizedCells)%nat then
    let varyingAxes :=
      filter (λ a, (1 < distinct_values a normalizedCells)%nat) axes in
    match varyingAxes with
    | [a] =>
        let sortedValues := sort_numeric (coordinate a <$> normalizedCells) in
        if has_gap sortedValues then
          Throw "Ships must occupy consecutive cells."
        else
          forEach_throw
            (λ _ axisKey,
               if negb (distinct_values axisKey normalizedCells =? 1)%nat
               then Throw "Ships must align to a single axis."
               else Return ())
            () (filter (λ axisKey, axisKey ≠ a) axes)
    | _ => Throw "Ships must be placed in a straight line."
    end
  else Return ().

(** The callback of [normalizedCells.forEach] that claims a cell for the
    ship [shipname]. *)
Definition claim_cell (shipname : string) (st : layout) (c : cell)
  : thrown layout :=
  let k := cellKey c in
  if bool_decide (k ∈ occupied st) then Throw "Ships cannot overlap"
  else Return (Layout (board_set (layout_board st) (cx c) (cy c) (cz c)
                                 (Some shipname))
                      ({[k]} ∪ occupied st)
                      (seenNames st)
                      (sanitizedShips st)).

(** The callback of [ships.forEach]. *)
Definition validate_ship (st : layout) (s : ship_payload) : thrown layout :=
  match s with
  | Malformed => Throw "Invalid ship configuration"
  | Placement shipname shipcells =>
      match expectedShips !! shipname with
      | None | Some O => Throw "Unexpected ship provided."
      | Some requiredLength =>
          if bool_decide (shipname ∈ seenNames st) then
            Throw "Duplicate ship entries are not allowed."
          else if negb (length shipcells =? requiredLength)%nat then
            Throw (shipname ++ " must occupy exactly "
                     ++ pretty requiredLength ++ " cells.")
          else
            normalizedCells ← map_throw normalize_cell shipcells;
            _ ← check_line normalizedCells;
            st' ← forEach_throw (claim_cell shipname) st normalizedCells;
            Return (Layout (layout_board st')
                           (occupied st')
                           ({[shipname]} ∪ seenNames st')
                           (sanitizedShips st'
                              ++ [Ship shipname normalizedCells]))
      end
  end.

(** The [try] block over a [ships] array of the right length. *)
Definition validate_fleet (submitted : list ship_payload) : thrown layout :=
  forEach_throw validate_ship empty_layout submitted.

(** The checks on [ships] from [Array.isArray] to the end of the [try]
    block; [None] is a [ships] value that is not an array. *)
Definition validate (submitted : option (list ship_payload)) : thrown layout :=
  match submitted with
  | None => Throw "Invalid ship data submitted."
  | Some submitted =>
      if negb (length submitted =? length SHIPS)%nat then
        Throw "All ships must be placed before locking in."
      else validate_fleet submitted
  end.

(** ** Room helpers *)

Definition with_players (r : room) (ps : list player) : room :=
  Room (code r) ps (turn r) (chat r).

Definition with_turn (r : room) (t : option string) : room :=
  Room (code r) (players r) t (chat r).

Definition with_chat (r : room) (c : list chat_entry) : room :=
  Room (code r) (players r) (turn r) c.

(** Truthiness of a string or [null]. *)
Definition nonempty (s : option string) : bool :=
  match s with Some s => negb (String.eqb s "") | None => false end.

(** A fresh player record, as [createGame] and [joinGame] build it. *)
Definition new_player (socket : string) : player :=
  Player socket false createEmptyBoard [] ∅ ∅ None.

(** [room.players.find((player) => player.id === socketId) || null], with
    the position of the record found: the handlers mutate it in place. *)
Definition getPlayer (r : room) (socketId : string) : option (nat * player) :=
  list_find (λ p, id p = socketId) (players r).

Definition getOpponent (r : room) (socketId : string) : option (nat * player) :=
  let playerA := players r !! 0%nat in
  let playerB := players r !! 1%nat in
  match playerB with
  | None => None
  | Some playerB =>
      match playerA with
      | Some playerA =>
          if bool_decide (id playerA = socketId) then Some (1%nat, playerB)
          else Some (0%nat, playerA)
      | None => None
      end
  end.

(** [removePlayerFromRoom]: the room that is left, if any, and the new
    registry. *)
Definition removePlayerFromRoom (roomCode socketId : string)
    (rooms : gmap string room) : option room * gmap string room :=
  match rooms !! roomCode with
  | None => (None, rooms)
  | Some r =>
      let remainingPlayers := filter (λ p, id p ≠ socketId) (players r) in
      if (length remainingPlayers =? 0)%nat then (None, delete roomCode rooms)
      else
        let r' := with_players r remainingPlayers in
        (Some r', <[roomCode := r']> rooms)
  end.

Definition emitRoomState (c : string) (rooms : gmap string room)
  : list (string * broadcast) :=
  match rooms !! c with
  | None => []
  | Some r =>
      [(c, RoomState ((λ p, (id p, username p, ready p)) <$> players r)
                     (turn r) (nonempty (turn r)))]
  end.

(** ** Chat log *)

Definition trimChatHistory (r : room) : room :=
  if (length (chat r) <=? MAX_CHAT_MESSAGES)%nat then r
  else
    let excess := (length (chat r) - MAX_CHAT_MESSAGES)%nat in
    with_chat r (drop excess (chat r)).

(** [recordAndBroadcastChat]: the room after the push and the trim, the
    registry after [rooms.set] and the broadcast. *)
Definition recordAndBroadcastChat (r : room) (c : string) (e : chat_entry)
    (rooms : gmap string room)
  : room * gmap string room * list (string * broadcast) :=
  let r' := trimChatHistory (with_chat r (chat r ++ [e])) in
  (r', <[c := r']> rooms, [(c, ChatUpdate e)]).

(** [emitSystemChat]; [now] is the value of [Date.now()]. *)
Definition emitSystemChat (r : room) (c : string) (msg : string) (now : N)
    (rooms : gmap string room)
  : room * gmap string room * list (string * broadcast) :=
  if String.eqb msg "" then (r, rooms, [])
  else
    recordAndBroadcastChat r c (ChatEntry "system" "System" msg KindSystem now)
      rooms.

(** ** The [placeShips] handler *)

Definition placeShips (socket : string) (c : string)
    (submitted : option (list ship_payload)) (rooms : gmap string room)
  : outcome :=
  match rooms !! c with
  | None => Outcome (ReplyError "Room not found.") [] rooms
  | Some r =>
      match getPlayer r socket with
      | None => Outcome (ReplyError "Player not part of room.") [] rooms
      | Some (i, p) =>
          match validate submitted with
          | Throw msg => Outcome (ReplyError msg) [] rooms
          | Return l =>
              let p' := Player (id p) true (layout_board l) (sanitizedShips l)
                               (hits p) (misses p) (username p) in
              let r1 := with_players r (<[i := p']> (players r)) in
              let rooms1 := <[c := r1]> rooms in
              let state1 := emitRoomState c rooms1 in
              if (length (players r1) =? 2)%nat && forallb ready (players r1)
              then
                let r2 := with_turn r1 (id <$> players r1 !! 0%nat) in
                let rooms2 := <[c := r2]> rooms1 in
                Outcome ReplySuccess
                        (state1 ++ [(c, GameStarted (turn r2))]
                                ++ emitRoomState c rooms2)
                        rooms2
              else
                Outcome ReplySuccess (state1 ++ [(c, PlayerReady)]) rooms1
          end
      end
  end.

(** ** The [attack] handler *)

(** [opponent.ships.every((ship) => ship.cells.every((c) =>
    player.hits.has(key of c)))] *)
Definition allShipsSunk (opponentShips : list ship) (playerHits : gset key)
  : bool :=
  forallb (λ s, forallb (λ c, bool_decide (cellKey c ∈ playerHits)) (cells s))
          opponentShips.

(** The end of the handler, from [allShipsSunk] on: [r] is the room with
    the shot recorded, [hits'] the attacker's hits after it. *)
Definition resolve (socket c : string) (t : coords) (res : shot_result)
    (hitName : option string) (opponent : player) (hits' : gset key)
    (r : room) (rooms : gmap string room) : outcome :=
  let sunk := allShipsSunk (ships opponent) hits' in
  let p := Payload socket t res hitName
             (if sunk then None else Some (id opponent))
             (if sunk then Some socket else None) in
  let r' := if negb sunk then with_turn r (Some (id opponent)) else r in
  let rooms' := <[c := r']> rooms in
  Outcome (ReplyAttack p)
          ((c, AttackResult p) :: emitRoomState c rooms')
          rooms'.

Definition attack (socket : string) (c : string) (t : coords)
    (rooms : gmap string room) : outcome :=
  match rooms !! c with
  | None => Outcome (ReplyError "Room not found.") [] rooms
  | Some r =>
      if negb (bool_decide (turn r = Some socket)) then
        Outcome (ReplyError "Not your turn.") [] rooms
      else
        match getOpponent r socket, getPlayer r socket with
        | Some (_, opponent), Some (i, p) =>
            let x := px t in
            let y := py t in
            let z := pz t in
            if js_lt x 0 || js_lt y 0 || js_lt z 0
               || js_ge x BOARD_SIZE || js_ge y BOARD_SIZE
               || js_ge z BOARD_SIZE
            then Outcome (ReplyError "Invalid target.") [] rooms
            else
              let k := coordKey x y z in
              if bool_decide (k ∈ hits p) || bool_decide (k ∈ misses p) then
                Outcome (ReplyError "Coordinate already targeted.") [] rooms
              else
                match board_get (board opponent) x y z with
                | None => Outcome Uncaught [] rooms
                | Some found =>
                    if truthy found then
                      let hits' := {[k]} ∪ hits p in
                      let p' := Player (id p) (ready p) (board p) (ships p)
                                       hits' (misses p) (username p) in
                      let r1 := with_players r (<[i := p']> (players r)) in
                      match list_find (λ s, Some (name s) = found)
                                      (ships opponent) with
                      | None => Outcome Uncaught [] (<[c := r1]> rooms)
                      | Some (_, s) =>
                          let hitCount :=
                            length (filter (λ c, cellKey c ∈ hits') (cells s))
                          in
                          resolve socket c t
                            (if (hitCount =? length (cells s))%nat
                             then Sunk else Hit)
                            found opponent hits' r1 rooms
                      end
                    else
                      let p' := Player (id p) (ready p) (board p) (ships p)
                                       (hits p) ({[k]} ∪ misses p)
                                       (username p) in
                      let r1 := with_players r (<[i := p']> (players r)) in
                      resolve socket c t Miss None opponent (hits p) r1 rooms
                end
        | _, _ => Outcome (ReplyError "Opponent not found.") [] rooms
        end
  end.

(** ** The acknowledgement callback

    [createGame], [joinGame], [placeShips] and [attack] answer through the
    acknowledgement function of the event, and call it unguarded; socket.io
    hands them one only if the client sent one.  [placeShips] and [attack]
    above are the handlers of an event that carries one.  [on_placeShips]
    and [on_attack] take its presence as the argument [callback]: where
    the source calls [callback], an absent one throws a [TypeError] there
    and then, and the handler does nothing of what follows. *)

(** [callback(answer)] as the last act of a path of a handler. *)
Definition respond (callback : bool) (answer : reply) : reply :=
  if callback then answer else Uncaught.

Definition on_placeShips (callback : bool) (socket : string) (c : string)
    (submitted : option (list ship_payload)) (rooms : gmap string room)
  : outcome :=
  match rooms !! c with
  | None => Outcome (respond callback (ReplyError "Room not found.")) [] rooms
  | Some r =>
      match getPlayer r socket with
      | None =>
          Outcome (respond callback (ReplyError "Player not part of room."))
                  [] rooms
      | Some (i, p) =>
          match validate submitted with
          | Throw msg => Outcome (respond callback (ReplyError msg)) [] rooms
          | Return l =>
              let p' := Player (id p) true (layout_board l) (sanitizedShips l)
                               (hits p) (misses p) (username p) in
              let r1 := with_players r (<[i := p']> (players r)) in
              let rooms1 := <[c := r1]> rooms in
              if negb callback then Outcome Uncaught [] rooms1
              else
                let state1 := emitRoomState c rooms1 in
                if (length (players r1) =? 2)%nat
                   && forallb ready (players r1)
                then
                  let r2 := with_turn r1 (id <$> players r1 !! 0%nat) in
                  let rooms2 := <[c := r2]> rooms1 in
                  Outcome ReplySuccess
                          (state1 ++ [(c, GameStarted (turn r2))]
                                  ++ emitRoomState c rooms2)
                          rooms2
                else
                  Outcome ReplySuccess (state1 ++ [(c, PlayerReady)]) rooms1
          end
      end
  end.

(** The end of the [attack] handler, as [resolve], with [callback(payload)]
    after the two broadcasts. *)
Definition on_resolve (callback : bool) (socket c : string) (t : coords)
    (res : shot_result) (hitName : option string) (opponent : player)
    (hits' : gset key) (r : room) (rooms : gmap string room) : outcome :=
  let sunk := allShipsSunk (ships opponent) hits' in
  let p := Payload socket t res hitName
             (if sunk then None else Some (id opponent))
             (if sunk then Some socket else None) in
  let r' := if negb sunk then with_turn r (Some (id opponent)) else r in
  let rooms' := <[c := r']> rooms in
  Outcome (respond callback (ReplyAttack p))
          ((c, AttackResult p) :: emitRoomState c rooms')
          rooms'.

(** The [attack] handler for a target whose three axes are numbers.  An
    axis that is not a number (a string, or an axis left out) is compared
    after conversion to a number but indexes the board as a property name;
    such targets are not among [coords]. *)
Definition on_attack (callback : bool) (socket : string) (c : string)
    (t : coords) (rooms : gmap string room) : outcome :=
  match rooms !! c with
  | None => Outcome (respond callback (ReplyError "Room not found.")) [] rooms
  | Some r =>
      if negb (bool_decide (turn r = Some socket)) then
        Outcome (respond callback (ReplyError "Not your turn.")) [] rooms
      else
        match getOpponent r socket, getPlayer r socket with
        | Some (_, opponent), Some (i, p) =>
            let x := px t in
            let y := py t in
            let z := pz t in
            if js_lt x 0 || js_lt y 0 || js_lt z 0
               || js_ge x BOARD_SIZE || js_ge y BOARD_SIZE
               || js_ge z BOARD_SIZE
            then
              Outcome (respond callback (ReplyError "Invalid target.")) []
                      rooms
            else
              let k := coordKey x y z in
              if bool_decide (k ∈ hits p) || bool_decide (k ∈ misses p) then
                Outcome
                  (respond callback
                     (ReplyError "Coordinate already targeted."))
                  [] rooms
              else
                match board_get (board opponent) x y z with
                | None => Outcome Uncaught [] rooms
                | Some found =>
                    if truthy found then
                      let hits' := {[k]} ∪ hits p in
                      let p' := Player (id p) (ready p) (board p) (ships p)
                                       hits' (misses p) (username p) in
                      let r1 := with_players r (<[i := p']> (players r)) in
                      match list_find (λ s, Some (name s) = found)
                                      (ships opponent) with
                      | None => Outcome Uncaught [] (<[c := r1]> rooms)
                      | Some (_, s) =>
                          let hitCount :=
                            length (filter (λ c, cellKey c ∈ hits') (cells s))
                          in
                          on_resolve callback socket c t
                            (if (hitCount =? length (cells s))%nat
                             then Sunk else Hit)
                            found opponent hits' r1 rooms
                      end
                    else
                      let p' := Player (id p) (ready p) (board p) (ships p)
                                       (hits p) ({[k]} ∪ misses p)
                                       (username p) in
                      let r1 := with_players r (<[i := p']> (players r)) in
                      on_resolve callback socket c t Miss None opponent
                        (hits p) r1 rooms
                end
        | _, _ =>
            Outcome (respond callback (ReplyError "Opponent not found.")) []
                    rooms
        end
  end.

(** ** Room codes *)

Definition ROOM_CODE_LENGTH : nat := 6.

(** [s.padStart(n, '0')] *)
Fixpoint zero_padded (missing : nat) (s : string) : string :=
  match missing with
  | O => s
  | S missing => "0" ++ zero_padded missing s
  end.

Definition padStart (n : nat) (s : string) : string :=
  zero_padded (n - String.length s) s.

(** The code [generateRoomCode] makes of one value [n] of
    [Math.floor(Math.random() * Math.pow(10, ROOM_CODE_LENGTH))]. *)
Definition room_code (n : N) : string := padStart ROOM_CODE_LENGTH (pretty n).

(** [generateRoomCode]: [draws] lists the values the random source yields,
    one for each round of the loop; [None] is a loop that has used all of
    them without leaving. *)
Fixpoint generateRoomCode (draws : list N) (rooms : gmap string room)
  : option string :=
  match draws with
  | [] => None
  | n :: draws =>
      let c := room_code n in
      if bool_decide (is_Some (rooms !! c)) then generateRoomCode draws rooms
      else Some c
  end.

(** ** The remaining handlers and the server as a transition system *)

Section Server.

(** [String.prototype.trim] and [raw.replace(/\s+/g, ' ')] are taken as
    they come with the language. *)
Variable trim : string → string.
Variable collapse_whitespace : string → string.

Definition MAX_CHAT_LENGTH : nat := 200.

(** [createGame]; [c] is the code [generateRoomCode] returned. *)
Definition createGame (socket c : string) (now : N)
    (rooms : gmap string room) : outcome :=
  let newRoom := Room c [new_player socket] None [] in
  let rooms1 := <[c := newRoom]> rooms in
  let state1 := emitRoomState c rooms1 in
  let '(_, rooms2, chat2) :=
    emitSystemChat newRoom c
      "Room created. Share the code to invite an opponent." now rooms1 in
  Outcome (ReplyCreated c) (state1 ++ chat2) rooms2.

Definition joinGame (socket c : string) (now : N)
    (rooms : gmap string room) : outcome :=
  match rooms !! c with
  | None => Outcome (ReplyError "Room not found.") [] rooms
  | Some r =>
      if (2 <=? length (players r))%nat then
        Outcome (ReplyError "Room is full.") [] rooms
      else
        let r1 := with_players r (players r ++ [new_player socket]) in
        let rooms1 := <[c := r1]> rooms in
        let '(_, rooms2, chat2) :=
          emitSystemChat r1 c "A commander joined the battle." now rooms1 in
        Outcome ReplySuccess
                ((c, PlayerJoined) :: chat2 ++ emitRoomState c rooms2)
                rooms2
  end.

(** [value?.trim() || fallback] for a stored user name. *)
Definition trimmed_or {A} (u : option string) (some : string → A)
    (fallback : A) : A :=
  match u with
  | Some n => if String.eqb (trim n) "" then fallback else some (trim n)
  | None => fallback
  end.

(** [setUsername]; [None] is a [username] that is not a string. *)
Definition setUsername (socket c : string) (newname : option string)
    (now : N) (rooms : gmap string room) : outcome :=
  match rooms !! c with
  | None => Outcome NoReply [] rooms
  | Some r =>
      match getPlayer r socket with
      | None => Outcome NoReply [] rooms
      | Some (i, p) =>
          let previousName := trimmed_or (username p) Some None in
          let trimmed :=
            match newname with Some n => trim n | None => "" end in
          let limited := substring 0 20 trimmed in
          let username' :=
            if String.eqb limited "" then None else Some limited in
          let p' := Player (id p) (ready p) (board p) (ships p) (hits p)
                           (misses p) username' in
          let r1 := with_players r (<[i := p']> (players r)) in
          let rooms1 := <[c := r1]> rooms in
          let out1 :=
            (emitRoomState c rooms1
             ++ [(c, UsernameUpdate
                       ((λ q, (id q, username q)) <$> players r1))])%list
          in
          match username' with
          | Some n =>
              if bool_decide (username' ≠ previousName) then
                let '(_, rooms2, chat2) :=
                  emitSystemChat r1 c
                    (match previousName with
                     | Some old => old ++ " is now known as " ++ n ++ "."
                     | None => n ++ " reported for duty."
                     end) now rooms1 in
                Outcome NoReply (out1 ++ chat2) rooms2
              else Outcome NoReply out1 rooms1
          | None => Outcome NoReply out1 rooms1
          end
      end
  end.

(** [sanitizeChatMessage]; [None] is a [raw] that is not a string. *)
Definition sanitizeChatMessage (raw : option string) : thrown string :=
  match raw with
  | None => Throw "Chat message must be text."
  | Some raw =>
      let normalized := trim (collapse_whitespace raw) in
      if String.eqb normalized "" then
        Throw "Chat messages must contain visible characters."
      else if (MAX_CHAT_LENGTH <? String.length normalized)%nat then
        Throw ("Chat messages must be " ++ pretty MAX_CHAT_LENGTH
                 ++ " characters or fewer.")
      else Return normalized
  end.

Definition chatMessage (socket c : string) (raw : option string) (now : N)
    (rooms : gmap string room) : outcome :=
  match rooms !! c with
  | None => Outcome (ReplyError "Room not found.") [] rooms
  | Some r =>
      match getPlayer r socket with
      | None => Outcome (ReplyError "Player not part of room.") [] rooms
      | Some (_, p) =>
          match sanitizeChatMessage raw with
          | Throw msg => Outcome (ReplyError msg) [] rooms
          | Return value =>
              let shown := trimmed_or (username p) (λ n, n) "Player" in
              let '(_, rooms1, chat1) :=
                recordAndBroadcastChat r c
                  (ChatEntry socket shown value KindUser now) rooms in
              Outcome ReplySuccess chat1 rooms1
          end
      end
  end.

(** The callback of [roomCodes.forEach] in the [disconnecting] handler. *)
Definition leave_room (socket : string) (now : N)
    (acc : list (string * broadcast) * gmap string room) (c : string)
  : list (string * broadcast) * gmap string room :=
  let '(out, rooms) := acc in
  match rooms !! c with
  | None => acc
  | Some r =>
      let departingPlayer := getPlayer r socket in
      let opponent := getOpponent r socket in
      let wasTurn := bool_decide (turn r = Some socket) in
      let '(updatedRoom, rooms1) := removePlayerFromRoom c socket rooms in
      let out1 := (out ++ [(c, PlayerLeft socket)])%list in
      match updatedRoom with
      | None => (out1, rooms1)
      | Some u =>
          let u1 :=
            if wasTurn then
              with_turn u
                match opponent with
                | Some (_, o) => Some (id o)
                | None =>
                    match players u !! 0%nat with
                    | Some first =>
                        if nonempty (Some (id first)) then Some (id first)
                        else None
                    | None => None
                    end
                end
            else u in
          let leaver :=
            trimmed_or (departingPlayer ≫= (λ ip, username ip.2))
                       (λ n, n) "A commander" in
          let '(u2, rooms2, chat2) :=
            emitSystemChat u1 c (leaver ++ " left the battle.") now
              (<[c := u1]> rooms1) in
          let rooms3 := <[c := u2]> rooms2 in
          ((out1 ++ chat2 ++ emitRoomState c rooms3)%list, rooms3)
      end
  end.

(** [disconnecting]; [joined] lists [socket.rooms], which socket.io
    keeps. *)
Definition disconnecting (socket : string) (joined : list string) (now : N)
    (rooms : gmap string room) : outcome :=
  let roomCodes := filter (λ c, is_Some (rooms !! c)) joined in
  let '(out, rooms') := foldl (leave_room socket now) ([], rooms) roomCodes in
  Outcome NoReply out rooms'.

(** *** Events and reachable registries *)

Inductive event :=
| CreateGame (socket c : string) (now : N)
| JoinGame (socket c : string) (now : N)
| SetUsername (socket c : string) (newname : option string) (now : N)
| PlaceShips (socket c : string) (submitted : option (list ship_payload))
| Attack (socket c : string) (t : coords)
| ChatMessage (socket c : string) (raw : option string) (now : N)
| Disconnecting (socket : string) (joined : list string) (now : N).

Definition handle (e : event) (rooms : gmap string room) : outcome :=
  match e with
  | CreateGame socket c now => createGame socket c now rooms
  | JoinGame socket c now => joinGame socket c now rooms
  | SetUsername socket c newname now => setUsername socket c newname now rooms
  | PlaceShips socket c submitted => placeShips socket c submitted rooms
  | Attack socket c t => attack socket c t rooms
  | ChatMessage socket c raw now => chatMessage socket c raw now rooms
  | Disconnecting socket joined now => disconnecting socket joined now rooms
  end.

(** [generateRoomCode] only returns a code that [rooms] does not have. *)
Definition enabled (e : event) (rooms : gmap string room) : Prop :=
  match e with
  | CreateGame _ c _ => rooms !! c = None
  | _ => True
  end.

(** The registries the server can be in, starting from [new Map()]. *)
Inductive reachable : gmap string room → Prop :=
| reachable_start : reachable ∅
| reachable_step rooms e :
    reachable rooms → enabled e rooms →
    reachable (registry (handle e rooms)).

(** Run a list of events from a registry. *)
Definition run (es : list event) (rooms : gmap string room)
  : gmap string room :=
  foldl (λ rs e, registry (handle e rs)) rooms es.

End Server.

(** * Vocabulary of the properties *)

(** ** Attacks and seats *)

(** Every cell of every ship in [opponentShips] is among [attackerHits]. *)
Definition fleet_destroyed (opponentShips : list ship)
    (attackerHits : gset key) : Prop :=
  ∀ s cl, s ∈ opponentShips → cl ∈ cells s → cellKey cl ∈ attackerHits.

(** The record of [socket] in room [c], if it is seated there. *)
Definition seat (rooms : gmap string room) (c socket : string)
  : option player :=
  r ← rooms !! c; snd <$> getPlayer r socket.

(** The bounds test of the [attack] handler. *)
Definition off_board (t : coords) : bool :=
  js_lt (px t) 0 || js_lt (py t) 0 || js_lt (pz t) 0
  || js_ge (px t) BOARD_SIZE || js_ge (py t) BOARD_SIZE
  || js_ge (pz t) BOARD_SIZE.

(** ** The turn pointer and the life of a record *)

(** The turn is absent or the identity of a seated player. *)
Definition turn_seated (r : room) : Prop :=
  turn r = None ∨ ∃ p, p ∈ players r ∧ turn r = Some (id p).

Definition room_ok (r : room) : Prop :=
  (length (players r) ≤ 2)%nat ∧ turn_seated r.

Definition registry_ok (rooms : gmap string room) : Prop :=
  map_Forall (λ _ r, room_ok r) rooms.

(** What [leave_room] leaves as the turn of a room that is not emptied. *)
Definition turn_after_leave (socket : string) (r : room) : option string :=
  let remaining := filter (λ p, id p ≠ socket) (players r) in
  if bool_decide (turn r = Some socket) then
    match getOpponent r socket with
    | Some (_, o) => Some (id o)
    | None =>
        match remaining !! 0%nat with
        | Some first =>
            if nonempty (Some (id first)) then Some (id first) else None
        | None => None
        end
    end
  else turn r.

(** The room [c] holds [opponent] alone, with the turn. *)
Definition handed_over (c : string) (opponent : player)
    (rooms : gmap string room) : Prop :=
  ∃ r', rooms !! c = Some r' ∧ players r' = [opponent]
        ∧ turn r' = Some (id opponent).

(** Every event of a run is enabled where it is handled. *)
Fixpoint run_enabled (trim collapse_whitespace : string → string)
    (es : list event) (rooms : gmap string room) : Prop :=
  match es with
  | [] => True
  | e :: es =>
      enabled e rooms
      ∧ run_enabled trim collapse_whitespace es
          (registry (handle trim collapse_whitespace e rooms))
  end.

(** The record [pl'] has at least the shots of [pl], and is ready if [pl]
    is. *)
Definition grows (pl pl' : player) : Prop :=
  hits pl ⊆ hits pl' ∧ misses pl ⊆ misses pl'
  ∧ (ready pl = true → ready pl' = true).

(** [r'] still seats [socket], with a record grown from the one in [r]. *)
Definition room_keeps (socket : string) (r r' : room) : Prop :=
  ∀ i pl, getPlayer r socket = Some (i, pl) →
    ∃ i' pl', getPlayer r' socket = Some (i', pl') ∧ grows pl pl'.

Definition keeps (socket c : string) (rooms rooms' : gmap string room)
  : Prop :=
  ∀ pl, seat rooms c socket = Some pl →
    ∃ pl', seat rooms' c socket = Some pl' ∧ grows pl pl'.

(** [e] is not the disconnection of [who]. *)
Definition stays (who : string) (e : event) : Prop :=
  match e with
  | Disconnecting socket _ _ => socket ≠ who
  | _ => True
  end.

(** ** Boards and fleets *)

(** The value of [board[x][y][z]] for the integer coordinates of a cell. *)
Definition cell_at (b : grid) (c : cell) : option (option string) :=
  board_get b (JInt (cx c)) (JInt (cy c)) (JInt (cz c)).

Definition on_board (c : cell) : Prop :=
  0 ≤ cx c < BOARD_SIZE ∧ 0 ≤ cy c < BOARD_SIZE ∧ 0 ≤ cz c < BOARD_SIZE.

(** A dense cube of edge [BOARD_SIZE]. *)
Definition cube (b : grid) : Prop :=
  length b = Z.to_nat BOARD_SIZE
  ∧ Forall (λ plane, length plane = Z.to_nat BOARD_SIZE
                     ∧ Forall (λ column, length column = Z.to_nat BOARD_SIZE)
                              plane) b.

(** All three axes are whole numbers on the board. *)
Definition whole_on_board (c : coords) : Prop :=
  ∃ x y z, c = Coords (JInt x) (JInt y) (JInt z) ∧ on_board (Cell x y z).

(** The cell the validator stores for a coordinate object. *)
Definition to_cell (c : coords) : cell :=
  Cell (int_value (px c)) (int_value (py c)) (int_value (pz c)).

(** Axis [a] has the same value on all cells. *)
Definition constant_on (a : axis) (cs : list cell) : Prop :=
  ∀ c c', c ∈ cs → c' ∈ cs → coordinate a c = coordinate a c'.

(** The run of [n] consecutive integers from [m]. *)
Fixpoint run_from (m : Z) (n : nat) : list Z :=
  match n with O => [] | S n => m :: run_from (m + 1) n end.

(** The cells vary on exactly one axis, are constant on the other two, and
    their values on the varying axis are, in some order, a run of
    consecutive integers. *)
Definition straight (cs : list cell) : Prop :=
  ∃ a, ¬ constant_on a cs
    ∧ (∀ a', a' ≠ a → constant_on a' cs)
    ∧ ∃ m, coordinate a <$> cs ≡ₚ run_from m (length cs).

(** The name an entry of the submission carries, if it has the shape of a
    ship. *)
Definition payload_name (s : ship_payload) : option string :=
  match s with Malformed => None | Placement n _ => Some n end.

Definition catalog_names : list string := SHIPS.*1.

(** The five clauses of a valid fleet: one entry per catalog name, catalog
    lengths, whole coordinates on the board, straight contiguous ships, no
    cell shared by two ships. *)
Inductive clause :=
| OnePerName | CatalogLength | WholeOnBoard | StraightLine | NoSharedCell.

Global Instance clause_eq_dec : EqDecision clause.
Proof. solve_decision. Defined.

(** What each clause asks of a submission. *)
Definition holds (k : clause) (submitted : option (list ship_payload))
  : Prop :=
  match k with
  | OnePerName =>
      ∃ l, submitted = Some l
        ∧ payload_name <$> l ≡ₚ Some <$> catalog_names
  | CatalogLength =>
      ∀ l n cs len, submitted = Some l → Placement n cs ∈ l →
        (n, len) ∈ SHIPS → length cs = len
  | WholeOnBoard =>
      ∀ l n cs c, submitted = Some l → Placement n cs ∈ l → c ∈ cs →
        whole_on_board c
  | StraightLine =>
      ∀ l n cs, submitted = Some l → Placement n cs ∈ l →
        Forall whole_on_board cs → (1 < length cs)%nat →
        straight (to_cell <$> cs)
  | NoSharedCell =>
      ∀ l i j n1 cs1 n2 cs2 c, submitted = Some l → i ≠ j →
        l !! i = Some (Placement n1 cs1) → l !! j = Some (Placement n2 cs2) →
        c ∈ cs1 → c ∈ cs2 → False
  end.

(** The error messages that belong to each clause. *)
Definition reasons (k : clause) (msg : string) : Prop :=
  match k with
  | OnePerName =>
      msg ∈ [ "Invalid ship data submitted.";
              "All ships must be placed before locking in.";
              "Invalid ship configuration"; "Unexpected ship provided.";
              "Duplicate ship entries are not allowed." ]
  | CatalogLength =>
      ∃ n len, (n, len) ∈ SHIPS
        ∧ msg = n ++ " must occupy exactly " ++ pretty len ++ " cells."
  | WholeOnBoard =>
      msg ∈ [ "Ship coordinates must be whole numbers.";
              "Ship out of bounds" ]
  | StraightLine =>
      msg ∈ [ "Ships must be placed in a straight line.";
              "Ships must occupy consecutive cells." ]
  | NoSharedCell => msg = "Ships cannot overlap"
  end.

(** A well-shaped entry of a submission, and the ship stored for it. *)
Definition entry (e : string * list coords) : ship_payload :=
  Placement e.1 e.2.

Definition stored (e : string * list coords) : ship :=
  Ship e.1 (to_cell <$> e.2).

(** The layout [st] is what the validator holds after it has accepted the
    entries of [fleet], in order. *)
Definition accepted (fleet : list (string * list coords)) (st : layout)
  : Prop :=
  sanitizedShips st = stored <$> fleet
  ∧ (∀ n, n ∈ seenNames st ↔ n ∈ fleet.*1)
  ∧ NoDup fleet.*1
  ∧ Forall (λ e, (e.1, length e.2) ∈ SHIPS ∧ Forall whole_on_board e.2
                 ∧ straight (to_cell <$> e.2)) fleet
  ∧ (∀ k, k ∈ occupied st
          ↔ ∃ e c, e ∈ fleet ∧ c ∈ e.2 ∧ k = cellKey (to_cell c))
  ∧ (∀ i j e1 e2 c, i ≠ j → fleet !! i = Some e1 → fleet !! j = Some e2 →
       c ∈ e1.2 → c ∈ e2.2 → False)
  ∧ cube (layout_board st)
  ∧ (∀ c S, cell_at (layout_board st) c = Some (Some S)
            ↔ ∃ e, e ∈ fleet ∧ e.1 = S ∧ c ∈ to_cell <$> e.2).

(** ** Room codes as numbers *)

(** The characters 0 to 9, and the number a string of them writes in
    base ten. *)
Definition is_digit (a : Ascii.ascii) : Prop :=
  (48 ≤ Ascii.nat_of_ascii a ≤ 57)%nat.

Definition digit_value (a : Ascii.ascii) : N := (Ascii.N_of_ascii a - 48)%N.

Fixpoint decimal_from (acc : N) (s : string) : N :=
  match s with
  | EmptyString => acc
  | String a s => decimal_from (10 * acc + digit_value a) s
  end.

Definition decimal_value (s : string) : N := decimal_from 0 s.

(** ** Sound registries *)

(** A stored user name is [null] or a non-empty string of at most twenty
    characters. *)
Definition username_ok (u : option string) : Prop :=
  match u with
  | Some n => n ≠ "" ∧ (String.length n ≤ 20)%nat
  | None => True
  end.

(** The board and the ships of a record: as [createGame] and [joinGame]
    make them while the player is not ready, and as the validator left
    them after an accepted submission once the player is. *)
Definition placed (p : player) : Prop :=
  if ready p then
    ∃ fleet st, length fleet = length SHIPS ∧ accepted fleet st
      ∧ board p = layout_board st ∧ ships p = sanitizedShips st
  else board p = createEmptyBoard ∧ ships p = [].

(** No key is both a hit and a miss, and every hit is the key of a cell of
    the board. *)
Definition shots_ok (p : player) : Prop :=
  hits p ## misses p
  ∧ ∀ k, k ∈ hits p → ∃ cl, on_board cl ∧ k = cellKey cl.

Definition player_sound (p : player) : Prop :=
  username_ok (username p) ∧ placed p ∧ shots_ok p.

(** A chat entry shows something, and what a player wrote is at most
    [MAX_CHAT_LENGTH] characters long. *)
Definition entry_ok (e : chat_entry) : Prop :=
  message e ≠ ""
  ∧ (kind e = KindUser → (String.length (message e) ≤ MAX_CHAT_LENGTH)%nat).

Definition room_sound (c : string) (r : room) : Prop :=
  code r = c ∧ players r ≠ []
  ∧ (length (chat r) ≤ MAX_CHAT_MESSAGES)%nat ∧ Forall entry_ok (chat r)
  ∧ Forall player_sound (players r).

Definition registry_sound (rooms : gmap string room) : Prop :=
  map_Forall room_sound rooms.

(** The room [leave_room] stores for a room that is not emptied. *)
Definition room_left (trim : string → string) (socket : string) (now : N)
    (r : room) : room :=
  let leaver :=
    trimmed_or trim (getPlayer r socket ≫= (λ ip, username ip.2))
               (λ n, n) "A commander" in
  trimChatHistory
    (Room (code r) (filter (λ p, id p ≠ socket) (players r))
          (turn_after_leave socket r)
          (chat r ++ [ChatEntry "system" "System"
                        (leaver ++ " left the battle.") KindSystem now])).

(** ** Events *)

(** The rooms an event names. *)
Definition addressed (e : event) : list string :=
  match e with
  | CreateGame _ c _ | JoinGame _ c _ | SetUsername _ c _ _
  | PlaceShips _ c _ | Attack _ c _ | ChatMessage _ c _ _ => [c]
  | Disconnecting _ joined _ => joined
  end.

(** The socket an event comes from. *)
Definition sender (e : event) : string :=
  match e with
  | CreateGame socket _ _ | JoinGame socket _ _ | SetUsername socket _ _ _
  | PlaceShips socket _ _ | Attack socket _ _ | ChatMessage socket _ _ _
  | Disconnecting socket _ _ => socket
  end.

(** The players of [r] other than [socket], in their order. *)
Definition others (socket : string) (r : room) : list player :=
  filter (λ p, id p ≠ socket) (players r).

(** What of a room the match depends on: the turn, and of each seat
    everything but the user name. *)
Definition game_view (r : room)
  : option string * list (string * bool * grid * list ship * gset key
                          * gset key) :=
  (turn r,
   (λ p, (id p, ready p, board p, ships p, hits p, misses p)) <$> players r).

(** ** Fleets as sets of cells *)

(** All the cells of a list of ships. *)
Definition fleet_cells (l : list ship) : list cell := mjoin (cells <$> l).

(** The length the catalog gives to a ship name. *)
Definition catalog_length (n : string) : nat :=
  default 0%nat (expectedShips !! n).

(** ** Room states on the wire *)

(** The [roomState] message that describes room [r]. *)
Definition room_state (r : room) : broadcast :=
  RoomState ((λ p, (id p, username p, ready p)) <$> players r) (turn r)
            (nonempty (turn r)).

(** The [roomState] messages among [out] that went to room [c], oldest
    first. *)
Definition states_to (c : string) (out : list (string * broadcast))
  : list broadcast :=
  omap (λ x, match x.2 with
             | RoomState _ _ _ => if decide (x.1 = c) then Some x.2 else None
             | _ => None
             end) out.

(** ** Submissions that differ in the order of cells *)

(** Two entries of a submission with the same name and the same cells, in
    any order. *)
Definition same_ship (s s' : ship_payload) : Prop :=
  match s, s' with
  | Placement n cs, Placement n' cs' => n = n' ∧ cs ≡ₚ cs'
  | Malformed, Malformed => True
  | _, _ => False
  end.

(** ** Submissions and the ships stored for them *)

(** The ship [sh] is what the validator stores for the entry [s]: the name
    of [s], and the cells of [s] one by one in the order [s] lists them. *)
Definition stored_as (s : ship_payload) (sh : ship) : Prop :=
  match s with
  | Placement n cs => name sh = n ∧ cells sh = to_cell <$> cs
  | Malformed => False
  end.

(** ** Events that leave the turn of a room alone *)

(** The event [e], handled in [rooms], places no fleet in room [c],
    disconnects no socket that had joined [c], and is no attack that room
    [c] accepts. *)
Definition quiet (c : string) (rooms : gmap string room) (e : event)
  : Prop :=
  match e with
  | PlaceShips _ c' _ => c' ≠ c
  | Disconnecting _ joined _ => c ∉ joined
  | Attack socket c' t =>
      c' = c → ∀ p, answer (attack socket c' t rooms) ≠ ReplyAttack p
  | _ => True
  end.

(** Every event of a run is quiet for [c] where it is handled. *)
Fixpoint quiet_run (trim collapse_whitespace : string → string)
    (c : string) (es : list event) (rooms : gmap string room) : Prop :=
  match es with
  | [] => True
  | e :: es =>
      quiet c rooms e
      ∧ quiet_run trim collapse_whitespace c es
          (registry (handle trim collapse_whitespace e rooms))
  end.

(** * Example inputs *)

(** A ship of [n] cells from [(x, y, z)] along axis [a]. *)
Definition line (shipname : string) (a : axis) (x y z : Z) (n : nat)
  : ship_payload :=
  Placement shipname
    ((λ i, match a with
           | AxisX => Coords (JInt (x + i)) (JInt y) (JInt z)
           | AxisY => Coords (JInt x) (JInt (y + i)) (JInt z)
           | AxisZ => Coords (JInt x) (JInt y) (JInt (z + i))
           end) <$> seqZ 0 (Z.of_nat n)).

Definition fleet1 : list ship_payload :=
  [ line "Carrier" AxisX 0 0 0 5; line "Battleship" AxisY 0 1 0 4;
    line "Cruiser" AxisZ 1 1 1 3; line "Submarine" AxisX 2 4 4 3;
    line "Destroyer" AxisZ 4 4 0 2 ].

Definition fleet2 : list ship_payload :=
  [ line "Destroyer" AxisY 3 3 3 2; line "Carrier" AxisZ 0 0 0 5;
    line "Battleship" AxisZ 1 0 0 4; line "Cruiser" AxisZ 2 0 0 3;
    line "Submarine" AxisZ 3 0 0 3 ].

Definition at_ (x y z : Z) : coords := Coords (JInt x) (JInt y) (JInt z).

(** Nothing to trim or collapse in the examples. *)
Definition as_is (s : string) : string := s.

(** Two players seated in room 123456, both fleets placed, [a] to move. *)
Definition started_game : gmap string room :=
  run as_is as_is
    [ CreateGame "a" "123456" 0; JoinGame "b" "123456" 1;
      PlaceShips "a" "123456" (Some fleet1);
      PlaceShips "b" "123456" (Some fleet2) ] ∅.

(** [fleet1] with a Cruiser on the cells (0,0,0), (0,1,0), (0,0,1). *)
Definition non_colinear_fleet : list ship_payload :=
  [ line "Carrier" AxisX 0 0 0 5; line "Battleship" AxisY 0 1 0 4;
    Placement "Cruiser" [at_ 0 0 0; at_ 0 1 0; at_ 0 0 1];
    line "Submarine" AxisX 2 4 4 3; line "Destroyer" AxisZ 4 4 0 2 ].

(** Room 123456 with two seated players and no fleet placed yet. *)
Definition seated_game : gmap string room :=
  run as_is as_is [CreateGame "a" "123456" 0; JoinGame "b" "123456" 1] ∅.

(** Room 123456 with [a] ready and [b] still placing. *)
Definition one_ready_game : gmap string room :=
  run as_is as_is
    [ CreateGame "a" "123456" 0; JoinGame "b" "123456" 1;
      PlaceShips "a" "123456" (Some fleet1) ] ∅.

(** A match played to its last shot: [a] has hit sixteen of the seventeen
    cells of [fleet2], [b] has fired sixteen times at the top layer, and
    [a] is to move. *)
Definition a_shots : list coords :=
  [at_ 3 3 3; at_ 3 4 3]
  ++ ((λ z, at_ 0 0 z) <$> seqZ 0 5) ++ ((λ z, at_ 1 0 z) <$> seqZ 0 4)
  ++ ((λ z, at_ 2 0 z) <$> seqZ 0 3) ++ ((λ z, at_ 3 0 z) <$> seqZ 0 2).

Definition b_shots : list coords :=
  (λ i, at_ (i mod 5) (i / 5) 4) <$> seqZ 0 16.

Definition battle : list (event) :=
  mjoin (zip_with (λ sa sb, [Attack "a" "123456" sa; Attack "b" "123456" sb])
                  a_shots b_shots).

Definition last_shot_pending : gmap string room :=
  run as_is as_is battle started_game.

(** The registry after [a] has sunk the last cell, (3, 0, 2). *)
Definition won_game : gmap string room :=
  registry (attack "a" "123456" (at_ 3 0 2) last_shot_pending).

Definition winning_payload : payload :=
  Payload "a" (at_ 3 0 2) Sunk (Some "Submarine") None (Some "a").

(** The target (0, 0, 2.5): a number that is not an integer on the z axis. *)
Definition fractional_target : coords := Coords (JInt 0) (JInt 0) (JFrac 2 1).

(** [a] hits (3, 3, 3), [b] answers at (0, 0, 0), and [a] tries (3, 3, 3)
    again. *)
Definition second_round : gmap string room :=
  run as_is as_is [Attack "b" "123456" (at_ 0 0 0)]
    (registry (attack "a" "123456" (at_ 3 3 3) started_game)).

(** The started game after the first shot of [a]: [b] is to move. *)
Definition first_shot_fired : gmap string room :=
  registry (attack "a" "123456" (at_ 3 3 3) started_game).

(** [fleet1] with its third entry replaced by [s]. *)
Definition replace_third (s : ship_payload) : list ship_payload :=
  [ line "Carrier" AxisX 0 0 0 5; line "Battleship" AxisY 0 1 0 4; s;
    line "Submarine" AxisX 2 4 4 3; line "Destroyer" AxisZ 4 4 0 2 ].

(** Room 123456 after [a] has sent 205 chat messages to it. *)
Definition busy_chat : gmap string room :=
  run as_is as_is
    (replicate 205 (ChatMessage "a" "123456" (Some "ping") 3)) seated_game.

Definition ping : chat_entry := ChatEntry "a" "Player" "ping" KindUser 3.

(** [a] gives a name of 33 characters. *)
Definition named_game : gmap string room :=
  run as_is as_is
    [SetUsername "a" "123456" (Some "Admiral Grace Hopper of the Fleet") 2]
    seated_game.

(** The started game after [b] has left and [c] has taken the seat. *)
Definition rejoined_game : gmap string room :=
  run as_is as_is
    [Disconnecting "b" ["123456"] 5; JoinGame "c" "123456" 6] started_game.

(** The started game beside a second room, 654321. *)
Definition two_rooms : gmap string room :=
  run as_is as_is [CreateGame "c" "654321" 7] started_game.

(** The target (0.5, 0, 0). *)
Definition fractional_row : coords := Coords (JFrac 0 1) (JInt 0) (JInt 0).

(** An entry of a submission with its cells listed from the last to the
    first. *)
Definition backwards (s : ship_payload) : ship_payload :=
  match s with
  | Malformed => Malformed
  | Placement n cs => Placement n (reverse cs)
  end.

(** Room 123456, created by [a] and joined by [b], after [a] has left and
    [c] has taken the seat: [b] holds the first seat and is ready, [c] is
    still placing. *)
Definition creator_gone : gmap string room :=
  run as_is as_is
    [ CreateGame "a" "123456" 0; JoinGame "b" "123456" 1;
      Disconnecting "a" ["123456"] 2; JoinGame "c" "123456" 3;
      PlaceShips "b" "123456" (Some fleet2) ] ∅.

(** The started game after [b] has left: [a] is alone and holds the
    turn. *)
Definition lone_game : gmap string room :=
  run as_is as_is [Disconnecting "b" ["123456"] 5] started_game.

(** * Properties *)

(** ** Rejected placements *)

(** C8: a [placeShips] call that answers with an error, whatever check
    failed, leaves the whole registry as it was (so the board, the ships and
    the ready flag of the submitting player are untouched) and broadcasts
    nothing. *)
Theorem placeShips_rejected_unchanged socket c submitted rooms msg :
  answer (placeShips socket c submitted rooms) = ReplyError msg →
  registry (placeShips socket c submitted rooms) = rooms
  ∧ emitted (placeShips socket c submitted rooms) = [].
Proof.
  unfold placeShips.
  destruct (rooms !! c) as [r|]; [|done].
  destruct (getPlayer r socket) as [[i p]|]; [|done].
  destruct (validate submitted) as [l|reason]; [|done].
  by destruct (_ && _).
Qed.

Lemma placeShips_rejected_unchanged_witness :
  answer (placeShips "a" "123456" (Some non_colinear_fleet) seated_game)
  = ReplyError "Ships must be placed in a straight line."
  ∧ registry (placeShips "a" "123456" (Some non_colinear_fleet) seated_game)
    = seated_game
  ∧ emitted (placeShips "a" "123456" (Some non_colinear_fleet) seated_game)
    = [].
Proof.
  split; [by vm_compute|].
  apply (placeShips_rejected_unchanged "a" "123456" (Some non_colinear_fleet)
           seated_game "Ships must be placed in a straight line.").
  by vm_compute.
Defined.

(** Every failure of the validator reaches the caller as an error. *)
Lemma placeShips_validation_failure socket c submitted rooms r ip reason :
  rooms !! c = Some r → getPlayer r socket = Some ip →
  validate submitted = Throw reason →
  placeShips socket c submitted rooms = Outcome (ReplyError reason) [] rooms.
Proof.
  intros Hr Hp Hv. unfold placeShips. rewrite Hr, Hp. destruct ip.
  by rewrite Hv.
Qed.

(** ** Handlers with and without an acknowledgement callback *)

Lemma on_placeShips_callback socket c submitted rooms :
  on_placeShips true socket c submitted rooms
  = placeShips socket c submitted rooms.
Proof. reflexivity. Qed.

Lemma on_attack_callback socket c t rooms :
  on_attack true socket c t rooms = attack socket c t rooms.
Proof. reflexivity. Qed.

(** Without a callback [attack] stores and broadcasts what it does with
    one; only the answer is lost. *)
Lemma on_attack_outcome callback socket c t rooms :
  on_attack callback socket c t rooms
  = Outcome (respond callback (answer (attack socket c t rooms)))
            (emitted (attack socket c t rooms))
            (registry (attack socket c t rooms)).
Proof.
  unfold on_attack, attack. destruct (rooms !! c) as [r|]; [|done].
  destruct (negb _); [done|].
  destruct (getOpponent r socket) as [[j opponent]|]; [|done].
  destruct (getPlayer r socket) as [[i p]|]; [|done]. cbv zeta.
  destruct (_ || _); [done|]. destruct (_ || _); [done|].
  destruct (board_get _ _ _ _) as [found|]; [|by destruct callback].
  destruct (truthy found); [|done].
  destruct (list_find _ _) as [[n s]|]; [done|by destruct callback].
Qed.

(** ** Start of the game *)

Lemma emitRoomState_only_state c rooms m :
  (c, m) ∈ emitRoomState c rooms →
  ∃ roster t started, m = RoomState roster t started.
Proof.
  unfold emitRoomState. destruct (rooms !! c); [|by intros ?%elem_of_nil].
  intros [= ->]%list_elem_of_singleton. eauto.
Qed.

Lemma fmap_id_insert (ps : list player) i p p' :
  ps !! i = Some p → id p' = id p → id <$> <[i := p']> ps = id <$> ps.
Proof.
  intros Hi Hid. rewrite list_fmap_insert, Hid.
  apply list_insert_id. by rewrite list_lookup_fmap, Hi.
Qed.

Lemma forallb_ready ps :
  forallb ready ps = true ↔ Forall (λ p, ready p = true) ps.
Proof.
  induction ps as [|p ps IH]; simpl.
  - split; [constructor|done].
  - rewrite andb_true_iff, Forall_cons, IH. done.
Qed.

Lemma getPlayer_lookup r socket i p :
  getPlayer r socket = Some (i, p) → players r !! i = Some p ∧ id p = socket.
Proof. unfold getPlayer. intros (? & ? & _)%list_find_Some. done. Qed.

(** C9, as stated, fails in three ways.  The creator [a] of room 123456
    has left and [c] has joined: the placement of [c] makes both seats
    ready and the turn goes to [b], who holds the first seat and did not
    create the room.  [a] is alone in a started game and holds the turn:
    the placement of [a] leaves one seat, the turn stays set and
    [playerReady] is broadcast.  And the placement of [b] that makes both
    seats ready, sent without an acknowledgement callback, is stored and
    then nothing else happens: the turn stays unset and nothing is
    broadcast. *)
Lemma placeShips_start_not_as_claimed :
  (answer (placeShips "c" "123456" (Some fleet1) creator_gone) = ReplySuccess
   ∧ (r ← registry (placeShips "c" "123456" (Some fleet1) creator_gone)
            !! "123456";
      Some (id <$> players r, ready <$> players r, turn r))
     = Some (["b"; "c"], [true; true], Some "b")
   ∧ emitted (placeShips "c" "123456" (Some fleet1) creator_gone)
     = [ ("123456",
          RoomState [("b", None, true); ("c", None, true)] None false);
         ("123456", GameStarted (Some "b"));
         ("123456",
          RoomState [("b", None, true); ("c", None, true)] (Some "b") true) ])
  ∧ ((turn <$> lone_game !! "123456") = Some (Some "a")
     ∧ answer (placeShips "a" "123456" (Some fleet2) lone_game) = ReplySuccess
     ∧ (r ← registry (placeShips "a" "123456" (Some fleet2) lone_game)
              !! "123456";
        Some (id <$> players r, ready <$> players r, turn r))
       = Some (["a"], [true], Some "a")
     ∧ emitted (placeShips "a" "123456" (Some fleet2) lone_game)
       = [ ("123456", RoomState [("a", None, true)] (Some "a") true);
           ("123456", PlayerReady) ])
  ∧ (answer (on_placeShips false "b" "123456" (Some fleet2) one_ready_game)
     = Uncaught
     ∧ (r ← registry (on_placeShips false "b" "123456" (Some fleet2)
                        one_ready_game) !! "123456";
        Some (id <$> players r, ready <$> players r, turn r))
       = Some (["a"; "b"], [true; true], None)
     ∧ emitted (on_placeShips false "b" "123456" (Some fleet2) one_ready_game)
       = []).
Proof. repeat split; vm_compute; reflexivity. Qed.

Lemma emitRoomState_insert c r rooms :
  emitRoomState c (<[c := r]> rooms) = [(c, room_state r)].
Proof. unfold emitRoomState. by rewrite lookup_insert_eq. Qed.

(** C9, amended: a placement of a seated player that passes validation is
    stored first, with the turn as it was.  With an acknowledgement
    callback it is then answered with success and a [roomState] is
    broadcast; if the room now has two seats, both ready, the turn becomes
    the identity of the player in the first seat and [gameStarted] with
    that turn and a second [roomState] are broadcast; if not, the turn
    stays as it was, set or unset, and [playerReady] is broadcast.  Without
    a callback the handler ends in an uncaught error right after storing:
    the turn stays as it was and nothing is broadcast. *)
Theorem on_placeShips_game_start (callback : bool) socket c submitted rooms r
    i p l :
  rooms !! c = Some r → getPlayer r socket = Some (i, p) →
  validate submitted = Return l →
  ∃ r1,
    players r1
    = <[i := Player (id p) true (layout_board l) (sanitizedShips l) (hits p)
                    (misses p) (username p)]> (players r)
    ∧ code r1 = code r ∧ chat r1 = chat r ∧ turn r1 = turn r
    ∧ if callback then
        answer (on_placeShips callback socket c submitted rooms)
        = ReplySuccess
        ∧ ((length (players r1) = 2%nat
            ∧ Forall (λ q, ready q = true) (players r1)
            ∧ ∃ first, players r1 !! 0%nat = Some first
                ∧ registry (on_placeShips callback socket c submitted rooms)
                  = <[c := with_turn r1 (Some (id first))]> rooms
                ∧ emitted (on_placeShips callback socket c submitted rooms)
                  = [ (c, room_state r1);
                      (c, GameStarted (Some (id first)));
                      (c, room_state (with_turn r1 (Some (id first)))) ])
           ∨ (¬ (length (players r1) = 2%nat
                 ∧ Forall (λ q, ready q = true) (players r1))
              ∧ registry (on_placeShips callback socket c submitted rooms)
                = <[c := r1]> rooms
              ∧ emitted (on_placeShips callback socket c submitted rooms)
                = [(c, room_state r1); (c, PlayerReady)]))
      else
        answer (on_placeShips callback socket c submitted rooms) = Uncaught
        ∧ registry (on_placeShips callback socket c submitted rooms)
          = <[c := r1]> rooms
        ∧ emitted (on_placeShips callback socket c submitted rooms) = [].
Proof.
  intros Hr Hp Hl. unfold on_placeShips. rewrite Hr, Hp, Hl.
  set (p' := Player _ _ _ _ _ _ _).
  set (r1 := with_players r (<[i := p']> (players r))).
  exists r1. repeat (split; [done|]).
  destruct callback; [|done]. cbn [negb].
  destruct ((length (players r1) =? 2)%nat && forallb ready (players r1))
    eqn:E.
  - apply andb_true_iff in E as [Hlen Hall].
    apply Nat.eqb_eq in Hlen. apply forallb_ready in Hall.
    split; [done|]. left. split; [done|]. split; [done|].
    destruct (players r1 !! 0%nat) as [first|] eqn:Hfirst.
    + exists first. split; [done|]. cbn [registry emitted fmap option_fmap option_map].
      rewrite insert_insert_eq, !emitRoomState_insert.
      split; [done|]. done.
    + apply lookup_ge_None in Hfirst. lia.
  - split; [done|]. right. split.
    { intros [Hlen Hall]. apply andb_false_iff in E as [E|E].
      - apply Nat.eqb_neq in E. done.
      - apply not_true_iff_false in E. by apply E, forallb_ready. }
    cbn [registry emitted]. by rewrite emitRoomState_insert.
Qed.

Lemma on_placeShips_game_start_witness :
  ∃ r i p l,
    one_ready_game !! "123456" = Some r
    ∧ getPlayer r "b" = Some (i, p)
    ∧ validate (Some fleet2) = Return l
    ∧ answer (on_placeShips true "b" "123456" (Some fleet2) one_ready_game)
      = ReplySuccess.
Proof.
  assert (H : (r ← one_ready_game !! "123456"; fst <$> getPlayer r "b")
              = Some 1%nat) by (vm_compute; reflexivity).
  destruct (one_ready_game !! "123456") as [r|] eqn:Hr; [|discriminate H].
  simpl in H. destruct (getPlayer r "b") as [[i p]|] eqn:Hp; [|discriminate H].
  assert (Hv : match validate (Some fleet2) with
               | Return _ => true
               | Throw _ => false
               end = true) by (vm_compute; reflexivity).
  destruct (validate (Some fleet2)) as [l|] eqn:Hl; [|discriminate Hv].
  exists r, i, p, l. split; [reflexivity|]. split; [exact Hp|].
  split; [reflexivity|].
  destruct (on_placeShips_game_start true "b" "123456" (Some fleet2)
              one_ready_game r i p l Hr Hp Hl) as (r1 & _ & _ & _ & _ & Hans & _).
  exact Hans.
Defined.

(** ** Attacks *)

Lemma getPlayer_insert r socket i p p' :
  getPlayer r socket = Some (i, p) → id p' = id p →
  getPlayer (with_players r (<[i := p']> (players r))) socket = Some (i, p').
Proof.
  unfold getPlayer. simpl. intros (Hi & Hid & Hfirst)%list_find_Some Hid'.
  apply list_find_Some. split; [|split].
  - apply list_lookup_insert_eq. by eapply lookup_lt_Some.
  - congruence.
  - intros j q Hj Hlt. rewrite list_lookup_insert_ne in Hj by lia. eauto.
Qed.

Lemma getPlayer_with_turn r t socket :
  getPlayer (with_turn r t) socket = getPlayer r socket.
Proof. done. Qed.

Lemma getOpponent_lookup r socket j o :
  getOpponent r socket = Some (j, o) → players r !! j = Some o.
Proof.
  unfold getOpponent.
  destruct (players r !! 1%nat) as [pB|] eqn:HB; [|done].
  destruct (players r !! 0%nat) as [pA|] eqn:HA; [|done].
  case_bool_decide; congruence.
Qed.

Lemma getOpponent_other_seat r socket j o i p :
  getOpponent r socket = Some (j, o) → getPlayer r socket = Some (i, p) →
  i ≠ j.
Proof.
  unfold getOpponent, getPlayer.
  destruct (players r !! 1%nat) as [pB|] eqn:HB; [|done].
  destruct (players r !! 0%nat) as [pA|] eqn:HA; [|done].
  intros Ho (Hi & Hid & Hfirst)%list_find_Some.
  case_bool_decide as HidA; injection Ho as <- <-.
  - destruct i as [|i]; [done|]. exfalso. eapply (Hfirst 0%nat); eauto. lia.
  - intros ->. congruence.
Qed.

(** The shape of every accepted attack: the checks that were passed and
    the registry that results. *)
Lemma attack_accepted socket c t rooms p :
  answer (attack socket c t rooms) = ReplyAttack p →
  ∃ r j opponent i pl found res,
    rooms !! c = Some r ∧ turn r = Some socket
    ∧ getOpponent r socket = Some (j, opponent)
    ∧ getPlayer r socket = Some (i, pl)
    ∧ (coordKey (px t) (py t) (pz t) ∉ hits pl)
    ∧ (coordKey (px t) (py t) (pz t) ∉ misses pl)
    ∧ board_get (board opponent) (px t) (py t) (pz t) = Some found
    ∧ let k := coordKey (px t) (py t) (pz t) in
      let hits' := if truthy found then {[k]} ∪ hits pl else hits pl in
      let misses' := if truthy found then misses pl else {[k]} ∪ misses pl in
      let p' := Player (id pl) (ready pl) (board pl) (ships pl) hits' misses'
                       (username pl) in
      let r1 := with_players r (<[i := p']> (players r)) in
      attack socket c t rooms
      = resolve socket c t res (if truthy found then found else None)
                opponent hits' r1 rooms
      ∧ (truthy found = false → res = Miss).
Proof.
  unfold attack.
  destruct (rooms !! c) as [r|]; [|done].
  case_bool_decide as Hturn; [|done]. simpl.
  destruct (getOpponent r socket) as [[j opponent]|] eqn:Ho; [|done].
  destruct (getPlayer r socket) as [[i pl]|] eqn:Hp; [|done].
  destruct (_ || _); [done|].
  destruct (bool_decide (_ ∈ hits pl)) eqn:Hh; [done|].
  destruct (bool_decide (_ ∈ misses pl)) eqn:Hm; [done|]. simpl.
  apply bool_decide_eq_false in Hh, Hm.
  destruct (board_get _ _ _ _) as [found|] eqn:Hfound; [|done].
  destruct (truthy found) eqn:Htruthy.
  - destruct (list_find _ _) as [[? s]|]; [|done]. intros _.
    exists r, j, opponent, i, pl, found. rewrite Htruthy.
    eexists. repeat (split; [done|]). done.
  - intros _. exists r, j, opponent, i, pl, found, Miss. rewrite Htruthy.
    repeat (split; [done|]). done.
Qed.

Lemma allShipsSunk_spec opponentShips attackerHits :
  allShipsSunk opponentShips attackerHits = true
  ↔ fleet_destroyed opponentShips attackerHits.
Proof.
  unfold allShipsSunk, fleet_destroyed.
  rewrite forallb_forall. split.
  - intros H s cl Hs Hcl. apply list_elem_of_In, H in Hs.
    rewrite forallb_forall in Hs. apply list_elem_of_In, Hs in Hcl.
    by apply bool_decide_eq_true in Hcl.
  - intros H s Hs. apply forallb_forall. intros cl Hcl.
    apply bool_decide_eq_true. apply (H s cl); by apply list_elem_of_In.
Qed.

(** C4: for an accepted attack, let [shooter] be the attacker's record after
    the shot was recorded and [opponent] the other seat (whose record the
    attack leaves alone).  The payload names the attacker as winner with no
    next turn exactly when every cell of every opponent ship is among the
    shooter's hits; otherwise there is no winner, the next turn is the
    opponent's and the room's turn is the opponent.  In particular a shot
    reported as [Sunk] that completes the fleet carries the winner. *)
Theorem attack_win socket c t rooms p :
  answer (attack socket c t rooms) = ReplyAttack p →
  ∃ r r' i shooter j opponent,
    rooms !! c = Some r
    ∧ getOpponent r socket = Some (j, opponent)
    ∧ registry (attack socket c t rooms) !! c = Some r'
    ∧ getPlayer r' socket = Some (i, shooter)
    ∧ players r' !! j = Some opponent
    ∧ coordKey (px t) (py t) (pz t) ∈ hits shooter ∪ misses shooter
    ∧ attacker p = socket
    ∧ ((winner p = Some socket ∧ nextTurn p = None)
       ↔ fleet_destroyed (ships opponent) (hits shooter))
    ∧ (¬ fleet_destroyed (ships opponent) (hits shooter) →
       winner p = None ∧ nextTurn p = Some (id opponent)
       ∧ turn r' = Some (id opponent))
    ∧ (result p = Sunk → fleet_destroyed (ships opponent) (hits shooter) →
       winner p = Some socket).
Proof.
  intros Hans.
  destruct (attack_accepted _ _ _ _ _ Hans)
    as (r & j & opponent & i & pl & found & res & Hr & Hturn & Ho & Hp & Hh
        & Hm & Hfound & Hattack & _).
  cbv zeta in Hattack. rewrite Hattack in Hans |- *. clear Hattack.
  set (k := coordKey (px t) (py t) (pz t)) in *.
  set (hits' := if truthy found then {[k]} ∪ hits pl else hits pl) in *.
  set (p' := Player _ _ _ _ _ _ _) in *.
  set (r1 := with_players r _) in *.
  pose proof (getOpponent_other_seat _ _ _ _ _ _ Ho Hp) as Hij.
  pose proof (getOpponent_lookup _ _ _ _ Ho) as Hj.
  assert (Hp1 : getPlayer r1 socket = Some (i, p'))
    by (by eapply getPlayer_insert).
  assert (Hj1 : players r1 !! j = Some opponent)
    by (simpl; by rewrite list_lookup_insert_ne).
  assert (Hk : k ∈ hits p' ∪ misses p').
  { simpl. unfold hits'. destruct (truthy found); set_solver. }
  unfold resolve in *. simpl in Hans. injection Hans as <-. simpl.
  pose proof (allShipsSunk_spec (ships opponent) hits') as Hspec.
  destruct (allShipsSunk (ships opponent) hits') eqn:Hsunk; simpl.
  - exists r, r1, i, p', j, opponent.
    rewrite lookup_insert_eq. repeat (split; [done|]).
    assert (fleet_destroyed (ships opponent) hits') by by apply Hspec.
    split; [done|]. split; [done|]. done.
  - exists r, (with_turn r1 (Some (id opponent))), i, p', j, opponent.
    rewrite lookup_insert_eq. repeat (split; [done|]).
    assert (¬ fleet_destroyed (ships opponent) hits')
      by (intros Hd; by apply Hspec in Hd).
    split; [split; [by intros [[=] _]|done]|]. split; [done|]. done.
Qed.

Lemma attack_win_witness :
  answer (attack "a" "123456" (at_ 3 0 2) last_shot_pending)
  = ReplyAttack winning_payload
  ∧ ∃ r' i shooter j opponent,
      won_game !! "123456" = Some r'
      ∧ getPlayer r' "a" = Some (i, shooter)
      ∧ players r' !! j = Some opponent
      ∧ fleet_destroyed (ships opponent) (hits shooter).
Proof.
  split; [vm_compute; reflexivity|].
  destruct (attack_win "a" "123456" (at_ 3 0 2) last_shot_pending
              winning_payload)
    as (r & r' & i & shooter & j & opponent & Hr & Ho & Hr' & Hs & Hj & Hk
        & Ha & Hwin & Hnext & Hsunk); [vm_compute; reflexivity|].
  exists r', i, shooter, j, opponent.
  split; [exact Hr'|]. split; [exact Hs|]. split; [exact Hj|].
  apply Hwin. split; reflexivity.
Defined.

(** ** Targets off the board *)

(** A target that the bounds test catches is refused with nothing changed.
    This covers every integer, fraction and infinity below 0 or at least 5
    on some axis. *)
Lemma attack_off_board socket c t rooms r opponent pl :
  rooms !! c = Some r → turn r = Some socket →
  getOpponent r socket = Some opponent → getPlayer r socket = Some pl →
  off_board t = true →
  attack socket c t rooms = Outcome (ReplyError "Invalid target.") [] rooms.
Proof.
  intros Hr Hturn Ho Hp Hoff. unfold attack. rewrite Hr, Hturn, Ho, Hp.
  rewrite bool_decide_eq_true_2 by done. simpl.
  destruct opponent, pl. unfold off_board in Hoff. by rewrite Hoff.
Qed.

Lemma off_board_integers x y z :
  off_board (at_ x y z) = true
  ↔ ¬ (0 ≤ x < BOARD_SIZE ∧ 0 ≤ y < BOARD_SIZE ∧ 0 ≤ z < BOARD_SIZE).
Proof.
  unfold off_board, at_, BOARD_SIZE. simpl.
  rewrite !orb_true_iff, !Z.ltb_lt, !Z.leb_le. lia.
Qed.

(** C5: the attack at (0, 0, 2.5) in a started game passes the bounds test.
    It is answered as a miss, the key is added to the attacker's misses and
    the turn passes to the opponent. *)
Theorem attack_fractional_target_accepted :
  off_board fractional_target = false
  ∧ (turn <$> started_game !! "123456") = Some (Some "a")
  ∧ (misses <$> seat started_game "123456" "a") = Some ∅
  ∧ answer (attack "a" "123456" fractional_target started_game)
    = ReplyAttack (Payload "a" fractional_target Miss None (Some "b") None)
  ∧ (turn <$> registry (attack "a" "123456" fractional_target started_game)
               !! "123456") = Some (Some "b")
  ∧ (misses <$> seat (registry (attack "a" "123456" fractional_target
                                  started_game)) "123456" "a")
    = Some {[coordKey (JInt 0) (JInt 0) (JFrac 2 1)]}.
Proof. repeat split; vm_compute; reflexivity. Qed.

(** A fraction or NaN on the x or y axis passes the bounds test as well and
    ends the handler in an uncaught [TypeError] instead of an error reply. *)
Lemma attack_fractional_row_throws :
  off_board (Coords (JInt 0) (JFrac 2 1) (JInt 0)) = false
  ∧ answer (attack "a" "123456" (Coords (JInt 0) (JFrac 2 1) (JInt 0))
              started_game) = Uncaught
  ∧ off_board (Coords JNaN (JInt 0) (JInt 0)) = false
  ∧ answer (attack "a" "123456" (Coords JNaN (JInt 0) (JInt 0)) started_game)
    = Uncaught.
Proof. repeat split; vm_compute; reflexivity. Qed.

(** ** Attacks after the win *)

(** C1: in the match [battle] the shot at (3, 0, 2) wins for [a] and leaves
    the turn with [a].  The next attack of [a], at the fresh cell (4, 4, 4),
    is accepted: it is answered as a miss with [a] as winner and is added to
    the misses of [a]. *)
Theorem attack_after_win_accepted :
  answer (attack "a" "123456" (at_ 3 0 2) last_shot_pending)
  = ReplyAttack winning_payload
  ∧ (turn <$> won_game !! "123456") = Some (Some "a")
  ∧ bool_decide (cellKey (Cell 4 4 4)
                   ∈ default ∅ (misses <$> seat won_game "123456" "a"))
    = false
  ∧ answer (attack "a" "123456" (at_ 4 4 4) won_game)
    = ReplyAttack (Payload "a" (at_ 4 4 4) Miss None None (Some "a"))
  ∧ bool_decide (cellKey (Cell 4 4 4)
                   ∈ default ∅ (misses <$> seat (registry
                        (attack "a" "123456" (at_ 4 4 4) won_game))
                        "123456" "a"))
    = true.
Proof. repeat split; vm_compute; reflexivity. Qed.

(** Whoever does not hold the turn is refused. *)
Lemma attack_not_your_turn socket c t rooms holder :
  (turn <$> rooms !! c) = Some holder → holder ≠ Some socket →
  attack socket c t rooms = Outcome (ReplyError "Not your turn.") [] rooms.
Proof.
  intros Hr Hturn. unfold attack.
  destruct (rooms !! c) as [r|]; [|done]. injection Hr as ->.
  by rewrite bool_decide_eq_false_2.
Qed.

(** The loser is refused after the win, because the turn is not theirs. *)
Lemma attack_after_win_loser t :
  attack "b" "123456" t won_game
  = Outcome (ReplyError "Not your turn.") [] won_game.
Proof.
  apply attack_not_your_turn with (Some "a"); [vm_compute; reflexivity|done].
Qed.

(** ** Repeated targets *)

(** The attack that reaches the duplicate test with a key already among the
    attacker's hits or misses is refused, and nothing changes. *)
Lemma attack_already_targeted socket c t rooms r opponent i pl :
  rooms !! c = Some r → turn r = Some socket →
  getOpponent r socket = Some opponent → getPlayer r socket = Some (i, pl) →
  off_board t = false →
  coordKey (px t) (py t) (pz t) ∈ hits pl ∪ misses pl →
  attack socket c t rooms
  = Outcome (ReplyError "Coordinate already targeted.") [] rooms.
Proof.
  intros Hr Hturn Ho Hp Hon Hk. unfold attack. rewrite Hr, Hturn, Ho, Hp.
  rewrite bool_decide_eq_true_2 by done. simpl. destruct opponent.
  unfold off_board in Hon. rewrite Hon.
  apply elem_of_union in Hk as [Hk|Hk].
  - by rewrite (bool_decide_eq_true_2 _ Hk).
  - rewrite (bool_decide_eq_true_2 (_ ∈ misses pl) Hk).
    by rewrite orb_true_r.
Qed.

(** Whatever the state, an attack at a key the attacker's record already
    holds is answered with an error and changes nothing. *)
Lemma attack_recorded_refused socket c t rooms pl :
  seat rooms c socket = Some pl →
  coordKey (px t) (py t) (pz t) ∈ hits pl ∪ misses pl →
  ∃ msg, attack socket c t rooms = Outcome (ReplyError msg) [] rooms.
Proof.
  unfold seat. intros Hseat Hk.
  destruct (rooms !! c) as [r|] eqn:Hr; [|done]. simpl in Hseat.
  destruct (getPlayer r socket) as [[i pl']|] eqn:Hp; [|done].
  injection Hseat as ->.
  destruct (decide (turn r = Some socket)) as [Hturn|Hturn].
  - destruct (getOpponent r socket) as [opponent|] eqn:Ho.
    + destruct (off_board t) eqn:Hoff.
      * eexists. by eapply attack_off_board.
      * eexists. by eapply attack_already_targeted.
    + eexists. unfold attack. rewrite Hr, Hturn, Ho.
      by rewrite bool_decide_eq_true_2.
  - eexists. eapply attack_not_your_turn; [by rewrite Hr|done].
Qed.

(** ** The turn pointer *)

Lemma room_ok_same_seats r r' :
  players r' = players r → turn r' = turn r → room_ok r → room_ok r'.
Proof. unfold room_ok, turn_seated. by intros -> ->. Qed.

Lemma trimChatHistory_seats r :
  players (trimChatHistory r) = players r
  ∧ turn (trimChatHistory r) = turn r.
Proof. unfold trimChatHistory. by destruct (_ <=? _)%nat. Qed.

Lemma recordAndBroadcastChat_spec r c e rooms :
  ∃ r' out, recordAndBroadcastChat r c e rooms = (r', <[c := r']> rooms, out)
    ∧ players r' = players r ∧ turn r' = turn r.
Proof.
  unfold recordAndBroadcastChat. eexists _, _. split; [done|].
  by destruct (trimChatHistory_seats (with_chat r (chat r ++ [e]))) as [-> ->].
Qed.

Lemma emitSystemChat_spec r c msg now rooms :
  ∃ r' out,
    emitSystemChat r c msg now rooms
    = (r', if String.eqb msg "" then rooms else <[c := r']> rooms, out)
    ∧ players r' = players r ∧ turn r' = turn r.
Proof.
  unfold emitSystemChat. destruct (String.eqb msg "").
  - by eexists _, _.
  - destruct (recordAndBroadcastChat_spec r c
                (ChatEntry "system" "System" msg KindSystem now) rooms)
      as (r' & out & -> & ? & ?).
    by eexists _, _.
Qed.

Lemma registry_ok_insert c r rooms :
  room_ok r → registry_ok rooms → registry_ok (<[c := r]> rooms).
Proof. intros Hr Hrooms. by apply map_Forall_insert_2. Qed.

Lemma room_ok_update r i p p' :
  players r !! i = Some p → id p' = id p → room_ok r →
  room_ok (with_players r (<[i := p']> (players r))).
Proof.
  intros Hi Hid [Hlen Hturn]. split; simpl.
  - by rewrite length_insert.
  - destruct Hturn as [Hnone|(q & Hq & Hturn)]; [by left|]. right.
    apply list_elem_of_lookup in Hq as [j Hj].
    destruct (decide (i = j)) as [->|Hij].
    + exists p'. split.
      * apply list_elem_of_lookup. exists j.
        apply list_lookup_insert_eq. by eapply lookup_lt_Some.
      * simpl. congruence.
    + exists q. split; [|done].
      apply list_elem_of_lookup. exists j. simpl.
      by rewrite list_lookup_insert_ne.
Qed.

Lemma room_ok_with_turn r p :
  p ∈ players r → room_ok r → room_ok (with_turn r (Some (id p))).
Proof. intros Hp [Hlen _]. split; [done|]. right. by exists p. Qed.

Lemma placeShips_ok socket c submitted rooms :
  registry_ok rooms →
  registry_ok (registry (placeShips socket c submitted rooms)).
Proof.
  intros Hok. unfold placeShips.
  destruct (rooms !! c) as [r|] eqn:Hr; [|done].
  destruct (getPlayer r socket) as [[i p]|] eqn:Hp; [|done].
  destruct (validate submitted) as [l|]; [|done].
  apply getPlayer_lookup in Hp as [Hi Hid].
  set (p' := Player _ _ _ _ _ _ _).
  assert (Hr1 : room_ok (with_players r (<[i := p']> (players r))))
    by (apply room_ok_update with p; [done..|by apply (Hok c)]).
  set (r1 := with_players r _) in *.
  assert (Hr2 : room_ok (with_turn r1 (id <$> players r1 !! 0%nat))).
  { destruct (players r1 !! 0%nat) as [first|] eqn:Hfirst.
    - apply (room_ok_with_turn r1 first); [|done].
      apply list_elem_of_lookup. eauto.
    - split; [apply Hr1|by left]. }
  destruct (_ && _); simpl; by repeat apply registry_ok_insert.
Qed.

Lemma attack_ok socket c t rooms :
  registry_ok rooms → registry_ok (registry (attack socket c t rooms)).
Proof.
  intros Hok. unfold attack.
  destruct (rooms !! c) as [r|] eqn:Hr; [|done].
  case_bool_decide; [|done]. simpl.
  destruct (getOpponent r socket) as [[j opponent]|] eqn:Ho; [|done].
  destruct (getPlayer r socket) as [[i p]|] eqn:Hp; [|done].
  pose proof (getOpponent_other_seat _ _ _ _ _ _ Ho Hp) as Hij.
  apply getOpponent_lookup in Ho. apply getPlayer_lookup in Hp as [Hi Hid].
  destruct (_ || _); [done|]. destruct (_ || _); [done|].
  destruct (board_get _ _ _ _) as [found|]; [|done].
  assert (Hupd : ∀ p', id p' = id p →
    room_ok (with_players r (<[i := p']> (players r)))
    ∧ opponent ∈ players (with_players r (<[i := p']> (players r)))).
  { intros p' Hid'. split.
    - apply room_ok_update with p; [done..|by apply (Hok c)].
    - apply list_elem_of_lookup. exists j. simpl.
      by rewrite list_lookup_insert_ne. }
  destruct (truthy found).
  - set (p' := Player _ _ _ _ _ _ _).
    destruct (Hupd p' eq_refl) as [Hr1 Hopp].
    destruct (list_find _ _) as [[? s]|]; [|by apply registry_ok_insert].
    unfold resolve. simpl. apply registry_ok_insert; [|done].
    destruct (allShipsSunk _ _); simpl; [done|].
    by apply (room_ok_with_turn _ opponent).
  - set (p' := Player _ _ _ _ _ _ _).
    destruct (Hupd p' eq_refl) as [Hr1 Hopp].
    unfold resolve. simpl. apply registry_ok_insert; [|done].
    destruct (allShipsSunk _ _); simpl; [done|].
    by apply (room_ok_with_turn _ opponent).
Qed.

Section ServerInvariant.

Variable trim : string → string.
Variable collapse_whitespace : string → string.

Lemma createGame_ok socket c now rooms :
  registry_ok rooms → registry_ok (registry (createGame socket c now rooms)).
Proof.
  intros Hok. unfold createGame.
  destruct (emitSystemChat_spec (Room c [new_player socket] None [] ) c
              "Room created. Share the code to invite an opponent." now
              (<[c := Room c [new_player socket] None []]> rooms))
    as (r' & out & -> & Hp & Ht). simpl.
  assert (room_ok (Room c [new_player socket] None []))
    by (split; simpl; [lia|by left]).
  repeat apply registry_ok_insert; try done.
  by apply (room_ok_same_seats (Room c [new_player socket] None [])).
Qed.

Lemma joinGame_ok socket c now rooms :
  registry_ok rooms → registry_ok (registry (joinGame socket c now rooms)).
Proof.
  intros Hok. unfold joinGame.
  destruct (rooms !! c) as [r|] eqn:Hr; [|done].
  destruct (2 <=? length (players r))%nat eqn:Hfull; [done|].
  apply Nat.leb_gt in Hfull.
  set (r1 := with_players r _).
  destruct (emitSystemChat_spec r1 c "A commander joined the battle." now
              (<[c := r1]> rooms)) as (r' & out & -> & Hp & Ht). simpl.
  assert (room_ok r1).
  { destruct (Hok c r Hr) as [_ Hturn]. split; simpl.
    - rewrite length_app. simpl. lia.
    - destruct Hturn as [?|(q & Hq & ?)]; [by left|right].
      exists q. split; [|done]. apply elem_of_app. by left. }
  repeat apply registry_ok_insert; try done.
  by apply (room_ok_same_seats r1).
Qed.

Lemma setUsername_ok socket c newname now rooms :
  registry_ok rooms →
  registry_ok (registry (setUsername trim socket c newname now rooms)).
Proof.
  intros Hok. unfold setUsername.
  destruct (rooms !! c) as [r|] eqn:Hr; [|done].
  destruct (getPlayer r socket) as [[i p]|] eqn:Hp; [|done].
  apply getPlayer_lookup in Hp as [Hi Hid].
  set (username' := if String.eqb _ "" then None else Some _).
  set (p' := Player _ _ _ _ _ _ _).
  assert (Hr1 : room_ok (with_players r (<[i := p']> (players r))))
    by (apply room_ok_update with p; [done..|by apply (Hok c)]).
  set (r1 := with_players r _) in *.
  destruct username' as [n|]; [|by apply registry_ok_insert].
  case_bool_decide; [|by apply registry_ok_insert].
  match goal with |- context [emitSystemChat r1 c ?msg now ?rs] =>
    destruct (emitSystemChat_spec r1 c msg now rs)
      as (r' & out & -> & Hp' & Ht')
  end. simpl.
  destruct (String.eqb _ ""); repeat apply registry_ok_insert; try done.
  by apply (room_ok_same_seats r1).
Qed.

Lemma chatMessage_ok socket c raw now rooms :
  registry_ok rooms →
  registry_ok
    (registry (chatMessage trim collapse_whitespace socket c raw now rooms)).
Proof.
  intros Hok. unfold chatMessage.
  destruct (rooms !! c) as [r|] eqn:Hr; [|done].
  destruct (getPlayer r socket) as [[i p]|]; [|done].
  destruct (sanitizeChatMessage _ _ raw) as [value|]; [|done].
  match goal with |- context [recordAndBroadcastChat r c ?e rooms] =>
    destruct (recordAndBroadcastChat_spec r c e rooms)
      as (r' & out & -> & Hp' & Ht')
  end. simpl.
  apply registry_ok_insert; [|done].
  apply (room_ok_same_seats r); [done..|by apply (Hok c)].
Qed.

Lemma left_the_battle_nonempty leaver :
  String.eqb (leaver ++ " left the battle.") "" = false.
Proof. by destruct leaver. Qed.

(** The effect of [leave_room] on the registry: nothing for an unknown
    code, the room deleted when nobody else is seated, and otherwise the
    room with the others seated and the turn adjusted. *)
Lemma leave_room_spec socket now out rooms c :
  match rooms !! c with
  | None => leave_room trim socket now (out, rooms) c = (out, rooms)
  | Some r =>
      let remaining := filter (λ p, id p ≠ socket) (players r) in
      if decide (remaining = []) then
        ∃ out', leave_room trim socket now (out, rooms) c
                = (out', delete c rooms)
      else
        ∃ out' u, leave_room trim socket now (out, rooms) c
                  = (out', <[c := u]> rooms)
          ∧ players u = remaining ∧ turn u = turn_after_leave socket r
  end.
Proof.
  unfold leave_room, removePlayerFromRoom.
  destruct (rooms !! c) as [r|] eqn:Hr; [|done]. cbv zeta.
  set (remaining := filter (λ p, id p ≠ socket) (players r)).
  destruct (length remaining =? 0)%nat eqn:Hlen.
  - apply Nat.eqb_eq, nil_length_inv in Hlen.
    rewrite decide_True by done. by eexists.
  - apply Nat.eqb_neq in Hlen.
    rewrite decide_False by (by intros ->).
    match goal with |- context [emitSystemChat ?u1 c ?msg now ?rs] =>
      destruct (emitSystemChat_spec u1 c msg now rs)
        as (u2 & chat2 & -> & Hp2 & Ht2)
    end.
    rewrite left_the_battle_nonempty, !insert_insert_eq.
    eexists _, u2. split; [done|].
    rewrite Hp2, Ht2. unfold turn_after_leave. fold remaining.
    by destruct (bool_decide (turn r = Some socket)).
Qed.

Lemma getOpponent_remains socket r j o :
  (length (players r) ≤ 2)%nat → getOpponent r socket = Some (j, o) →
  filter (λ p, id p ≠ socket) (players r) ≠ [] →
  o ∈ filter (λ p, id p ≠ socket) (players r).
Proof.
  unfold getOpponent. intros Hlen Ho Hsome.
  destruct (players r) as [|pA [|pB [|? ?]]]; simpl in *; try done; [|lia].
  rewrite list_elem_of_filter.
  case_bool_decide as HA; injection Ho as <- <-.
  - split; [|set_solver].
    intros HB. apply Hsome.
    rewrite filter_cons_False by (by intros ?).
    rewrite filter_cons_False by (by intros ?). done.
  - split; [done|set_solver].
Qed.

Lemma room_ok_leave socket r u :
  room_ok r → players u = filter (λ p, id p ≠ socket) (players r) →
  turn u = turn_after_leave socket r → players u ≠ [] → room_ok u.
Proof.
  intros [Hlen Hturn] Hp Ht Hsome. split.
  - rewrite Hp. etrans; [apply length_filter|done].
  - unfold turn_seated. rewrite Ht, Hp. rewrite Hp in Hsome.
    unfold turn_after_leave. case_bool_decide as Hwas.
    + destruct (getOpponent r socket) as [[j o]|] eqn:Ho.
      * right. exists o. split; [|done]. by eapply getOpponent_remains.
      * destruct (filter _ _ !! 0%nat) as [first|] eqn:Hfirst; [|by left].
        destruct (nonempty _); [|by left].
        right. exists first. split; [|done].
        apply list_elem_of_lookup. eauto.
    + destruct Hturn as [?|(q & Hq & Hturn)]; [by left|right].
      exists q. split; [|done]. apply list_elem_of_filter.
      split; [|done]. intros Hid. apply Hwas. congruence.
Qed.

Lemma leave_room_ok socket now acc c :
  registry_ok acc.2 → registry_ok (leave_room trim socket now acc c).2.
Proof.
  destruct acc as [out rooms]. intros Hok. simpl in Hok.
  pose proof (leave_room_spec socket now out rooms c) as Hspec.
  destruct (rooms !! c) as [r|] eqn:Hr; [|by rewrite Hspec].
  cbv zeta in Hspec. case_decide as Hrem.
  - destruct Hspec as (out' & ->). simpl. by apply map_Forall_delete.
  - destruct Hspec as (out' & u & -> & Hp & Ht). simpl.
    apply registry_ok_insert; [|done].
    apply (room_ok_leave socket r); [by apply (Hok c)|done..|congruence].
Qed.

Lemma disconnecting_ok socket joined now rooms :
  registry_ok rooms →
  registry_ok (registry (disconnecting trim socket joined now rooms)).
Proof.
  intros Hok. unfold disconnecting.
  generalize (filter (λ c, is_Some (rooms !! c)) joined). intros roomCodes.
  assert (Hfold : ∀ acc, registry_ok acc.2 →
            registry_ok (foldl (leave_room trim socket now) acc roomCodes).2).
  { induction roomCodes as [|c l IH]; intros acc Hacc; [done|].
    simpl. by apply IH, leave_room_ok. }
  specialize (Hfold ([], rooms) Hok).
  by destruct (foldl _ _ _).
Qed.

Lemma handle_ok e rooms :
  registry_ok rooms →
  registry_ok (registry (handle trim collapse_whitespace e rooms)).
Proof.
  intros Hok. unfold handle.
  destruct e;
    [ by apply createGame_ok | by apply joinGame_ok | by apply setUsername_ok
    | by apply placeShips_ok | by apply attack_ok | by apply chatMessage_ok
    | by apply disconnecting_ok ].
Qed.

Lemma reachable_ok rooms :
  reachable trim collapse_whitespace rooms → registry_ok rooms.
Proof.
  induction 1 as [|rooms e _ IH _].
  - apply map_Forall_empty.
  - by apply handle_ok.
Qed.

Lemma leave_room_other socket now out rooms c c' :
  c' ≠ c → (leave_room trim socket now (out, rooms) c').2 !! c = rooms !! c.
Proof.
  intros Hne. pose proof (leave_room_spec socket now out rooms c') as Hspec.
  destruct (rooms !! c') as [r|]; [|by rewrite Hspec].
  cbv zeta in Hspec. case_decide.
  - destruct Hspec as (out' & ->). simpl. by rewrite lookup_delete_ne.
  - destruct Hspec as (out' & u & -> & _). simpl. by rewrite lookup_insert_ne.
Qed.

Lemma leave_room_hands_over socket now out rooms c r opponent :
  rooms !! c = Some r → room_ok r → turn r = Some socket →
  opponent ∈ players r → id opponent ≠ socket →
  handed_over c opponent (leave_room trim socket now (out, rooms) c).2.
Proof.
  intros Hr [Hlen Hseated] Hturn Hopp Hid.
  destruct Hseated as [?|(holder & Hholder & Hturn')]; [congruence|].
  assert (id holder = socket) by congruence.
  assert (Hrem : filter (λ p, id p ≠ socket) (players r) = [opponent]
                 ∧ ∃ j, getOpponent r socket = Some (j, opponent)).
  { unfold getOpponent.
    destruct (players r) as [|a [|b [|? ?]]]; simpl in *;
      [by apply elem_of_nil in Hopp| | |lia].
    { apply list_elem_of_singleton in Hopp, Hholder. congruence. }
    rewrite !elem_of_cons in Hopp, Hholder.
    destruct Hopp as [->|[->|[]%elem_of_nil]],
             Hholder as [->|[->|[]%elem_of_nil]]; try congruence.
    - rewrite filter_cons_True by done.
      rewrite filter_cons_False by (by intros ?).
      rewrite bool_decide_eq_false_2 by done. eauto.
    - rewrite filter_cons_False by (by intros ?).
      rewrite filter_cons_True by done.
      rewrite bool_decide_eq_true_2 by done. eauto. }
  destruct Hrem as [Hrem [j Ho]].
  pose proof (leave_room_spec socket now out rooms c) as Hspec.
  rewrite Hr in Hspec. cbv zeta in Hspec. rewrite Hrem in Hspec.
  rewrite decide_False in Hspec by done.
  destruct Hspec as (out' & u & -> & Hp & Ht). simpl.
  exists u. rewrite lookup_insert_eq. split; [done|]. split; [done|].
  rewrite Ht. unfold turn_after_leave.
  by rewrite bool_decide_eq_true_2, Ho.
Qed.

Lemma leave_room_handed_over socket now out rooms c c' opponent :
  id opponent ≠ socket → handed_over c opponent rooms →
  handed_over c opponent (leave_room trim socket now (out, rooms) c').2.
Proof.
  intros Hid (r' & Hr' & Hp' & Ht').
  destruct (decide (c' = c)) as [->|Hne].
  - pose proof (leave_room_spec socket now out rooms c) as Hspec.
    rewrite Hr' in Hspec. cbv zeta in Hspec. rewrite Hp' in Hspec.
    rewrite filter_cons_True in Hspec by done.
    rewrite decide_False in Hspec by done.
    destruct Hspec as (out' & u & -> & Hp & Ht). simpl.
    exists u. rewrite lookup_insert_eq. split; [done|]. split; [done|].
    rewrite Ht. unfold turn_after_leave.
    rewrite bool_decide_eq_false_2; [done|]. rewrite Ht'. congruence.
  - exists r'. by rewrite leave_room_other.
Qed.

Lemma disconnecting_hands_over socket joined now rooms c r opponent :
  rooms !! c = Some r → room_ok r → c ∈ joined → turn r = Some socket →
  opponent ∈ players r → id opponent ≠ socket →
  handed_over c opponent
    (registry (disconnecting trim socket joined now rooms)).
Proof.
  intros Hr Hok Hjoined Hturn Hopp Hid. unfold disconnecting.
  assert (Hin : c ∈ filter (λ c, is_Some (rooms !! c)) joined)
    by (apply list_elem_of_filter; split; [by rewrite Hr|done]).
  revert Hin. generalize (filter (λ c, is_Some (rooms !! c)) joined).
  intros roomCodes Hin.
  assert (Hfold : ∀ acc,
            handed_over c opponent acc.2
            ∨ (acc.2 !! c = Some r ∧ c ∈ roomCodes) →
            handed_over c opponent
              (foldl (leave_room trim socket now) acc roomCodes).2).
  { clear Hin. induction roomCodes as [|c' l IH]; intros [out rs] Hacc.
    - destruct Hacc as [?|[_ ?%elem_of_nil]]; done.
    - cbn [foldl]. apply IH. destruct Hacc as [Hdone|[Hr' Hin]].
      + left. by apply leave_room_handed_over.
      + simpl in Hr'. destruct (decide (c' = c)) as [->|Hne].
        * left. by apply leave_room_hands_over with r.
        * right. split; [by rewrite leave_room_other|].
          apply elem_of_cons in Hin as [?|?]; [congruence|done]. }
  specialize (Hfold ([], rooms)).
  destruct (foldl _ _ _) as [out rooms']. simpl in *. apply Hfold.
  right. done.
Qed.

(** C7: in every registry the server can reach, the turn of every room is
    absent or the identity of a player seated in that room; and when the
    holder of the turn disconnects from a room in which an opponent is
    seated, the room is left to the opponent with the turn. *)
Theorem turn_always_seated rooms :
  reachable trim collapse_whitespace rooms →
  (∀ c r, rooms !! c = Some r → turn_seated r)
  ∧ (∀ socket joined now c r opponent,
       rooms !! c = Some r → c ∈ joined → turn r = Some socket →
       opponent ∈ players r → id opponent ≠ socket →
       ∃ r', registry (disconnecting trim socket joined now rooms) !! c
             = Some r'
         ∧ players r' = [opponent] ∧ turn r' = Some (id opponent)).
Proof.
  intros Hreach. apply reachable_ok in Hreach. split.
  - intros c r Hr. by destruct (Hreach c r Hr).
  - intros socket joined now c r opponent Hr Hjoined Hturn Hopp Hid.
    apply disconnecting_hands_over with r; try done. by apply (Hreach c).
Qed.

End ServerInvariant.

Lemma reachable_run trim collapse_whitespace es rooms :
  reachable trim collapse_whitespace rooms →
  run_enabled trim collapse_whitespace es rooms →
  reachable trim collapse_whitespace (run trim collapse_whitespace es rooms).
Proof.
  revert rooms. induction es as [|e es IH]; intros rooms Hreach Hen; [done|].
  destruct Hen as [He Hes]. apply IH; [|done]. by apply reachable_step.
Qed.

Lemma started_game_reachable : reachable as_is as_is started_game.
Proof.
  apply reachable_run; [apply reachable_start|].
  vm_compute. repeat split; reflexivity.
Defined.

Lemma reachable_attack trim collapse_whitespace socket c t rooms :
  reachable trim collapse_whitespace rooms →
  reachable trim collapse_whitespace (registry (attack socket c t rooms)).
Proof.
  intros Hreach.
  exact (reachable_step trim collapse_whitespace rooms (Attack socket c t)
           Hreach I).
Qed.

(** The registries of the examples are reachable. *)
Lemma first_shot_fired_reachable : reachable as_is as_is first_shot_fired.
Proof. apply reachable_attack, started_game_reachable. Qed.

Lemma won_game_reachable : reachable as_is as_is won_game.
Proof.
  apply reachable_attack.
  apply reachable_run; [exact started_game_reachable|].
  vm_compute. repeat split.
Qed.

Lemma turn_always_seated_witness :
  reachable as_is as_is started_game
  ∧ ∃ r opponent,
      started_game !! "123456" = Some r
      ∧ turn r = Some "a" ∧ opponent ∈ players r ∧ id opponent = "b"
      ∧ ∃ r', registry (disconnecting as_is "a" ["123456"] 9 started_game)
                !! "123456" = Some r'
          ∧ players r' = [opponent] ∧ turn r' = Some (id opponent).
Proof.
  split; [exact started_game_reachable|].
  eexists _, _. split; [vm_compute; reflexivity|].
  split; [reflexivity|].
  split; [apply list_elem_of_lookup_2 with 1%nat; reflexivity|].
  split; [reflexivity|].
  eapply (proj2 (turn_always_seated as_is as_is started_game
                   started_game_reachable) "a" ["123456"] 9%N "123456").
  - vm_compute; reflexivity.
  - apply list_elem_of_singleton. reflexivity.
  - reflexivity.
  - apply list_elem_of_lookup_2 with 1%nat. reflexivity.
  - vm_compute. intros [=].
Defined.

(** ** Shots stay recorded *)

Lemma grows_refl pl : grows pl pl.
Proof. by split; [|split]. Qed.

Lemma grows_trans pl1 pl2 pl3 : grows pl1 pl2 → grows pl2 pl3 → grows pl1 pl3.
Proof.
  intros (Hh & Hm & Hr) (Hh' & Hm' & Hr').
  split; [by etrans|]. split; [by etrans|auto].
Qed.

Lemma keeps_refl socket c rooms : keeps socket c rooms rooms.
Proof. intros pl Hpl. exists pl. split; [done|apply grows_refl]. Qed.

Lemma keeps_trans socket c rooms1 rooms2 rooms3 :
  keeps socket c rooms1 rooms2 → keeps socket c rooms2 rooms3 →
  keeps socket c rooms1 rooms3.
Proof.
  intros H12 H23 pl Hpl.
  destruct (H12 pl Hpl) as (pl2 & Hpl2 & Hg).
  destruct (H23 pl2 Hpl2) as (pl3 & Hpl3 & Hg').
  exists pl3. split; [done|]. by apply grows_trans with pl2.
Qed.

Lemma keeps_insert socket c c' r' rooms :
  (∀ r, c' = c → rooms !! c = Some r → room_keeps socket r r') →
  keeps socket c rooms (<[c' := r']> rooms).
Proof.
  intros Hroom pl. unfold seat.
  destruct (decide (c' = c)) as [->|Hne].
  - rewrite lookup_insert_eq.
    destruct (rooms !! c) as [r|] eqn:Hr; [|done]. simpl.
    destruct (getPlayer r socket) as [[i pl0]|] eqn:Hp; [|done].
    intros [= ->].
    destruct (Hroom r eq_refl eq_refl i pl Hp) as (i' & pl' & -> & ?).
    by exists pl'.
  - rewrite lookup_insert_ne by done. intros Hpl. by exists pl.
Qed.

Lemma room_keeps_same_players socket r r' :
  players r' = players r → room_keeps socket r r'.
Proof.
  intros Hp i pl Hpl. exists i, pl. unfold getPlayer in *. rewrite Hp.
  split; [done|apply grows_refl].
Qed.

Lemma room_keeps_trans socket r1 r2 r3 :
  room_keeps socket r1 r2 → room_keeps socket r2 r3 →
  room_keeps socket r1 r3.
Proof.
  intros H12 H23 i pl Hpl.
  destruct (H12 i pl Hpl) as (i2 & pl2 & Hpl2 & Hg).
  destruct (H23 i2 pl2 Hpl2) as (i3 & pl3 & Hpl3 & Hg').
  exists i3, pl3. split; [done|]. by apply grows_trans with pl2.
Qed.

Lemma room_keeps_update socket r i0 p0 p' :
  players r !! i0 = Some p0 → id p' = id p0 → grows p0 p' →
  room_keeps socket r (with_players r (<[i0 := p']> (players r))).
Proof.
  intros Hi0 Hid Hg i pl Hpl. unfold getPlayer in *. simpl.
  apply list_find_Some in Hpl as (Hi & Hsock & Hfirst).
  destruct (decide (i = i0)) as [->|Hne].
  - exists i0, p'. assert (pl = p0) as -> by congruence.
    split; [|done]. apply list_find_Some. split; [|split].
    + apply list_lookup_insert_eq. by eapply lookup_lt_Some.
    + congruence.
    + intros j q Hj Hlt. rewrite list_lookup_insert_ne in Hj by lia. eauto.
  - exists i, pl. split; [|apply grows_refl].
    apply list_find_Some. split; [|split].
    + by rewrite list_lookup_insert_ne.
    + done.
    + intros j q Hj Hlt. destruct (decide (j = i0)) as [->|Hj0].
      * rewrite list_lookup_insert_eq in Hj by (by eapply lookup_lt_Some).
        injection Hj as <-. rewrite Hid. eauto.
      * rewrite list_lookup_insert_ne in Hj by done. eauto.
Qed.

Lemma room_keeps_join socket r q :
  room_keeps socket r (with_players r (players r ++ [q])).
Proof.
  intros i pl Hpl. exists i, pl. split; [|apply grows_refl].
  unfold getPlayer in *. simpl. apply list_find_app_Some. by left.
Qed.

Lemma list_find_filter {A} (P Q : A → Prop) `{∀ x, Decision (P x)}
    `{∀ x, Decision (Q x)} (l : list A) i x :
  (∀ y, P y → Q y) → list_find P l = Some (i, x) →
  ∃ i', list_find P (filter Q l) = Some (i', x).
Proof.
  intros HPQ. revert i. induction l as [|a l IH]; intros i; [done|].
  cbn [list_find]. destruct (decide (P a)) as [Ha|Ha].
  - intros [= <- <-]. rewrite filter_cons_True by auto.
    exists 0%nat. cbn [list_find]. by rewrite decide_True.
  - destruct (list_find P l) as [[j y]|] eqn:Hl; [|done].
    intros [= <- <-]. destruct (IH j eq_refl) as [i' Hi'].
    destruct (decide (Q a)).
    + rewrite filter_cons_True by done. exists (S i').
      cbn [list_find]. rewrite decide_False by done. by rewrite Hi'.
    + rewrite filter_cons_False by done. eauto.
Qed.

Lemma room_keeps_leave socket socket' r r' :
  socket' ≠ socket →
  players r' = filter (λ p, id p ≠ socket') (players r) →
  room_keeps socket r r'.
Proof.
  intros Hne Hp i pl Hpl. unfold getPlayer in *. rewrite Hp.
  destruct (list_find_filter (λ p, id p = socket) (λ p, id p ≠ socket')
              (players r) i pl) as [i' Hi']; [congruence|done|].
  exists i', pl. split; [done|apply grows_refl].
Qed.

Lemma placeShips_keeps who c socket c' submitted rooms :
  keeps who c rooms (registry (placeShips socket c' submitted rooms)).
Proof.
  unfold placeShips.
  destruct (rooms !! c') as [r|] eqn:Hr; [|apply keeps_refl].
  destruct (getPlayer r socket) as [[i p]|] eqn:Hp; [|apply keeps_refl].
  destruct (validate submitted) as [l|]; [|apply keeps_refl].
  apply getPlayer_lookup in Hp as [Hi Hid].
  set (p' := Player _ _ _ _ _ _ _).
  assert (Hr1 : room_keeps who r (with_players r (<[i := p']> (players r))))
    by (apply room_keeps_update with p; [done..|by split; [|split]]).
  set (r1 := with_players r _) in *.
  destruct (_ && _); simpl.
  - eapply keeps_trans; apply keeps_insert.
    + intros r0 -> Hr0. by assert (r0 = r) as -> by congruence.
    + intros r0 -> Hr0. rewrite lookup_insert_eq in Hr0. injection Hr0 as <-.
      by apply room_keeps_same_players.
  - apply keeps_insert. intros r0 -> Hr0.
    by assert (r0 = r) as -> by congruence.
Qed.

Lemma attack_keeps who c socket c' t rooms :
  keeps who c rooms (registry (attack socket c' t rooms)).
Proof.
  unfold attack.
  destruct (rooms !! c') as [r|] eqn:Hr; [|apply keeps_refl].
  case_bool_decide; [|apply keeps_refl]. simpl.
  destruct (getOpponent r socket) as [[j opponent]|]; [|apply keeps_refl].
  destruct (getPlayer r socket) as [[i p]|] eqn:Hp; [|apply keeps_refl].
  apply getPlayer_lookup in Hp as [Hi Hid].
  destruct (_ || _); [apply keeps_refl|].
  destruct (_ || _); [apply keeps_refl|].
  destruct (board_get _ _ _ _) as [found|]; [|apply keeps_refl].
  assert (Hupd : ∀ p' t', id p' = id p → grows p p' →
    keeps who c rooms
      (<[c' := with_turn (with_players r (<[i := p']> (players r))) t']>
         rooms)
    ∧ keeps who c rooms
        (<[c' := with_players r (<[i := p']> (players r))]> rooms)).
  { intros p' t' Hid' Hg.
    assert (room_keeps who r (with_players r (<[i := p']> (players r))))
      by (by apply room_keeps_update with p).
    split; apply keeps_insert; intros r0 -> Hr0;
      by assert (r0 = r) as -> by congruence. }
  destruct (truthy found).
  - set (p' := Player _ _ _ _ _ _ _).
    destruct (Hupd p' (Some (id opponent)) eq_refl) as [Ht Hs];
      [by split; [apply union_subseteq_r|split]|].
    destruct (list_find _ _) as [[? s]|]; [|done].
    unfold resolve. simpl. by destruct (allShipsSunk _ _).
  - set (p' := Player _ _ _ _ _ _ _).
    destruct (Hupd p' (Some (id opponent)) eq_refl) as [Ht Hs];
      [by split; [|split; [apply union_subseteq_r|]]|].
    unfold resolve. simpl. by destruct (allShipsSunk _ _).
Qed.

Section ServerKeeps.

Variable trim : string → string.
Variable collapse_whitespace : string → string.

Lemma createGame_keeps who c socket c' now rooms :
  rooms !! c' = None →
  keeps who c rooms (registry (createGame socket c' now rooms)).
Proof.
  intros Hfresh. unfold createGame.
  destruct (emitSystemChat_spec (Room c' [new_player socket] None [] ) c'
              "Room created. Share the code to invite an opponent." now
              (<[c' := Room c' [new_player socket] None []]> rooms))
    as (r' & out & -> & Hp & Ht). simpl.
  eapply keeps_trans; apply keeps_insert.
  - intros r0 -> Hr0. congruence.
  - intros r0 -> Hr0. rewrite lookup_insert_eq in Hr0. injection Hr0 as <-.
    by apply room_keeps_same_players.
Qed.

Lemma joinGame_keeps who c socket c' now rooms :
  keeps who c rooms (registry (joinGame socket c' now rooms)).
Proof.
  unfold joinGame.
  destruct (rooms !! c') as [r|] eqn:Hr; [|apply keeps_refl].
  destruct (2 <=? length (players r))%nat; [apply keeps_refl|].
  set (r1 := with_players r _).
  destruct (emitSystemChat_spec r1 c' "A commander joined the battle." now
              (<[c' := r1]> rooms)) as (r' & out & -> & Hp & Ht). simpl.
  eapply keeps_trans; apply keeps_insert.
  - intros r0 -> Hr0. assert (r0 = r) as -> by congruence.
    apply room_keeps_join.
  - intros r0 -> Hr0. rewrite lookup_insert_eq in Hr0. injection Hr0 as <-.
    by apply room_keeps_same_players.
Qed.

Lemma setUsername_keeps who c socket c' newname now rooms :
  keeps who c rooms (registry (setUsername trim socket c' newname now rooms)).
Proof.
  unfold setUsername.
  destruct (rooms !! c') as [r|] eqn:Hr; [|apply keeps_refl].
  destruct (getPlayer r socket) as [[i p]|] eqn:Hp; [|apply keeps_refl].
  apply getPlayer_lookup in Hp as [Hi Hid].
  set (username' := if String.eqb _ "" then None else Some _).
  set (p' := Player _ _ _ _ _ _ _).
  assert (Hr1 : room_keeps who r (with_players r (<[i := p']> (players r))))
    by (apply room_keeps_update with p; [done..|by split; [|split]]).
  set (r1 := with_players r _) in *.
  assert (H1 : keeps who c rooms (<[c' := r1]> rooms)).
  { apply keeps_insert. intros r0 -> Hr0.
    by assert (r0 = r) as -> by congruence. }
  destruct username' as [n|]; [|done].
  case_bool_decide; [|done].
  match goal with |- context [emitSystemChat r1 c' ?msg now ?rs] =>
    destruct (emitSystemChat_spec r1 c' msg now rs)
      as (r' & out & -> & Hp' & Ht')
  end. simpl.
  destruct (String.eqb _ ""); [done|].
  eapply keeps_trans; [exact H1|]. apply keeps_insert.
  intros r0 -> Hr0. rewrite lookup_insert_eq in Hr0. injection Hr0 as <-.
  by apply room_keeps_same_players.
Qed.

Lemma chatMessage_keeps who c socket c' raw now rooms :
  keeps who c rooms
    (registry (chatMessage trim collapse_whitespace socket c' raw now rooms)).
Proof.
  unfold chatMessage.
  destruct (rooms !! c') as [r|] eqn:Hr; [|apply keeps_refl].
  destruct (getPlayer r socket) as [[i p]|]; [|apply keeps_refl].
  destruct (sanitizeChatMessage _ _ raw) as [value|]; [|apply keeps_refl].
  match goal with |- context [recordAndBroadcastChat r c' ?e rooms] =>
    destruct (recordAndBroadcastChat_spec r c' e rooms)
      as (r' & out & -> & Hp' & Ht')
  end. simpl.
  apply keeps_insert. intros r0 -> Hr0. assert (r0 = r) as -> by congruence.
  by apply room_keeps_same_players.
Qed.

Lemma leave_room_keeps who c socket now out rooms c' :
  socket ≠ who →
  keeps who c rooms (leave_room trim socket now (out, rooms) c').2.
Proof.
  intros Hne.
  pose proof (leave_room_spec trim socket now out rooms c') as Hspec.
  destruct (rooms !! c') as [r|] eqn:Hr; [|rewrite Hspec; apply keeps_refl].
  cbv zeta in Hspec. case_decide as Hrem.
  - destruct Hspec as (out' & ->). simpl. intros pl Hpl. exists pl.
    split; [|apply grows_refl]. unfold seat in *.
    destruct (decide (c' = c)) as [->|Hc]; [|by rewrite lookup_delete_ne].
    exfalso. rewrite Hr in Hpl. simpl in Hpl.
    destruct (getPlayer r who) as [[i pl0]|] eqn:Hp; [|done].
    apply getPlayer_lookup in Hp as [Hi Hid].
    assert (Hin : pl0 ∈ filter (λ p, id p ≠ socket) (players r)).
    { apply list_elem_of_filter. split; [congruence|].
      apply list_elem_of_lookup. eauto. }
    rewrite Hrem in Hin. by apply elem_of_nil in Hin.
  - destruct Hspec as (out' & u & -> & Hp & Ht). simpl.
    apply keeps_insert. intros r0 -> Hr0. assert (r0 = r) as -> by congruence.
    by apply room_keeps_leave with socket.
Qed.

Lemma disconnecting_keeps who c socket joined now rooms :
  socket ≠ who →
  keeps who c rooms (registry (disconnecting trim socket joined now rooms)).
Proof.
  intros Hne. unfold disconnecting.
  generalize (filter (λ c, is_Some (rooms !! c)) joined). intros roomCodes.
  assert (Hfold : ∀ acc, keeps who c rooms acc.2 →
            keeps who c rooms
              (foldl (leave_room trim socket now) acc roomCodes).2).
  { induction roomCodes as [|c' l IH]; intros [out rs] Hacc; [done|].
    cbn [foldl]. apply IH. eapply keeps_trans; [exact Hacc|].
    by apply leave_room_keeps. }
  specialize (Hfold ([], rooms) (keeps_refl _ _ _)).
  by destruct (foldl _ _ _).
Qed.

Lemma handle_keeps who c e rooms :
  enabled e rooms → stays who e →
  keeps who c rooms (registry (handle trim collapse_whitespace e rooms)).
Proof.
  intros Hen Hstay. unfold handle.
  destruct e;
    [ by apply createGame_keeps | by apply joinGame_keeps
    | by apply setUsername_keeps | by apply placeShips_keeps
    | by apply attack_keeps | by apply chatMessage_keeps
    | by apply disconnecting_keeps ].
Qed.

Lemma run_keeps who c es rooms :
  run_enabled trim collapse_whitespace es rooms → Forall (stays who) es →
  keeps who c rooms (run trim collapse_whitespace es rooms).
Proof.
  revert rooms. induction es as [|e es IH]; intros rooms Hen Hstay.
  - apply keeps_refl.
  - destruct Hen as [He Hes]. apply Forall_cons in Hstay as [Hs Hss].
    eapply keeps_trans; [by apply handle_keeps|]. by apply IH.
Qed.

End ServerKeeps.

(** An accepted attack records its key with the attacker. *)
Lemma attack_records socket c t rooms p :
  answer (attack socket c t rooms) = ReplyAttack p →
  ∃ pl, seat (registry (attack socket c t rooms)) c socket = Some pl
    ∧ coordKey (px t) (py t) (pz t) ∈ hits pl ∪ misses pl.
Proof.
  intros Hans.
  destruct (attack_accepted _ _ _ _ _ Hans)
    as (r & j & opponent & i & pl & found & res & Hr & Hturn & Ho & Hp & Hh
        & Hm & Hfound & Hattack & _).
  cbv zeta in Hattack. rewrite Hattack. clear Hattack Hans.
  set (k := coordKey (px t) (py t) (pz t)) in *.
  set (p' := Player _ _ _ _ _ _ _) in *.
  set (r1 := with_players r _) in *.
  assert (Hp1 : getPlayer r1 socket = Some (i, p'))
    by (by eapply getPlayer_insert).
  exists p'. split.
  - unfold resolve, seat. simpl. rewrite lookup_insert_eq. simpl.
    destruct (allShipsSunk _ _); simpl;
      [|rewrite getPlayer_with_turn]; by rewrite Hp1.
  - simpl. destruct (truthy found).
    + apply elem_of_union_l, elem_of_union_l. by apply elem_of_singleton.
    + apply elem_of_union_r, elem_of_union_l. by apply elem_of_singleton.
Qed.

(** C6: an attack that reaches the duplicate test with its key among the
    attacker's own hits or misses is refused as already targeted and changes
    nothing.  And once an attack at a target was accepted, hit or miss, then
    after any further events during which the attacker stays connected the
    key is still in the attacker's record and the same attack is answered
    with an error and changes nothing. *)
Theorem attack_same_cell_once trim collapse_whitespace socket c t rooms :
  (∀ r opponent i pl,
     rooms !! c = Some r → turn r = Some socket →
     getOpponent r socket = Some opponent →
     getPlayer r socket = Some (i, pl) → off_board t = false →
     coordKey (px t) (py t) (pz t) ∈ hits pl ∪ misses pl →
     attack socket c t rooms
     = Outcome (ReplyError "Coordinate already targeted.") [] rooms)
  ∧ (∀ p es,
       answer (attack socket c t rooms) = ReplyAttack p →
       run_enabled trim collapse_whitespace es
         (registry (attack socket c t rooms)) →
       Forall (stays socket) es →
       ∃ pl msg,
         seat (run trim collapse_whitespace es
                 (registry (attack socket c t rooms))) c socket = Some pl
         ∧ coordKey (px t) (py t) (pz t) ∈ hits pl ∪ misses pl
         ∧ attack socket c t
             (run trim collapse_whitespace es
                (registry (attack socket c t rooms)))
           = Outcome (ReplyError msg) []
               (run trim collapse_whitespace es
                  (registry (attack socket c t rooms)))).
Proof.
  split.
  - intros r opponent i pl. apply attack_already_targeted.
  - intros p es Hans Hen Hstay.
    destruct (attack_records _ _ _ _ _ Hans) as (pl1 & Hseat1 & Hk1).
    destruct (run_keeps trim collapse_whitespace socket c es _ Hen Hstay
                pl1 Hseat1) as (pl & Hseat & Hh & Hm & _).
    assert (Hk : coordKey (px t) (py t) (pz t) ∈ hits pl ∪ misses pl).
    { apply elem_of_union in Hk1 as [?|?];
        [apply elem_of_union_l|apply elem_of_union_r]; auto. }
    destruct (attack_recorded_refused socket c t _ pl Hseat Hk) as [msg Hmsg].
    by exists pl, msg.
Qed.

Lemma attack_same_cell_once_witness :
  answer (attack "a" "123456" (at_ 3 3 3) started_game)
  = ReplyAttack (Payload "a" (at_ 3 3 3) Hit (Some "Destroyer") (Some "b") None)
  ∧ (∃ pl, seat second_round "123456" "a" = Some pl
           ∧ cellKey (Cell 3 3 3) ∈ hits pl ∪ misses pl)
  ∧ attack "a" "123456" (at_ 3 3 3) second_round
    = Outcome (ReplyError "Coordinate already targeted.") [] second_round.
Proof.
  split; [vm_compute; reflexivity|]. split.
  - destruct (proj2 (attack_same_cell_once as_is as_is "a" "123456"
                       (at_ 3 3 3) started_game)
                (Payload "a" (at_ 3 3 3) Hit (Some "Destroyer") (Some "b") None)
                [Attack "b" "123456" (at_ 0 0 0)])
      as (pl & msg & Hseat & Hk & _).
    + vm_compute; reflexivity.
    + vm_compute. tauto.
    + repeat constructor.
    + exists pl. split; [exact Hseat|exact Hk].
  - eapply (proj1 (attack_same_cell_once as_is as_is "a" "123456"
                     (at_ 3 3 3) second_round)).
    + vm_compute; reflexivity.
    + reflexivity.
    + vm_compute; reflexivity.
    + vm_compute; reflexivity.
    + reflexivity.
    + match goal with |- ?P => apply (@bool_decide_unpack P _) end.
      vm_compute. exact I.
Defined.

(** ** Repeated placements *)

(** C2, as stated, fails: [a] is ready and the game is running with [b] to
    move, yet a second [placeShips] of [a] with another fleet is accepted,
    replaces the board and the ships of [a] and hands the turn to [a]. *)
Lemma placeShips_resubmission_accepted :
  (ready <$> seat first_shot_fired "123456" "a") = Some true
  ∧ (turn <$> first_shot_fired !! "123456") = Some (Some "b")
  ∧ answer (placeShips "a" "123456" (Some fleet2) first_shot_fired)
    = ReplySuccess
  ∧ (board <$> seat (registry (placeShips "a" "123456" (Some fleet2)
                                 first_shot_fired)) "123456" "a")
    ≠ (board <$> seat first_shot_fired "123456" "a")
  ∧ (ships <$> seat (registry (placeShips "a" "123456" (Some fleet2)
                                 first_shot_fired)) "123456" "a")
    ≠ (ships <$> seat first_shot_fired "123456" "a")
  ∧ (turn <$> registry (placeShips "a" "123456" (Some fleet2)
                          first_shot_fired) !! "123456")
    = Some (Some "a").
Proof.
  repeat split; try (vm_compute; reflexivity); vm_compute; intros [=].
Qed.

(** C2, amended: [placeShips] never reads the ready flag.  A submission is
    answered with success exactly when the sender holds a seat in the
    room, the fleet passes validation and the event carries an
    acknowledgement callback, for the first time or again.  The handler
    keeps every seat of the room; it never turns a ready flag from true to
    false and leaves identities, hits, misses and user names alone.  When
    the sender is seated and the fleet passes validation, the record of the
    sender gets the board and the ships of the validated layout and is
    ready, whether it was ready before or not; every other record, and
    every record when the sender is not seated or the fleet fails
    validation, stays as it was.  And a player who is ready stays ready
    through all further events for as long as the player stays
    connected. *)
Theorem placeShips_overwrites trim collapse_whitespace (callback : bool)
    socket c submitted rooms r :
  rooms !! c = Some r →
  (answer (on_placeShips callback socket c submitted rooms) = ReplySuccess
   ↔ callback = true
     ∧ (∃ i p, getPlayer r socket = Some (i, p))
     ∧ ∃ l, validate submitted = Return l)
  ∧ (∃ r', registry (on_placeShips callback socket c submitted rooms) !! c
           = Some r'
     ∧ length (players r') = length (players r)
     ∧ ∀ i p, players r !! i = Some p →
         ∃ p', players r' !! i = Some p'
           ∧ id p' = id p ∧ hits p' = hits p ∧ misses p' = misses p
           ∧ username p' = username p
           ∧ (ready p = true → ready p' = true)
           ∧ (∀ l, getPlayer r socket = Some (i, p) →
                   validate submitted = Return l →
                   board p' = layout_board l ∧ ships p' = sanitizedShips l
                   ∧ ready p' = true)
           ∧ (¬ (getPlayer r socket = Some (i, p)
                 ∧ ∃ l, validate submitted = Return l) → p' = p))
  ∧ (∀ who es p,
       seat rooms c who = Some p → ready p = true →
       run_enabled trim collapse_whitespace es rooms →
       Forall (stays who) es →
       ∃ p', seat (run trim collapse_whitespace es rooms) c who = Some p'
         ∧ ready p' = true).
Proof.
  intros Hr. split; [|split].
  - unfold on_placeShips. rewrite Hr.
    destruct (getPlayer r socket) as [[i0 p0]|] eqn:Hp.
    + destruct (validate submitted) as [l|reason].
      * destruct callback; cbn [negb].
        -- destruct (_ && _); simpl; split; eauto 10.
        -- simpl. split; [done|]. by intros [? _].
      * destruct callback; simpl; split; try done.
        -- by intros (_ & _ & ? & ?).
        -- by intros [? _].
    + destruct callback; simpl; split; try done.
      * by intros (_ & (? & ? & ?) & _).
      * by intros [? _].
  - unfold on_placeShips. rewrite Hr.
    assert (Hsame : ∃ r', rooms !! c = Some r'
      ∧ length (players r') = length (players r)
      ∧ ∀ i p, players r !! i = Some p →
          ∃ p', players r' !! i = Some p'
            ∧ id p' = id p ∧ hits p' = hits p ∧ misses p' = misses p
            ∧ username p' = username p ∧ (ready p = true → ready p' = true)
            ∧ p' = p).
    { exists r. split; [done|]. split; [done|]. intros i p Hi. by exists p. }
    destruct (getPlayer r socket) as [[i0 p0]|] eqn:Hp.
    2:{ destruct Hsame as (r' & ? & ? & Hall). exists r'.
        split; [done|]. split; [done|]. intros i p Hi.
        destruct (Hall i p Hi) as (p' & ? & ? & ? & ? & ? & ? & ?).
        exists p'. by repeat (split; [done|]). }
    destruct (validate submitted) as [l|reason].
    2:{ destruct Hsame as (r' & ? & ? & Hall). exists r'.
        split; [done|]. split; [done|]. intros i p Hi.
        destruct (Hall i p Hi) as (p' & ? & ? & ? & ? & ? & ? & ?).
        exists p'. repeat (split; [done|]). by intros _. }
    apply getPlayer_lookup in Hp as [Hi0 Hid0].
    set (p' := Player _ _ _ _ _ _ _).
    set (r1 := with_players r (<[i0 := p']> (players r))).
    assert (Hr1 : ∀ t, ∃ r', <[c := with_turn r1 t]> rooms !! c = Some r'
      ∧ length (players r') = length (players r)
      ∧ ∀ i p, players r !! i = Some p →
          ∃ q, players r' !! i = Some q
            ∧ id q = id p ∧ hits q = hits p ∧ misses q = misses p
            ∧ username q = username p ∧ (ready p = true → ready q = true)
            ∧ (∀ l', Some (i0, p0) = Some (i, p) → Return l = Return l' →
                 board q = layout_board l' ∧ ships q = sanitizedShips l'
                 ∧ ready q = true)
            ∧ (¬ (Some (i0, p0) = Some (i, p)
                  ∧ ∃ l', Return l = Return l') → q = p)).
    { intros t. eexists. split; [apply lookup_insert_eq|]. simpl.
      split; [apply length_insert|]. intros i p Hi.
      destruct (decide (i = i0)) as [->|Hne].
      - assert (p = p0) as -> by congruence.
        exists p'.
        split; [apply list_lookup_insert_eq; by eapply lookup_lt_Some|].
        repeat (split; [done|]). split; [by intros l' _ [= <-]|].
        intros Hnot. exfalso. apply Hnot. eauto.
      - exists p. rewrite list_lookup_insert_ne by done.
        repeat (split; [done|]). split; [|done].
        intros l' [= ? ?]. congruence. }
    assert (Hkept : ∃ r', <[c := r1]> rooms !! c = Some r'
      ∧ length (players r') = length (players r)
      ∧ ∀ i p, players r !! i = Some p →
          ∃ q, players r' !! i = Some q
            ∧ id q = id p ∧ hits q = hits p ∧ misses q = misses p
            ∧ username q = username p ∧ (ready p = true → ready q = true)
            ∧ (∀ l', Some (i0, p0) = Some (i, p) → Return l = Return l' →
                 board q = layout_board l' ∧ ships q = sanitizedShips l'
                 ∧ ready q = true)
            ∧ (¬ (Some (i0, p0) = Some (i, p)
                  ∧ ∃ l', Return l = Return l') → q = p)).
    { destruct (Hr1 (turn r)) as (r' & Hr' & Hrest). exists r'.
      split; [|done]. rewrite <- Hr'. by destruct r. }
    destruct callback; cbn [negb]; [|apply Hkept].
    destruct (_ && _); simpl; [|apply Hkept].
    rewrite insert_insert_eq. apply (Hr1 (id <$> players r1 !! 0%nat)).
  - intros who es p Hseat Hready Hen Hstay.
    destruct (run_keeps trim collapse_whitespace who c es rooms Hen Hstay
                p Hseat) as (p' & Hseat' & _ & _ & Hready').
    exists p'. split; [done|]. by apply Hready'.
Qed.

Lemma placeShips_overwrites_witness :
  ∃ r, first_shot_fired !! "123456" = Some r
    ∧ (ready <$> seat first_shot_fired "123456" "a") = Some true
    ∧ answer (on_placeShips true "a" "123456" (Some fleet2) first_shot_fired)
      = ReplySuccess
    ∧ (∃ r', registry (on_placeShips true "a" "123456" (Some fleet2)
                         first_shot_fired) !! "123456" = Some r'
         ∧ length (players r') = length (players r))
    ∧ ∃ p', seat (run as_is as_is [Attack "b" "123456" (at_ 0 0 0)]
                    first_shot_fired) "123456" "a" = Some p'
        ∧ ready p' = true.
Proof.
  assert (H : (r ← first_shot_fired !! "123456"; fst <$> getPlayer r "a")
              = Some 0%nat) by (vm_compute; reflexivity).
  destruct (first_shot_fired !! "123456") as [r|] eqn:Hr; [|discriminate H].
  simpl in H. destruct (getPlayer r "a") as [[i p]|] eqn:Hp; [|discriminate H].
  assert (Hv : match validate (Some fleet2) with
               | Return _ => true
               | Throw _ => false
               end = true) by (vm_compute; reflexivity).
  destruct (validate (Some fleet2)) as [l|] eqn:Hl; [|discriminate Hv].
  exists r. split; [reflexivity|]. split; [vm_compute; reflexivity|].
  destruct (placeShips_overwrites as_is as_is true "a" "123456" (Some fleet2)
              first_shot_fired r Hr)
    as (Hsuccess & (r' & Hr' & Hlen & _) & Hstays).
  split.
  { apply Hsuccess. split; [reflexivity|]. split.
    - exists i, p. exact Hp.
    - exists l. exact Hl. }
  split; [exists r'; split; [exact Hr'|exact Hlen]|].
  eapply (Hstays "a" [Attack "b" "123456" (at_ 0 0 0)]).
  - vm_compute. reflexivity.
  - reflexivity.
  - vm_compute. tauto.
  - repeat constructor.
Defined.

(** ** Boards as the validator builds them *)

Lemma array_get_replicate {A} n (v w : A) i :
  array_get (replicate n v) i = Some w → w = v.
Proof.
  destruct i as [k| | |]; simpl; try done.
  destruct (0 <=? k); [|done]. by intros [-> _]%lookup_replicate.
Qed.

Lemma createEmptyBoard_cube : cube createEmptyBoard.
Proof.
  unfold cube, createEmptyBoard. rewrite length_replicate. split; [done|].
  apply Forall_replicate. rewrite length_replicate. split; [done|].
  apply Forall_replicate. by rewrite length_replicate.
Qed.

Lemma board_get_replicate n i j k (w : option string) :
  board_get (replicate n (replicate n (replicate n None))) i j k = Some w →
  w = None.
Proof.
  unfold board_get. intros H.
  apply bind_Some in H as (plane & Hx & H).
  apply array_get_replicate in Hx as ->.
  apply bind_Some in H as (column & Hy & H).
  apply array_get_replicate in Hy as ->.
  injection H as <-.
  destruct (array_get (replicate n None) k) as [v|] eqn:Hz; [|done].
  by apply array_get_replicate in Hz as ->.
Qed.

Lemma createEmptyBoard_empty c S :
  cell_at createEmptyBoard c ≠ Some (Some S).
Proof.
  unfold cell_at, createEmptyBoard. by intros ?%board_get_replicate.
Qed.

Lemma array_get_index {A} (l : list A) (n : Z) :
  0 ≤ n → array_get l (JInt n) = l !! Z.to_nat n.
Proof. intros Hn. simpl. by rewrite (proj2 (Z.leb_le 0 n) Hn). Qed.

Lemma array_get_alter {A} (f : A → A) (l : list A) (n : Z) (i : jsnum) :
  0 ≤ n →
  array_get (alter f (Z.to_nat n) l) i
  = if decide (i = JInt n) then f <$> array_get l i else array_get l i.
Proof.
  intros Hn. destruct i as [k| | |]; try by rewrite decide_False.
  simpl. destruct (0 <=? k) eqn:Hk.
  - apply Z.leb_le in Hk. destruct (decide (JInt k = JInt n)) as [[= ->]|Hne].
    + by rewrite list_lookup_alter_eq.
    + rewrite list_lookup_alter_ne; [done|]. intros Heq. apply Hne.
      f_equal. lia.
  - by destruct (decide _).
Qed.

Lemma array_get_insert {A} (v : A) (l : list A) (n : Z) (i : jsnum) :
  0 ≤ n → (Z.to_nat n < length l)%nat →
  array_get (<[Z.to_nat n := v]> l) i
  = if decide (i = JInt n) then Some v else array_get l i.
Proof.
  intros Hn Hlen. destruct i as [k| | |]; try by rewrite decide_False.
  simpl. destruct (0 <=? k) eqn:Hk.
  - apply Z.leb_le in Hk. destruct (decide (JInt k = JInt n)) as [[= ->]|Hne].
    + by rewrite list_lookup_insert_eq.
    + rewrite list_lookup_insert_ne; [done|]. intros Heq. apply Hne.
      f_equal. lia.
  - apply Z.leb_gt in Hk. rewrite decide_False; [done|]. intros [= ->]. lia.
Qed.

Lemma board_set_cube b x y z v : cube b → cube (board_set b x y z v).
Proof.
  intros [Hlen Hplanes]. unfold board_set. split.
  - by rewrite length_alter.
  - apply Forall_alter; [done|]. intros plane _.
    intros [Hl Hcols]. split; [by rewrite length_alter|].
    apply Forall_alter; [done|]. intros column _ Hc.
    by rewrite length_insert.
Qed.

(** Reading a board after [board[x][y][z] = v]. *)
Lemma board_get_set b x y z v i j k :
  cube b → on_board (Cell x y z) →
  board_get (board_set b x y z v) i j k
  = if decide ((i, j, k) = (JInt x, JInt y, JInt z)) then Some v
    else board_get b i j k.
Proof.
  intros [Hlen Hplanes] (Hx & Hy & Hz). simpl in Hx, Hy, Hz.
  unfold board_get, board_set.
  rewrite array_get_alter by lia.
  destruct (decide (i = JInt x)) as [->|Hi];
    [|rewrite decide_False by congruence; done].
  rewrite array_get_index by lia.
  destruct (lookup_lt_is_Some_2 b (Z.to_nat x)) as [plane Hplane]; [lia|].
  rewrite Hplane. simpl.
  pose proof (Forall_lookup_1 _ _ _ _ Hplanes Hplane) as [Hl Hcols].
  rewrite array_get_alter by lia.
  destruct (decide (j = JInt y)) as [->|Hj];
    [|rewrite decide_False by congruence; done].
  rewrite array_get_index by lia.
  destruct (lookup_lt_is_Some_2 plane (Z.to_nat y)) as [column Hcolumn];
    [lia|].
  rewrite Hcolumn. simpl.
  pose proof (Forall_lookup_1 _ _ _ _ Hcols Hcolumn) as Hc. simpl in Hc.
  rewrite array_get_insert by lia.
  destruct (decide (k = JInt z)) as [->|Hk];
    [by rewrite decide_True|by rewrite decide_False by congruence].
Qed.

Lemma cell_at_board_set b c v c' :
  cube b → on_board c →
  cell_at (board_set b (cx c) (cy c) (cz c) v) c'
  = if decide (c' = c) then Some v else cell_at b c'.
Proof.
  intros Hb Hc. unfold cell_at. destruct c as [x y z], c' as [x' y' z'].
  simpl. rewrite board_get_set by done.
  destruct (decide (Cell x' y' z' = Cell x y z)) as [[= -> -> ->]|Hne].
  - by rewrite decide_True.
  - rewrite decide_False; [done|]. intros [= -> -> ->]. done.
Qed.

(** ** The checks on one ship *)

Lemma whole_on_board_to_cell c : whole_on_board c → on_board (to_cell c).
Proof. by intros (x & y & z & -> & ?). Qed.

Lemma to_cell_inj c c' :
  whole_on_board c → whole_on_board c' → to_cell c = to_cell c' → c = c'.
Proof.
  intros (x & y & z & -> & _) (x' & y' & z' & -> & _). unfold to_cell.
  simpl. by intros [= -> -> ->].
Qed.

Lemma cellKey_inj c c' : cellKey c = cellKey c' → c = c'.
Proof.
  destruct c, c'. unfold cellKey, coordKey. simpl. by intros [= -> -> ->].
Qed.

Lemma normalize_cell_spec c :
  match normalize_cell c with
  | Return cl => whole_on_board c ∧ cl = to_cell c
  | Throw msg =>
      ¬ whole_on_board c
      ∧ (msg = "Ship coordinates must be whole numbers."
         ∨ msg = "Ship out of bounds")
  end.
Proof.
  unfold normalize_cell.
  destruct c as [x y z]. simpl.
  destruct (Number_isInteger x && (Number_isInteger y
              && (Number_isInteger z && true))) eqn:Hint; simpl.
  - destruct x as [x| | |], y as [y| | |], z as [z| | |]; try done.
    simpl. unfold BOARD_SIZE.
    destruct (_ || _) eqn:Hout.
    + split; [|by right]. intros (x' & y' & z' & [= -> -> ->] & Hon).
      unfold on_board, BOARD_SIZE in Hon. simpl in Hon.
      rewrite !orb_true_iff, !Z.ltb_lt, !Z.leb_le in Hout. lia.
    + split; [|done]. exists x, y, z. split; [done|].
      unfold on_board, BOARD_SIZE. simpl.
      rewrite !orb_false_iff, !Z.ltb_ge, !Z.leb_gt in Hout. lia.
  - split; [|by left]. intros (x' & y' & z' & [= -> -> ->] & _). done.
Qed.

Lemma map_throw_normalize_spec cs :
  match map_throw normalize_cell cs with
  | Return cls => Forall whole_on_board cs ∧ cls = to_cell <$> cs
  | Throw msg =>
      ¬ Forall whole_on_board cs
      ∧ (msg = "Ship coordinates must be whole numbers."
         ∨ msg = "Ship out of bounds")
  end.
Proof.
  induction cs as [|c cs IH]; simpl; [done|].
  pose proof (normalize_cell_spec c) as Hc.
  destruct (normalize_cell c) as [cl|msg]; simpl.
  - destruct Hc as [Hc ->].
    destruct (map_throw normalize_cell cs) as [cls|msg]; simpl.
    + destruct IH as [IH ->]. split; [by constructor|done].
    + destruct IH as [IH Hmsg]. split; [|done].
      by intros [_ ?]%Forall_cons.
  - destruct Hc as [Hc Hmsg]. split; [|done]. by intros [? _]%Forall_cons.
Qed.

Lemma distinct_values_constant a cs :
  (distinct_values a cs ≤ 1)%nat ↔ constant_on a cs.
Proof.
  unfold distinct_values, constant_on.
  set (X := list_to_set (coordinate a <$> cs) : gset Z).
  assert (Hin : ∀ c, c ∈ cs → coordinate a c ∈ X).
  { intros c Hc. apply elem_of_list_to_set, list_elem_of_fmap. eauto. }
  split.
  - intros Hsize c c' Hc Hc'.
    destruct (size X) as [|[|n]] eqn:HX; [| |lia].
    + apply size_empty_inv in HX. specialize (Hin c Hc).
      apply HX in Hin. by apply not_elem_of_empty in Hin.
    + apply (size_singleton_inv X); auto.
  - intros Hconst. destruct (set_choose_or_empty X) as [[v Hv]|Hempty].
    + assert (X ≡ {[v]}) as ->; [|by rewrite size_singleton].
      intros w. rewrite elem_of_singleton. split; [|by intros ->].
      intros Hw. apply elem_of_list_to_set, list_elem_of_fmap in Hv, Hw.
      destruct Hv as (c & -> & Hc), Hw as (c' & -> & Hc'). auto.
    + apply size_empty_iff in Hempty. lia.
Qed.

Lemma distinct_values_positive a cs :
  cs ≠ [] → (0 < distinct_values a cs)%nat.
Proof.
  intros Hcs. unfold distinct_values.
  destruct cs as [|c cs]; [done|].
  apply Nat.neq_0_lt_0, size_non_empty_iff.
  intros Hempty. apply (not_elem_of_empty (C := gset Z) (coordinate a c)).
  apply Hempty, elem_of_list_to_set. simpl. by left.
Qed.

Lemma has_gap_run m n : has_gap (run_from m n) = false.
Proof.
  revert m. induction n as [|n IH]; intros m; [done|].
  specialize (IH (m + 1)). destruct n as [|n]; [done|].
  cbn [run_from has_gap] in *. by rewrite Z.eqb_refl, IH.
Qed.

Lemma has_gap_false l a l' :
  has_gap l = false → l = a :: l' → l = run_from a (length l).
Proof.
  revert a l'. induction l as [|b l IH]; intros a l' Hgap [= -> ->].
  destruct l' as [|b l']; [done|].
  cbn [has_gap] in Hgap. apply orb_false_iff in Hgap as [Hb Hgap].
  apply negb_false_iff, Z.eqb_eq in Hb. subst b.
  cbn [length run_from]. f_equal. by apply (IH (a + 1) l').
Qed.

Lemma Sorted_run_from m n : Sorted Z.le (run_from m n).
Proof.
  revert m. induction n as [|n IH]; intros m; [constructor|].
  cbn [run_from]. constructor; [apply IH|].
  destruct n; constructor. lia.
Qed.

Lemma length_run_from m n : length (run_from m n) = n.
Proof. revert m. induction n; intros m; simpl; auto. Qed.

(** The sorted values have no gap exactly when the values are a run of
    consecutive integers in some order. *)
Lemma has_gap_sort vals :
  has_gap (sort_numeric vals) = false
  ↔ ∃ m, vals ≡ₚ run_from m (length vals).
Proof.
  unfold sort_numeric. split.
  - intros Hgap.
    pose proof (merge_sort_Permutation Z.le vals) as Hperm.
    destruct (merge_sort Z.le vals) as [|a l] eqn:Hsort.
    + apply Permutation_nil_l in Hperm as <-. by exists 0.
    + exists a. rewrite <- Hperm at 1.
      rewrite (has_gap_false _ a l Hgap eq_refl).
      by rewrite (Permutation_length Hperm).
  - intros [m Hperm].
    assert (merge_sort Z.le vals = run_from m (length vals)) as ->;
      [|apply has_gap_run].
    apply (Sorted_unique Z.le).
    + apply Sorted_merge_sort, _.
    + apply Sorted_run_from.
    + by rewrite merge_sort_Permutation.
Qed.

Lemma run_from_NoDup m n : NoDup (run_from m n).
Proof.
  assert (Hlow : ∀ n m v, v ∈ run_from m n → m ≤ v).
  { clear. induction n as [|n IH]; intros m v; simpl.
    - by intros ?%elem_of_nil.
    - intros [->|Hv%IH]%elem_of_cons; lia. }
  revert m. induction n as [|n IH]; intros m; simpl; constructor; [|done].
  intros Hm%Hlow. lia.
Qed.

(** Exactly one axis varies, in the words of the handler and of the
    specification. *)
Lemma varying_axes_spec cs :
  let varyingAxes :=
    filter (λ a, (1 < distinct_values a cs)%nat) axes in
  (∃ a, varyingAxes = [a] ∧ ¬ constant_on a cs
        ∧ ∀ a', a' ≠ a → constant_on a' cs)
  ∨ (length varyingAxes ≠ 1%nat
     ∧ ¬ ∃ a, ¬ constant_on a cs ∧ ∀ a', a' ≠ a → constant_on a' cs).
Proof.
  assert (Hvar : ∀ a, (1 < distinct_values a cs)%nat → ¬ constant_on a cs).
  { intros a. rewrite <- distinct_values_constant. lia. }
  assert (Hcon : ∀ a, ¬ (1 < distinct_values a cs)%nat → constant_on a cs).
  { intros a. rewrite <- distinct_values_constant. lia. }
  cbv zeta. unfold axes.
  rewrite !filter_cons, filter_nil.
  destruct (decide (1 < distinct_values AxisX cs)%nat) as [HX%Hvar|HX%Hcon],
           (decide (1 < distinct_values AxisY cs)%nat) as [HY%Hvar|HY%Hcon],
           (decide (1 < distinct_values AxisZ cs)%nat) as [HZ%Hvar|HZ%Hcon].
  - right. split; [done|]. intros ([] & _ & Hothers);
      [by apply HY, Hothers|by apply HX, Hothers|by apply HX, Hothers].
  - right. split; [done|]. intros ([] & _ & Hothers);
      [by apply HY, Hothers|by apply HX, Hothers|by apply HX, Hothers].
  - right. split; [done|]. intros ([] & _ & Hothers);
      [by apply HZ, Hothers|by apply HX, Hothers|by apply HX, Hothers].
  - left. exists AxisX. split; [done|]. split; [done|]. by intros [] Hne.
  - right. split; [done|]. intros ([] & _ & Hothers);
      [by apply HY, Hothers|by apply HZ, Hothers|by apply HY, Hothers].
  - left. exists AxisY. split; [done|]. split; [done|]. by intros [] Hne.
  - left. exists AxisZ. split; [done|]. split; [done|]. by intros [] Hne.
  - right. split; [done|]. by intros ([] & Hvaries & _).
Qed.

Lemma forEach_throw_unit {A} (f : () → A → thrown ()) (l : list A) :
  (∀ x, x ∈ l → f () x = Return ()) → forEach_throw f () l = Return ().
Proof.
  induction l as [|x l IH]; intros Hf; [done|]. simpl.
  rewrite (Hf x) by (by left). simpl. apply IH. intros y Hy.
  apply Hf. by right.
Qed.

(** The straight-line block accepts exactly the straight ships; the
    alignment test behind the contiguity loop never fails. *)
Lemma check_line_spec cs :
  (1 < length cs)%nat →
  match check_line cs with
  | Return _ => straight cs
  | Throw msg =>
      ¬ straight cs
      ∧ (msg = "Ships must be placed in a straight line."
         ∨ msg = "Ships must occupy consecutive cells.")
  end.
Proof.
  intros Hlen. unfold check_line. rewrite (proj2 (Nat.ltb_lt _ _) Hlen).
  destruct (varying_axes_spec cs) as [(a & -> & Hv & Ho)|[Hlen' Hnone]].
  - destruct (has_gap _) eqn:Hgap.
    + split; [|by right]. intros (a0 & Hv0 & Ho0 & Hrun).
      assert (a0 = a) as ->.
      { destruct (decide (a0 = a)) as [|Hne]; [done|].
        by destruct Hv0; apply Ho. }
      assert (has_gap (sort_numeric (coordinate a <$> cs)) = false)
        by (apply has_gap_sort; by rewrite length_fmap).
      congruence.
    + rewrite forEach_throw_unit.
      * exists a. split; [done|]. split; [done|].
        apply has_gap_sort in Hgap. by rewrite length_fmap in Hgap.
      * intros a' [Hne _]%list_elem_of_filter.
        assert (distinct_values a' cs = 1%nat) as ->; [|done].
        pose proof (proj2 (distinct_values_constant a' cs) (Ho a' Hne)).
        assert (cs ≠ []) as Hcs by (intros ->; simpl in Hlen; lia).
        pose proof (distinct_values_positive a' cs Hcs). lia.
  - assert (¬ straight cs).
    { intros (a & Hv & Ho & _). apply Hnone. eauto. }
    destruct (filter _ axes) as [|a [|? ?]];
      [split; [done|by left]| |split; [done|by left]].
    by destruct Hlen'.
Qed.

Lemma forEach_throw_cons {A S} (f : S → A → thrown S) s a l :
  forEach_throw f s (a :: l)
  = match f s a with
    | Return s' => forEach_throw f s' l
    | Throw msg => Throw msg
    end.
Proof. done. Qed.

(** Claiming the cells of one ship: it succeeds exactly when the cells are
    distinct and free, and then they are the new occupied keys and the
    cells of the board that hold the name of the ship. *)
Lemma claim_cells_spec shipname cs st :
  Forall on_board cs → cube (layout_board st) →
  match forEach_throw (claim_cell shipname) st cs with
  | Return st' =>
      NoDup cs ∧ (∀ c, c ∈ cs → cellKey c ∉ occupied st)
      ∧ cube (layout_board st')
      ∧ seenNames st' = seenNames st
      ∧ sanitizedShips st' = sanitizedShips st
      ∧ (∀ k, k ∈ occupied st'
              ↔ k ∈ occupied st ∨ ∃ c, c ∈ cs ∧ k = cellKey c)
      ∧ (∀ c', cell_at (layout_board st') c'
               = if decide (c' ∈ cs) then Some (Some shipname)
                 else cell_at (layout_board st) c')
  | Throw msg =>
      msg = "Ships cannot overlap"
      ∧ (¬ NoDup cs ∨ ∃ c, c ∈ cs ∧ cellKey c ∈ occupied st)
  end.
Proof.
  revert st. induction cs as [|c cs IH]; intros st Hon Hcube.
  - cbn [forEach_throw]. split; [constructor|].
    split; [by intros ? ?%elem_of_nil|].
    repeat (split; [done|]). split.
    + intros k. split; [by left|]. by intros [?|(? & ?%elem_of_nil & _)].
    + intros c'. rewrite decide_False; [done|]. by intros ?%elem_of_nil.
  - apply Forall_cons in Hon as [Hc Hon]. rewrite forEach_throw_cons.
    unfold claim_cell at 1. case_bool_decide as Hocc.
    + split; [done|]. right. exists c. split; [by left|done].
    + set (st1 := Layout _ _ _ _).
      specialize (IH st1 Hon (board_set_cube _ _ _ _ _ Hcube)).
      destruct (forEach_throw (claim_cell shipname) st1 cs) as [st'|msg].
      * destruct IH as (Hnd & Hfree & Hcube' & Hseen & Hships & Hocc' & Hat).
        simpl in Hfree, Hseen, Hships, Hocc', Hat.
        split.
        { constructor; [|done]. intros Hin. apply (Hfree c Hin).
          apply elem_of_union_l. by apply elem_of_singleton. }
        split.
        { intros c' [->|Hin]%elem_of_cons; [done|].
          intros Hc'. apply (Hfree c' Hin). by apply elem_of_union_r. }
        repeat (split; [done|]). split.
        { intros k. rewrite Hocc', elem_of_union, elem_of_singleton. split.
          - intros [[->|?]|(c' & Hin & ->)]; [right|by left|right].
            + exists c. split; [by left|done].
            + exists c'. split; [by right|done].
          - intros [?|(c' & [->|Hin]%elem_of_cons & ->)]; [by left; right|..].
            + by left; left.
            + right. by exists c'. }
        { intros c'. rewrite Hat, cell_at_board_set by done.
          destruct (decide (c' ∈ cs)) as [Hin|Hin].
          - rewrite decide_True; [done|]. by right.
          - destruct (decide (c' = c)) as [->|Hne].
            + rewrite decide_True; [done|]. by left.
            + rewrite decide_False; [done|].
              by intros [?|?]%elem_of_cons. }
      * destruct IH as [-> [Hnd|(c' & Hin & Hc')]]; (split; [done|]).
        { left. by intros [_ ?]%NoDup_cons. }
        simpl in Hc'. apply elem_of_union in Hc' as [Heq|Hc'].
        { left. apply elem_of_singleton, cellKey_inj in Heq as ->.
          by intros [? _]%NoDup_cons. }
        { right. exists c'. split; [by right|done]. }
Qed.

(** ** The clauses of a valid fleet *)

Lemma expectedShips_lookup n len :
  expectedShips !! n = Some len ↔ (n, len) ∈ SHIPS.
Proof.
  unfold expectedShips, SHIPS. cbn [foldl fst snd]. split.
  - rewrite !lookup_insert_Some, lookup_empty, !elem_of_cons.
    intros [[<- <-]|[_ [[<- <-]|[_ [[<- <-]|[_ [[<- <-]|[_ [[<- <-]
                                                               |[_ ?]]]]]]]]]];
      try done; auto 10.
  - rewrite !elem_of_cons.
    intros [[= -> ->]|[[= -> ->]|[[= -> ->]|[[= -> ->]|[[= -> ->]
                                                        |?%elem_of_nil]]]]];
      try done; by vm_compute.
Qed.

Lemma SHIPS_at_least_two n len : (n, len) ∈ SHIPS → (1 < len)%nat.
Proof.
  unfold SHIPS. rewrite !elem_of_cons.
  intros [[= _ ->]|[[= _ ->]|[[= _ ->]|[[= _ ->]|[[= _ ->]|?%elem_of_nil]]]]];
    try done; lia.
Qed.

Lemma catalog_names_NoDup : NoDup catalog_names.
Proof. apply (bool_decide_unpack _). by vm_compute. Qed.

Global Instance entry_inj : Inj (=) (=) entry.
Proof. intros [n cs] [n' cs']. unfold entry. simpl. by intros [= -> ->]. Qed.

Lemma accepted_empty : accepted [] empty_layout.
Proof.
  unfold accepted, empty_layout. simpl.
  split; [done|]. split.
  { intros n. split; [by intros ?%not_elem_of_empty|by intros ?%elem_of_nil]. }
  split; [constructor|]. split; [constructor|]. split.
  { intros k. split; [by intros ?%not_elem_of_empty|].
    by intros (? & ? & ?%elem_of_nil & _). }
  split; [by intros ? ? ? ? ? _ ? |].
  split; [apply createEmptyBoard_cube|].
  intros c S. split; [by intros ?%createEmptyBoard_empty|].
  by intros (? & ?%elem_of_nil & _).
Qed.

Lemma straight_NoDup cs : straight cs → NoDup cs.
Proof.
  intros (a & _ & _ & m & Hperm).
  apply (NoDup_fmap_1 (coordinate a)). rewrite Hperm. apply run_from_NoDup.
Qed.

(** The layout after one more accepted entry. *)
Lemma accepted_snoc fleet st n cs st' :
  accepted fleet st → n ∉ seenNames st → (n, length cs) ∈ SHIPS →
  Forall whole_on_board cs → straight (to_cell <$> cs) →
  (∀ c, c ∈ to_cell <$> cs → cellKey c ∉ occupied st) →
  cube (layout_board st') → seenNames st' = seenNames st →
  sanitizedShips st' = sanitizedShips st →
  (∀ k, k ∈ occupied st'
        ↔ k ∈ occupied st ∨ ∃ c, c ∈ to_cell <$> cs ∧ k = cellKey c) →
  (∀ c', cell_at (layout_board st') c'
         = if decide (c' ∈ to_cell <$> cs) then Some (Some n)
           else cell_at (layout_board st) c') →
  accepted (fleet ++ [(n, cs)])
    (Layout (layout_board st') (occupied st') ({[n]} ∪ seenNames st')
            (sanitizedShips st' ++ [Ship n (to_cell <$> cs)])).
Proof.
  intros (Hships & Hseen & Hnd & Hok & Hocc & Hapart & Hcube & Hboard)
         Hfresh Hcat Hwhole Hline Hfree Hcube' Hseen' Hships' Hocc' Hat.
  assert (Hclash : ∀ e c, e ∈ fleet → c ∈ e.2 → c ∈ cs → False).
  { intros e c He Hc Hcs. apply (Hfree (to_cell c)).
    - apply list_elem_of_fmap. eauto.
    - apply Hocc. eauto. }
  unfold accepted. simpl. split.
  { by rewrite Hships', Hships, fmap_app. }
  split.
  { intros n'. rewrite fmap_app, elem_of_app, elem_of_union, Hseen', Hseen.
    simpl. rewrite elem_of_singleton, list_elem_of_singleton. tauto. }
  split.
  { rewrite fmap_app. apply NoDup_app. split; [done|]. split.
    - intros n' Hn' Heq%list_elem_of_singleton. subst n'.
      by apply Hfresh, Hseen.
    - apply NoDup_singleton. }
  split.
  { apply Forall_app. split; [done|]. by apply Forall_singleton. }
  split.
  { intros k. rewrite Hocc', Hocc. split.
    - intros [(e & c & He & Hc & ->)|(c & Hc & ->)].
      + exists e, c. split; [apply elem_of_app; by left|done].
      + apply list_elem_of_fmap in Hc as (c0 & -> & Hc0).
        exists (n, cs), c0. split; [|done].
        apply elem_of_app. right. by apply list_elem_of_singleton.
    - intros (e & c & [He|He%list_elem_of_singleton]%elem_of_app & Hc & ->).
      + left. eauto.
      + subst e. right. exists (to_cell c). split; [|done].
        apply list_elem_of_fmap. eauto. }
  split.
  { intros i j e1 e2 c Hij Hi Hj Hc1 Hc2.
    apply lookup_app_Some in Hi as [Hi|[Hli Hi]],
                             Hj as [Hj|[Hlj Hj]].
    - by apply (Hapart i j e1 e2 c).
    - apply list_lookup_singleton_Some in Hj as [_ <-].
      apply (Hclash e1 c); [|done..]. apply list_elem_of_lookup. eauto.
    - apply list_lookup_singleton_Some in Hi as [_ <-].
      apply (Hclash e2 c); [|done..]. apply list_elem_of_lookup. eauto.
    - apply list_lookup_singleton_Some in Hi as [Hi _].
      apply list_lookup_singleton_Some in Hj as [Hj _]. lia. }
  split; [done|].
  intros c S. rewrite Hat. destruct (decide (c ∈ to_cell <$> cs)) as [Hin|Hin].
  - split.
    + intros [= <-]. exists (n, cs). split; [|done].
      apply elem_of_app. right. by apply list_elem_of_singleton.
    + intros (e & [He|He%list_elem_of_singleton]%elem_of_app & <- & Hc).
      * exfalso. apply (Hfree c Hin). apply Hocc.
        apply list_elem_of_fmap in Hc as (c0 & -> & Hc0). eauto.
      * by subst e.
  - rewrite Hboard. split.
    + intros (e & He & <- & Hc). exists e. split; [|done].
      apply elem_of_app. by left.
    + intros (e & [He|He%list_elem_of_singleton]%elem_of_app & <- & Hc).
      * eauto.
      * by subst e.
Qed.

Lemma names_of_entries fleet :
  payload_name <$> (entry <$> fleet) = Some <$> fleet.*1.
Proof. rewrite <- !list_fmap_compose. by apply list_fmap_ext. Qed.

(** A submission that has a ship of the catalog twice, or an entry without
    a catalog name, is no one-per-name submission. *)
Lemma not_one_per_name l s :
  s ∈ l →
  (payload_name s ∉ (Some <$> catalog_names)
   ∨ ∃ l1 l2, l = (l1 ++ s :: l2)%list
              ∧ payload_name s ∈ payload_name <$> l1) →
  ¬ holds OnePerName (Some l).
Proof.
  intros Hs Hbad (l' & [= <-] & Hperm). destruct Hbad as [Hout|Hdup].
  - apply Hout. rewrite <- Hperm. apply list_elem_of_fmap. eauto.
  - destruct Hdup as (l1 & l2 & -> & Hin).
    assert (Hnd : NoDup (payload_name <$> (l1 ++ s :: l2)%list)).
    { rewrite Hperm. apply (NoDup_fmap_2 _), catalog_names_NoDup. }
    rewrite fmap_app, fmap_cons in Hnd.
    apply NoDup_app in Hnd as (_ & Hdisj & _).
    apply (Hdisj _ Hin). by left.
Qed.

(** One step of the validator from an accepted prefix: either the next
    entry is accepted too, or the error names a clause that no submission
    with this prefix and this entry satisfies. *)
Lemma validate_ship_spec fleet st s :
  accepted fleet st →
  match validate_ship st s with
  | Return st' => ∃ e, s = entry e ∧ accepted (fleet ++ [e]) st'
  | Throw msg =>
      ∃ k, reasons k msg
        ∧ ∀ post, ¬ holds k (Some ((entry <$> fleet) ++ s :: post)%list)
  end.
Proof.
  intros Hacc.
  pose proof Hacc as (Hships & Hseen & Hnd & Hok & Hocc & Hapart & Hcube
                      & Hboard).
  assert (Hhere : ∀ post, s ∈ ((entry <$> fleet) ++ s :: post)%list).
  { intros post. apply elem_of_app. right. by left. }
  destruct s as [|n cs]; cbn [validate_ship].
  { exists OnePerName. split; [cbn; rewrite !elem_of_cons; auto 10|].
    intros post. apply (not_one_per_name _ Malformed); [done|]. left.
    by intros (? & [=] & _)%list_elem_of_fmap. }
  destruct (expectedShips !! n) as [[|len]|] eqn:Hexp.
  { apply expectedShips_lookup, SHIPS_at_least_two in Hexp. lia. }
  2:{ exists OnePerName. split; [cbn; rewrite !elem_of_cons; auto 10|].
      intros post. apply (not_one_per_name _ (Placement n cs)); [done|].
      left. intros (n' & [= <-] & Hn')%list_elem_of_fmap.
      apply list_elem_of_fmap in Hn' as ([n' len] & -> & Hn').
      apply expectedShips_lookup in Hn'. simpl in Hexp. congruence. }
  apply expectedShips_lookup in Hexp.
  case_bool_decide as Hdup.
  { exists OnePerName. split; [cbn; rewrite !elem_of_cons; auto 10|].
    intros post. apply (not_one_per_name _ (Placement n cs)); [done|].
    right. exists (entry <$> fleet), post. split; [done|].
    rewrite names_of_entries. apply list_elem_of_fmap. exists n.
    split; [done|]. by apply Hseen. }
  destruct (length cs =? S len)%nat eqn:Hlen; cbn [negb].
  2:{ apply Nat.eqb_neq in Hlen. exists CatalogLength. split.
      - exists n, (S len). done.
      - intros post Hh. apply Hlen. by eapply Hh. }
  apply Nat.eqb_eq in Hlen.
  pose proof (map_throw_normalize_spec cs) as Hnorm.
  destruct (map_throw normalize_cell cs) as [cls|msg]; cbn [mbind thrown_bind].
  2:{ destruct Hnorm as [Hnot Hmsg]. exists WholeOnBoard. split.
      - cbn. rewrite !elem_of_cons. tauto.
      - intros post Hh. apply Hnot, Forall_forall. intros c Hc.
        by eapply Hh. }
  destruct Hnorm as [Hwhole ->].
  assert (Hlong : (1 < length (to_cell <$> cs))%nat).
  { rewrite length_fmap, Hlen. by eapply SHIPS_at_least_two. }
  pose proof (check_line_spec _ Hlong) as Hline.
  destruct (check_line (to_cell <$> cs)) as [[]|msg]; cbn [mbind thrown_bind].
  2:{ destruct Hline as [Hnot Hmsg]. exists StraightLine. split.
      - cbn. rewrite !elem_of_cons. tauto.
      - intros post Hh. apply Hnot. eapply Hh; [done..|].
        by rewrite length_fmap in Hlong. }
  assert (Hon : Forall on_board (to_cell <$> cs)).
  { apply Forall_fmap. eapply Forall_impl; [exact Hwhole|].
    apply whole_on_board_to_cell. }
  pose proof (claim_cells_spec n _ st Hon Hcube) as Hclaim.
  destruct (forEach_throw (claim_cell n) st (to_cell <$> cs)) as [st'|msg];
    cbn [mbind thrown_bind].
  - destruct Hclaim as (Hndc & Hfree & Hcube' & Hseen' & Hships' & Hocc'
                        & Hat).
    exists (n, cs). split; [done|].
    apply (accepted_snoc fleet st n cs st'); try done. by rewrite Hlen.
  - destruct Hclaim as [-> [Hdupc|(c' & Hin & Hc')]].
    { by destruct Hdupc; apply straight_NoDup. }
    exists NoSharedCell. split; [done|]. intros post Hh.
    apply Hocc in Hc' as (e & c0 & He & Hc0 & Hkey).
    apply cellKey_inj in Hkey.
    apply list_elem_of_fmap in Hin as (c1 & -> & Hc1).
    assert (c1 = c0) as ->.
    { apply to_cell_inj; [| |done].
      - by apply (proj1 (Forall_forall _ _) Hwhole).
      - apply (proj1 (Forall_forall _ _) Hok) in He as (_ & Hwe & _).
        by apply (proj1 (Forall_forall _ _) Hwe). }
    apply list_elem_of_lookup in He as [i Hi].
    apply (Hh _ i (length fleet) e.1 e.2 n cs c0 eq_refl); [| | |done..].
    + apply lookup_lt_Some in Hi. lia.
    + rewrite lookup_app_l by (rewrite length_fmap; by eapply lookup_lt_Some).
      by rewrite list_lookup_fmap, Hi.
    + rewrite <- (length_fmap entry fleet). apply list_lookup_middle. done.
Qed.

Lemma validate_ships_spec fleet st l :
  accepted fleet st →
  match forEach_throw validate_ship st l with
  | Return st' =>
      ∃ fleet', l = entry <$> fleet' ∧ accepted (fleet ++ fleet') st'
  | Throw msg =>
      ∃ k, reasons k msg ∧ ¬ holds k (Some ((entry <$> fleet) ++ l)%list)
  end.
Proof.
  revert fleet st. induction l as [|s l IH]; intros fleet st Hacc.
  - cbn [forEach_throw]. exists []. by rewrite app_nil_r.
  - rewrite forEach_throw_cons.
    pose proof (validate_ship_spec fleet st s Hacc) as Hs.
    destruct (validate_ship st s) as [st1|msg].
    + destruct Hs as (e & -> & Hacc1). specialize (IH _ _ Hacc1).
      destruct (forEach_throw validate_ship st1 l) as [st'|msg].
      * destruct IH as (fleet' & -> & Hacc'). exists (e :: fleet').
        split; [done|]. by rewrite <- app_assoc in Hacc'.
      * destruct IH as (k & Hk & Hnot). exists k. split; [done|].
        by rewrite fmap_app, <- app_assoc in Hnot.
    + destruct Hs as (k & Hk & Hnot). exists k. split; [done|]. apply Hnot.
Qed.

(** The validator either accepts, and then the submission is a list of
    five entries held as an accepted layout, or it throws a reason whose
    clause the submission violates. *)
Lemma validate_spec submitted :
  match validate submitted with
  | Return st =>
      ∃ fleet, submitted = Some (entry <$> fleet)
        ∧ length fleet = length SHIPS ∧ accepted fleet st
  | Throw msg => ∃ k, reasons k msg ∧ ¬ holds k submitted
  end.
Proof.
  destruct submitted as [l|]; cbn [validate].
  2:{ exists OnePerName. split; [cbn; rewrite !elem_of_cons; auto 10|].
      by intros (l & [=] & _). }
  destruct (length l =? length SHIPS)%nat eqn:Hlen; cbn [negb].
  - apply Nat.eqb_eq in Hlen. unfold validate_fleet.
    pose proof (validate_ships_spec [] empty_layout l accepted_empty) as Hl.
    destruct (forEach_throw validate_ship empty_layout l) as [st|msg].
    + destruct Hl as (fleet & -> & Hacc). exists fleet.
      split; [done|]. split; [by rewrite length_fmap in Hlen|done].
    + done.
  - apply Nat.eqb_neq in Hlen.
    exists OnePerName. split; [cbn; rewrite !elem_of_cons; auto 10|].
    intros (l' & [= <-] & Hperm). apply Hlen.
    apply Permutation_length in Hperm. by rewrite !length_fmap in Hperm.
Qed.

(** An accepted layout of five entries satisfies every clause. *)
Lemma accepted_holds fleet st k :
  accepted fleet st → length fleet = length SHIPS →
  holds k (Some (entry <$> fleet)).
Proof.
  intros (Hships & Hseen & Hnd & Hok & Hocc & Hapart & Hcube & Hboard) Hlen.
  rewrite Forall_forall in Hok.
  assert (Hin : ∀ n cs, Placement n cs ∈ entry <$> fleet → (n, cs) ∈ fleet).
  { intros n cs ([n' cs'] & [= -> ->] & He)%list_elem_of_fmap. done. }
  destruct k; cbn [holds].
  - exists (entry <$> fleet). split; [done|].
    rewrite names_of_entries. apply fmap_Permutation.
    apply submseteq_length_Permutation.
    + apply NoDup_submseteq; [done|].
      intros n ([n' cs] & -> & He)%list_elem_of_fmap.
      destruct (Hok _ He) as (Hcat & _). unfold catalog_names.
      apply list_elem_of_fmap. by exists (n', length cs).
    + unfold catalog_names. rewrite !length_fmap. lia.
  - intros l n cs len [= <-] He%Hin Hcat.
    destruct (Hok _ He) as (Hcat' & _). simpl in Hcat'.
    apply expectedShips_lookup in Hcat, Hcat'. congruence.
  - intros l n cs c [= <-] He%Hin Hc.
    destruct (Hok _ He) as (_ & Hwhole & _).
    by apply (proj1 (Forall_forall _ _) Hwhole).
  - intros l n cs [= <-] He%Hin _ _. by destruct (Hok _ He) as (_ & _ & ?).
  - intros l i j n1 cs1 n2 cs2 c [= <-] Hij Hi Hj Hc1 Hc2.
    rewrite list_lookup_fmap in Hi, Hj.
    destruct (fleet !! i) as [[n1' cs1']|] eqn:Hi'; [|done].
    destruct (fleet !! j) as [[n2' cs2']|] eqn:Hj'; [|done].
    injection Hi as -> ->. injection Hj as -> ->.
    by apply (Hapart i j (n1, cs1) (n2, cs2) c).
Qed.

(** C3: the validator accepts a submission exactly when it satisfies all
    five clauses (one entry per catalog name, catalog lengths, coordinates
    that [Number] reads as whole numbers on the board, straight contiguous
    ships, no shared cell);
    every rejection carries a reason of a clause that is violated; and a
    submission that violates a single clause is rejected with a reason of
    that clause. *)
Theorem validate_accepts_valid_fleets submitted :
  ((∃ st, validate submitted = Return st) ↔ ∀ k, holds k submitted)
  ∧ (∀ msg, validate submitted = Throw msg →
       ∃ k, reasons k msg ∧ ¬ holds k submitted)
  ∧ (∀ k, ¬ holds k submitted → (∀ k', k' ≠ k → holds k' submitted) →
       ∃ msg, validate submitted = Throw msg ∧ reasons k msg).
Proof.
  pose proof (validate_spec submitted) as Hspec.
  destruct (validate submitted) as [st|msg].
  - destruct Hspec as (fleet & -> & Hlen & Hacc).
    assert (∀ k, holds k (Some (entry <$> fleet)))
      by (intros k; by apply (accepted_holds fleet st)).
    split; [split; [done|by exists st]|]. split; [done|].
    intros k Hnot. by destruct Hnot.
  - destruct Hspec as (k & Hk & Hnot). split; [|split].
    + split; [by intros [? ?]|]. intros Hall. by destruct Hnot.
    + intros ? [= <-]. eauto.
    + intros k' Hnot' Hothers. exists msg. split; [done|].
      destruct (decide (k = k')) as [<-|Hne]; [done|].
      by destruct Hnot; apply Hothers.
Qed.

Lemma validate_accepts_valid_fleets_witness :
  (∀ k, holds k (Some fleet1))
  ∧ ∃ k, reasons k "Ships must be placed in a straight line."
      ∧ ¬ holds k (Some non_colinear_fleet).
Proof.
  split.
  - apply (proj1 (proj1 (validate_accepts_valid_fleets (Some fleet1)))).
    eexists. vm_compute. reflexivity.
  - apply (proj1 (proj2 (validate_accepts_valid_fleets
                           (Some non_colinear_fleet)))).
    vm_compute. reflexivity.
Defined.

Lemma reasons_triggerable :
  validate None = Throw "Invalid ship data submitted."
  ∧ validate (Some [line "Carrier" AxisX 0 0 0 5])
    = Throw "All ships must be placed before locking in."
  ∧ validate (Some (replace_third Malformed))
    = Throw "Invalid ship configuration"
  ∧ validate (Some (replace_third (line "Frigate" AxisZ 1 1 1 3)))
    = Throw "Unexpected ship provided."
  ∧ validate (Some (replace_third (line "Carrier" AxisZ 1 1 0 5)))
    = Throw "Duplicate ship entries are not allowed."
  ∧ validate (Some (replace_third (line "Cruiser" AxisZ 1 1 1 2)))
    = Throw "Cruiser must occupy exactly 3 cells."
  ∧ validate (Some (replace_third
       (Placement "Cruiser" [at_ 1 1 1; Coords (JInt 1) (JInt 1) (JFrac 2 1);
                             at_ 1 1 3])))
    = Throw "Ship coordinates must be whole numbers."
  ∧ validate (Some (replace_third (line "Cruiser" AxisZ 1 1 3 3)))
    = Throw "Ship out of bounds"
  ∧ validate (Some (replace_third
       (Placement "Cruiser" [at_ 1 1 1; at_ 1 2 1; at_ 1 1 2])))
    = Throw "Ships must be placed in a straight line."
  ∧ validate (Some (replace_third
       (Placement "Cruiser" [at_ 1 1 1; at_ 1 1 2; at_ 1 1 4])))
    = Throw "Ships must occupy consecutive cells."
  ∧ validate (Some (replace_third (line "Cruiser" AxisZ 0 1 0 3)))
    = Throw "Ships cannot overlap".
Proof. repeat split; vm_compute; reflexivity. Qed.

(** ** The stored board and the stored ships *)

(** In a list of ships with distinct names, the search by name finds the
    ship itself. *)
Lemma find_ship_by_name (l : list ship) s :
  NoDup (name <$> l) → s ∈ l →
  ∃ i, list_find (λ s', Some (name s') = Some (name s)) l = Some (i, s).
Proof.
  intros Hnd [i Hi]%list_elem_of_lookup. exists i.
  apply list_find_Some. split; [done|]. split; [done|].
  intros j s' Hj Hlt [= Hname]. assert (j = i); [|lia].
  apply (NoDup_lookup _ _ _ (name s) Hnd);
    rewrite list_lookup_fmap; [rewrite Hj; simpl; by rewrite Hname|].
  by rewrite Hi.
Qed.

Lemma catalog_name_truthy n len : (n, len) ∈ SHIPS → truthy (Some n) = true.
Proof.
  unfold SHIPS. rewrite !elem_of_cons.
  intros [[= -> _]|[[= -> _]|[[= -> _]|[[= -> _]|[[= -> _]|?%elem_of_nil]]]]];
    done.
Qed.

(** C10: after a successful [placeShips] the record of the submitting
    player is ready, and its board and ships agree: a board cell holds the
    name [S] exactly when it is a cell of a stored ship named [S]; the
    stored ships have distinct names, catalog lengths and cells on the
    board; the board cell of every stored cell names the ship that holds
    it; and a name read from the board is truthy and leads the search in
    the ships list to the ship that holds the cell. *)
Theorem placeShips_board_matches_ships socket c submitted rooms :
  answer (placeShips socket c submitted rooms) = ReplySuccess →
  ∃ p', seat (registry (placeShips socket c submitted rooms)) c socket
        = Some p'
    ∧ ready p' = true
    ∧ (∀ x y z S,
         board_get (board p') (JInt x) (JInt y) (JInt z) = Some (Some S)
         ↔ ∃ s, s ∈ ships p' ∧ name s = S ∧ Cell x y z ∈ cells s)
    ∧ NoDup (name <$> ships p')
    ∧ (∀ s, s ∈ ships p' → (name s, length (cells s)) ∈ SHIPS)
    ∧ (∀ s cl, s ∈ ships p' → cl ∈ cells s →
         on_board cl ∧ cell_at (board p') cl = Some (Some (name s)))
    ∧ (∀ x y z S,
         board_get (board p') (JInt x) (JInt y) (JInt z) = Some (Some S) →
         truthy (Some S) = true
         ∧ ∃ i s, list_find (λ s', Some (name s') = Some S) (ships p')
                  = Some (i, s)
             ∧ Cell x y z ∈ cells s).
Proof.
  unfold placeShips.
  destruct (rooms !! c) as [r|] eqn:Hr; [|done].
  destruct (getPlayer r socket) as [[i p]|] eqn:Hp; [|done].
  pose proof (validate_spec submitted) as Hspec.
  destruct (validate submitted) as [st|msg]; [|done].
  destruct Hspec as (fleet & -> & Hlen & Hacc).
  destruct Hacc as (Hships & Hseen & Hnd & Hok & Hocc & Hapart & Hcube
                    & Hboard).
  rewrite Forall_forall in Hok.
  set (p' := Player _ _ _ _ _ _ _).
  assert (Hseat : ∀ t, getPlayer
            (with_turn (with_players r (<[i := p']> (players r))) t) socket
            = Some (i, p')).
  { intros t. rewrite getPlayer_with_turn. by eapply getPlayer_insert. }
  intros _. exists p'. split.
  { unfold seat. destruct (_ && _); simpl; rewrite lookup_insert_eq; simpl.
    - by rewrite (Hseat _).
    - specialize (Hseat (turn r)). rewrite getPlayer_with_turn in Hseat.
      by rewrite Hseat. }
  split; [done|]. simpl. rewrite Hships.
  assert (Hcells : ∀ cl S,
    cell_at (layout_board st) cl = Some (Some S)
    ↔ ∃ s, s ∈ stored <$> fleet ∧ name s = S ∧ cl ∈ cells s).
  { intros cl S. rewrite Hboard. split.
    - intros (e & He & <- & Hc). exists (stored e).
      split; [apply list_elem_of_fmap; eauto|done].
    - intros (s & (e & -> & He)%list_elem_of_fmap & <- & Hc). eauto. }
  assert (Hnames : NoDup (name <$> (stored <$> fleet))).
  { rewrite <- list_fmap_compose. exact Hnd. }
  assert (Hcat : ∀ s, s ∈ stored <$> fleet →
                   (name s, length (cells s)) ∈ SHIPS).
  { intros s (e & -> & He)%list_elem_of_fmap. simpl. rewrite length_fmap.
    by destruct (Hok _ He). }
  split; [intros x y z S; apply (Hcells (Cell x y z) S)|].
  split; [done|]. split; [done|]. split.
  - intros s cl (e & -> & He)%list_elem_of_fmap Hcl. split.
    + destruct (Hok _ He) as (_ & Hwhole & _).
      simpl in Hcl. apply list_elem_of_fmap in Hcl as (c0 & -> & Hc0).
      apply whole_on_board_to_cell.
      by apply (proj1 (Forall_forall _ _) Hwhole).
    + apply Hcells. exists (stored e).
      split; [apply list_elem_of_fmap; eauto|done].
  - intros x y z S (s & Hs & <- & Hcl)%(Hcells (Cell x y z)). split.
    + by eapply catalog_name_truthy, Hcat.
    + destruct (find_ship_by_name _ s Hnames Hs) as [j Hj]. eauto.
Qed.

Lemma placeShips_board_matches_ships_witness :
  answer (placeShips "b" "123456" (Some fleet2) one_ready_game) = ReplySuccess
  ∧ ∃ p', seat (registry (placeShips "b" "123456" (Some fleet2)
                            one_ready_game)) "123456" "b" = Some p'
      ∧ ready p' = true ∧ NoDup (name <$> ships p').
Proof.
  split; [vm_compute; reflexivity|].
  destruct (placeShips_board_matches_ships "b" "123456" (Some fleet2)
              one_ready_game) as (p' & Hseat & Hready & _ & Hnd & _);
    [vm_compute; reflexivity|].
  exists p'. split; [exact Hseat|]. split; [exact Hready|exact Hnd].
Defined.

(** * Further properties of the server *)

(** ** Further example registries *)

Lemma busy_chat_reachable : reachable as_is as_is busy_chat.
Proof.
  apply reachable_run.
  - apply reachable_run; [apply reachable_start|].
    vm_compute. repeat split; reflexivity.
  - vm_compute. repeat split.
Qed.

Lemma named_game_reachable : reachable as_is as_is named_game.
Proof.
  apply reachable_run.
  - apply reachable_run; [apply reachable_start|].
    vm_compute. repeat split; reflexivity.
  - vm_compute. repeat split.
Qed.

Lemma rejoined_game_reachable : reachable as_is as_is rejoined_game.
Proof.
  apply reachable_run; [exact started_game_reachable|].
  vm_compute. repeat split.
Qed.

Lemma last_shot_pending_reachable : reachable as_is as_is last_shot_pending.
Proof.
  apply reachable_run; [exact started_game_reachable|].
  vm_compute. repeat split.
Qed.

Lemma fleet1_accepted : ∃ st, validate (Some fleet1) = Return st.
Proof.
  assert (Hok : match validate (Some fleet1) with
                | Return _ => true
                | Throw _ => false
                end = true) by (vm_compute; reflexivity).
  destruct (validate (Some fleet1)) as [st|msg]; [by exists st|discriminate].
Defined.

Lemma fleet2_accepted : ∃ st, validate (Some fleet2) = Return st.
Proof.
  assert (Hok : match validate (Some fleet2) with
                | Return _ => true
                | Throw _ => false
                end = true) by (vm_compute; reflexivity).
  destruct (validate (Some fleet2)) as [st|msg]; [by exists st|discriminate].
Defined.

Lemma same_ship_backwards l : Forall2 same_ship l (backwards <$> l).
Proof.
  induction l as [|s l IH]; [constructor|]. csimpl. constructor; [|done].
  destruct s as [|n cs]; [done|]. simpl. split; [done|].
  symmetry. apply reverse_Permutation.
Qed.

(** ** Sound registries *)

Lemma length_substring_le n m s : (String.length (substring n m s) ≤ m)%nat.
Proof.
  revert n m. induction s as [|a s IH]; intros [|n] [|m]; simpl; try lia.
  - specialize (IH 0%nat m). lia.
  - apply IH.
  - apply IH.
Qed.

Lemma trimChatHistory_chat r :
  code (trimChatHistory r) = code r
  ∧ (length (chat (trimChatHistory r)) ≤ MAX_CHAT_MESSAGES)%nat
  ∧ chat (trimChatHistory r)
    = drop (length (chat r) - MAX_CHAT_MESSAGES) (chat r).
Proof.
  unfold trimChatHistory.
  destruct (length (chat r) <=? MAX_CHAT_MESSAGES)%nat eqn:Hlen; simpl.
  - apply Nat.leb_le in Hlen. split; [done|]. split; [done|].
    by replace (length (chat r) - MAX_CHAT_MESSAGES)%nat with 0%nat by lia.
  - apply Nat.leb_gt in Hlen. split; [done|]. split; [|done].
    rewrite length_drop. lia.
Qed.

Lemma room_sound_chat c r e :
  room_sound c r → entry_ok e →
  room_sound c (trimChatHistory (with_chat r (chat r ++ [e]))).
Proof.
  intros (Hc & Hp & Hl & Hch & Hps) He.
  destruct (trimChatHistory_chat (with_chat r (chat r ++ [e])))
    as (Hc' & Hl' & Hch').
  destruct (trimChatHistory_seats (with_chat r (chat r ++ [e]))) as [Hp' _].
  split; [by rewrite Hc'|]. split; [by rewrite Hp'|]. split; [done|].
  split; [|by rewrite Hp'].
  rewrite Hch'. apply Forall_drop. simpl.
  apply Forall_app. split; [done|]. by apply Forall_singleton.
Qed.

Lemma recordAndBroadcastChat_sound r c e rooms :
  ∃ r' out, recordAndBroadcastChat r c e rooms = (r', <[c := r']> rooms, out)
    ∧ (room_sound c r → entry_ok e → room_sound c r').
Proof.
  unfold recordAndBroadcastChat. eexists _, _. split; [done|].
  apply room_sound_chat.
Qed.

Lemma emitSystemChat_sound r c msg now rooms :
  ∃ r' out,
    emitSystemChat r c msg now rooms
    = (r', if String.eqb msg "" then rooms else <[c := r']> rooms, out)
    ∧ (room_sound c r → room_sound c r').
Proof.
  unfold emitSystemChat. destruct (String.eqb msg "") eqn:Hmsg.
  - by eexists _, _.
  - destruct (recordAndBroadcastChat_sound r c
                (ChatEntry "system" "System" msg KindSystem now) rooms)
      as (r' & out & -> & Hsound).
    eexists _, _. split; [done|]. intros Hr. apply Hsound; [done|].
    split; simpl; [|done]. intros ->. by rewrite String.eqb_refl in Hmsg.
Qed.

Lemma registry_sound_insert c r rooms :
  room_sound c r → registry_sound rooms → registry_sound (<[c := r]> rooms).
Proof. intros Hr Hrooms. by apply map_Forall_insert_2. Qed.

Lemma room_sound_update c r i p p' :
  players r !! i = Some p → player_sound p' → room_sound c r →
  room_sound c (with_players r (<[i := p']> (players r))).
Proof.
  intros Hi Hp' (Hc & Hp & Hl & Hch & Hps).
  split; [done|]. split; [|split; [done|split; [done|]]]; simpl.
  - intros Hnil. apply (f_equal length) in Hnil.
    rewrite length_insert in Hnil. by destruct (players r).
  - by apply Forall_insert.
Qed.

Lemma new_player_sound socket : player_sound (new_player socket).
Proof.
  split; [done|]. split; [done|]. split; simpl.
  - apply disjoint_empty_l.
  - by intros k ?%elem_of_empty.
Qed.

Lemma placed_cube p : placed p → cube (board p).
Proof.
  unfold placed. destruct (ready p).
  - intros (fleet & st & _ & Hacc & -> & _). apply Hacc.
  - intros [-> _]. apply createEmptyBoard_cube.
Qed.

(** A truthy value found on a cube lies at whole coordinates of the
    board. *)
Lemma board_get_cube b x y z S :
  cube b → board_get b x y z = Some (Some S) →
  ∃ cl, on_board cl ∧ coordKey x y z = cellKey cl
    ∧ cell_at b cl = Some (Some S).
Proof.
  intros [Hlen Hplanes] Hget. unfold board_get in Hget.
  destruct (array_get b x) as [plane|] eqn:Hx; [|done]. simpl in Hget.
  destruct (array_get plane y) as [column|] eqn:Hy; [|done]. simpl in Hget.
  destruct (array_get column z) as [v|] eqn:Hz; [|done].
  injection Hget as ->.
  pose proof Hx as Hx'. pose proof Hy as Hy'. pose proof Hz as Hz'.
  unfold array_get in Hx, Hy, Hz.
  destruct x as [x| | |]; try done. destruct y as [y| | |]; try done.
  destruct z as [z| | |]; try done.
  destruct (0 <=? x) eqn:Hx0; [|done]. destruct (0 <=? y) eqn:Hy0; [|done].
  destruct (0 <=? z) eqn:Hz0; [|done].
  apply Z.leb_le in Hx0, Hy0, Hz0.
  pose proof (lookup_lt_Some _ _ _ Hx) as Hxl.
  rewrite Forall_lookup in Hplanes.
  destruct (Hplanes _ _ Hx) as [Hplane Hcolumns].
  pose proof (lookup_lt_Some _ _ _ Hy) as Hyl.
  rewrite Forall_lookup in Hcolumns.
  pose proof (Hcolumns _ _ Hy) as Hcolumn.
  pose proof (lookup_lt_Some _ _ _ Hz) as Hzl.
  exists (Cell x y z). split; [|split; [done|]].
  - unfold on_board, BOARD_SIZE in *. simpl. lia.
  - unfold cell_at, board_get. cbn [cx cy cz].
    rewrite Hx'. cbn [mbind option_bind]. rewrite Hy'.
    cbn [mbind option_bind]. by rewrite Hz'.
Qed.

Lemma placeShips_sound socket c submitted rooms :
  registry_sound rooms →
  registry_sound (registry (placeShips socket c submitted rooms)).
Proof.
  intros Hok. unfold placeShips.
  destruct (rooms !! c) as [r|] eqn:Hr; [|done].
  destruct (getPlayer r socket) as [[i p]|] eqn:Hp; [|done].
  pose proof (validate_spec submitted) as Hval.
  destruct (validate submitted) as [l|]; [|done].
  destruct Hval as (fleet & _ & Hlen & Hacc).
  apply getPlayer_lookup in Hp as [Hi Hid].
  pose proof (Hok c r Hr) as Hr0.
  assert (Hp0 : player_sound p).
  { destruct Hr0 as (_ & _ & _ & _ & Hps).
    rewrite Forall_lookup in Hps. by apply (Hps i). }
  set (p' := Player _ _ _ _ _ _ _).
  assert (Hr1 : room_sound c (with_players r (<[i := p']> (players r)))).
  { apply room_sound_update with p; [done| |done].
    destruct Hp0 as (Hu & _ & Hs). split; [done|]. split; [|done].
    unfold placed. simpl. by exists fleet, l. }
  destruct (_ && _); simpl; by repeat apply registry_sound_insert.
Qed.

Lemma attack_sound socket c t rooms :
  registry_sound rooms → registry_sound (registry (attack socket c t rooms)).
Proof.
  intros Hok. unfold attack.
  destruct (rooms !! c) as [r|] eqn:Hr; [|done].
  case_bool_decide; [|done]. simpl.
  destruct (getOpponent r socket) as [[j opponent]|] eqn:Ho; [|done].
  destruct (getPlayer r socket) as [[i p]|] eqn:Hp; [|done].
  apply getOpponent_lookup in Ho. apply getPlayer_lookup in Hp as [Hi Hid].
  destruct (_ || _); [done|].
  destruct (bool_decide (_ ∈ hits p)) eqn:Hhit; [done|].
  destruct (bool_decide (_ ∈ misses p)) eqn:Hmiss; [done|]. simpl.
  apply bool_decide_eq_false in Hhit, Hmiss.
  destruct (board_get _ _ _ _) as [found|] eqn:Hfound; [|done].
  pose proof (Hok c r Hr) as Hr0.
  assert (Hps : ∀ k q, players r !! k = Some q → player_sound q).
  { destruct Hr0 as (_ & _ & _ & _ & Hps).
    rewrite Forall_lookup in Hps. done. }
  destruct (Hps i p Hi) as (Hu & Hpl & Hdisj & Hon).
  destruct (truthy found) eqn:Htruthy.
  - set (p' := Player _ _ _ _ _ _ _).
    assert (Hr1 : room_sound c (with_players r (<[i := p']> (players r)))).
    { apply room_sound_update with p; [done| |done].
      split; [done|]. split; [done|]. split; simpl.
      - apply disjoint_union_l. split; [|done].
        by apply disjoint_singleton_l.
      - intros k [->%elem_of_singleton|Hk]%elem_of_union; [|by apply Hon].
        destruct found as [S|]; [|done].
        destruct (board_get_cube _ _ _ _ _
                    (placed_cube _ (proj1 (proj2 (Hps j opponent Ho))))
                    Hfound) as (cl & ? & ? & _).
        by exists cl. }
    destruct (list_find _ _) as [[? s]|]; [|by apply registry_sound_insert].
    unfold resolve. simpl. apply registry_sound_insert; [|done].
    by destruct (allShipsSunk _ _).
  - set (p' := Player _ _ _ _ _ _ _).
    assert (Hr1 : room_sound c (with_players r (<[i := p']> (players r)))).
    { apply room_sound_update with p; [done| |done].
      split; [done|]. split; [done|]. split; simpl; [|done].
      apply disjoint_union_r. split; [|done].
      by apply disjoint_singleton_r. }
    unfold resolve. simpl. apply registry_sound_insert; [|done].
    by destruct (allShipsSunk _ _).
Qed.

Section ServerSound.

Variable trim : string → string.
Variable collapse_whitespace : string → string.

Lemma createGame_sound socket c now rooms :
  registry_sound rooms →
  registry_sound (registry (createGame socket c now rooms)).
Proof.
  intros Hok. unfold createGame.
  destruct (emitSystemChat_sound (Room c [new_player socket] None []) c
              "Room created. Share the code to invite an opponent." now
              (<[c := Room c [new_player socket] None []]> rooms))
    as (r' & out & -> & Hsound). simpl.
  assert (room_sound c (Room c [new_player socket] None [])).
  { split; [done|]. split; [done|]. split; [simpl; lia|].
    split; [done|]. apply Forall_singleton, new_player_sound. }
  repeat apply registry_sound_insert; auto.
Qed.

Lemma joinGame_sound socket c now rooms :
  registry_sound rooms →
  registry_sound (registry (joinGame socket c now rooms)).
Proof.
  intros Hok. unfold joinGame.
  destruct (rooms !! c) as [r|] eqn:Hr; [|done].
  destruct (2 <=? length (players r))%nat; [done|].
  set (r1 := with_players r _).
  destruct (emitSystemChat_sound r1 c "A commander joined the battle." now
              (<[c := r1]> rooms)) as (r' & out & -> & Hsound). simpl.
  assert (room_sound c r1).
  { destruct (Hok c r Hr) as (Hc & Hp & Hl & Hch & Hps).
    split; [done|]. split; [|split; [done|split; [done|]]]; simpl.
    - by destruct (players r).
    - apply Forall_app. split; [done|].
      apply Forall_singleton, new_player_sound. }
  repeat apply registry_sound_insert; auto.
Qed.

Lemma setUsername_sound socket c newname now rooms :
  registry_sound rooms →
  registry_sound (registry (setUsername trim socket c newname now rooms)).
Proof.
  intros Hok. unfold setUsername.
  destruct (rooms !! c) as [r|] eqn:Hr; [|done].
  destruct (getPlayer r socket) as [[i p]|] eqn:Hp; [|done].
  apply getPlayer_lookup in Hp as [Hi Hid].
  set (limited := substring 0 20 _).
  assert (Hname : username_ok
            (if String.eqb limited "" then None else Some limited)).
  { destruct (String.eqb limited "") eqn:Hl; [done|]. split.
    - intros Heq. by rewrite Heq in Hl.
    - apply length_substring_le. }
  set (username' := if String.eqb _ "" then None else Some _) in *.
  set (p' := Player _ _ _ _ _ _ _).
  assert (Hr1 : room_sound c (with_players r (<[i := p']> (players r)))).
  { apply room_sound_update with p; [done| |by apply (Hok c)].
    destruct (Hok c r Hr) as (_ & _ & _ & _ & Hps).
    rewrite Forall_lookup in Hps. destruct (Hps i p Hi) as (_ & ? & ?).
    by split. }
  set (r1 := with_players r _) in *.
  destruct username' as [n|]; [|by apply registry_sound_insert].
  case_bool_decide; [|by apply registry_sound_insert].
  match goal with |- context [emitSystemChat r1 c ?msg now ?rs] =>
    destruct (emitSystemChat_sound r1 c msg now rs)
      as (r' & out & -> & Hsound)
  end. simpl.
  destruct (String.eqb _ ""); repeat apply registry_sound_insert; auto.
Qed.

Lemma sanitizeChatMessage_visible raw value :
  sanitizeChatMessage trim collapse_whitespace raw = Return value →
  value ≠ "" ∧ (String.length value ≤ MAX_CHAT_LENGTH)%nat.
Proof.
  unfold sanitizeChatMessage. destruct raw as [raw|]; [|done].
  destruct (String.eqb _ "") eqn:Hempty; [done|].
  destruct (_ <? _)%nat eqn:Hlong; [done|]. intros [= <-].
  apply Nat.ltb_ge in Hlong. split; [|done].
  intros Heq. by rewrite Heq in Hempty.
Qed.

Lemma chatMessage_sound socket c raw now rooms :
  registry_sound rooms →
  registry_sound
    (registry (chatMessage trim collapse_whitespace socket c raw now rooms)).
Proof.
  intros Hok. unfold chatMessage.
  destruct (rooms !! c) as [r|] eqn:Hr; [|done].
  destruct (getPlayer r socket) as [[i p]|]; [|done].
  destruct (sanitizeChatMessage _ _ raw) as [value|] eqn:Hvalue; [|done].
  apply sanitizeChatMessage_visible in Hvalue as [Hvis Hlen].
  match goal with |- context [recordAndBroadcastChat r c ?e rooms] =>
    destruct (recordAndBroadcastChat_sound r c e rooms)
      as (r' & out & -> & Hsound)
  end. simpl.
  apply registry_sound_insert; [|done].
  apply Hsound; [by apply (Hok c)|]. by split.
Qed.

Lemma leave_room_exact socket now out rooms c :
  match rooms !! c with
  | None => leave_room trim socket now (out, rooms) c = (out, rooms)
  | Some r =>
      if decide (filter (λ p, id p ≠ socket) (players r) = []) then
        leave_room trim socket now (out, rooms) c
        = ((out ++ [(c, PlayerLeft socket)])%list, delete c rooms)
      else
        let u := room_left trim socket now r in
        leave_room trim socket now (out, rooms) c
        = ((out ++ [(c, PlayerLeft socket)]
                ++ [(c, ChatUpdate
                          (ChatEntry "system" "System"
                             (trimmed_or trim
                                (getPlayer r socket ≫= (λ ip, username ip.2))
                                (λ n, n) "A commander"
                              ++ " left the battle.") KindSystem now))]
                ++ emitRoomState c (<[c := u]> rooms))%list,
           <[c := u]> rooms)
  end.
Proof.
  unfold leave_room, removePlayerFromRoom.
  destruct (rooms !! c) as [r|] eqn:Hr; [|done]. cbv zeta.
  set (remaining := filter (λ p, id p ≠ socket) (players r)).
  destruct (length remaining =? 0)%nat eqn:Hlen.
  - apply Nat.eqb_eq, nil_length_inv in Hlen.
    by rewrite decide_True by done.
  - apply Nat.eqb_neq in Hlen.
    rewrite decide_False by (by intros ->).
    unfold emitSystemChat, recordAndBroadcastChat.
    rewrite left_the_battle_nonempty, !insert_insert_eq.
    assert (Hu : ∀ t,
      (if bool_decide (turn r = Some socket)
       then with_turn (with_players r remaining) t
       else with_players r remaining)
      = Room (code r) remaining
             (if bool_decide (turn r = Some socket) then t else turn r)
             (chat r))
      by (intros t; by destruct (bool_decide _)).
    rewrite Hu. unfold room_left, turn_after_leave. fold remaining.
    cbn [players with_players chat with_chat code turn].
    rewrite <- !app_assoc. done.
Qed.

Lemma room_left_sound socket now c r :
  room_sound c r → filter (λ p, id p ≠ socket) (players r) ≠ [] →
  room_sound c (room_left trim socket now r).
Proof.
  intros (Hc & Hp & Hl & Hch & Hps) Hrem. unfold room_left.
  match goal with |- context [trimChatHistory (Room ?a ?b ?t (?l ++ [?e]))] =>
    change (Room a b t (l ++ [e]))
      with (with_chat (Room a b t l) (chat (Room a b t l) ++ [e]))
  end.
  apply room_sound_chat.
  - split; [done|]. split; [done|]. split; [done|]. split; [done|].
    rewrite Forall_forall in Hps |- *.
    intros p [_ ?]%list_elem_of_filter. by apply Hps.
  - split; [|done]. simpl. intros Heq.
    pose proof (left_the_battle_nonempty
      (trimmed_or trim (getPlayer r socket ≫= (λ ip, username ip.2))
                  (λ n, n) "A commander")) as Hne.
    by rewrite Heq in Hne.
Qed.

Lemma leave_room_sound socket now acc c :
  registry_sound acc.2 →
  registry_sound (leave_room trim socket now acc c).2.
Proof.
  destruct acc as [out rooms]. intros Hok. simpl in Hok.
  pose proof (leave_room_exact socket now out rooms c) as Hspec.
  destruct (rooms !! c) as [r|] eqn:Hr; [|by rewrite Hspec].
  case_decide as Hrem.
  - rewrite Hspec. simpl. by apply map_Forall_delete.
  - cbv zeta in Hspec. rewrite Hspec. simpl.
    apply registry_sound_insert; [|done].
    apply room_left_sound; [by apply (Hok c)|done].
Qed.

Lemma disconnecting_sound socket joined now rooms :
  registry_sound rooms →
  registry_sound (registry (disconnecting trim socket joined now rooms)).
Proof.
  intros Hok. unfold disconnecting.
  generalize (filter (λ c, is_Some (rooms !! c)) joined). intros roomCodes.
  assert (Hfold : ∀ acc, registry_sound acc.2 →
            registry_sound
              (foldl (leave_room trim socket now) acc roomCodes).2).
  { induction roomCodes as [|c l IH]; intros acc Hacc; [done|].
    simpl. by apply IH, leave_room_sound. }
  specialize (Hfold ([], rooms) Hok).
  by destruct (foldl _ _ _).
Qed.

Lemma handle_sound e rooms :
  registry_sound rooms →
  registry_sound (registry (handle trim collapse_whitespace e rooms)).
Proof.
  intros Hok. unfold handle.
  destruct e;
    [ by apply createGame_sound | by apply joinGame_sound
    | by apply setUsername_sound | by apply placeShips_sound
    | by apply attack_sound | by apply chatMessage_sound
    | by apply disconnecting_sound ].
Qed.

Lemma reachable_sound rooms :
  reachable trim collapse_whitespace rooms → registry_sound rooms.
Proof.
  induction 1 as [|rooms e _ IH _].
  - apply map_Forall_empty.
  - by apply handle_sound.
Qed.

End ServerSound.

(** What [placed] says of the board and the ships of a record. *)
Lemma placed_spec p :
  placed p →
  cube (board p)
  ∧ NoDup (name <$> ships p)
  ∧ (∀ s, s ∈ ships p → (name s, length (cells s)) ∈ SHIPS)
  ∧ (∀ s cl, s ∈ ships p → cl ∈ cells s → on_board cl)
  ∧ (∀ cl S, cell_at (board p) cl = Some (Some S)
             ↔ ∃ s, s ∈ ships p ∧ name s = S ∧ cl ∈ cells s)
  ∧ name <$> ships p ≡ₚ (if ready p then catalog_names else []).
Proof.
  unfold placed. destruct (ready p).
  - intros (fleet & st & Hlen & Hacc & -> & ->).
    destruct Hacc as (Hships & Hseen & Hnd & Hok & Hocc & Hapart & Hcube
                      & Hboard).
    rewrite Forall_forall in Hok. rewrite Hships.
    assert (Hnames : name <$> (stored <$> fleet) = fleet.*1)
      by (by rewrite <- list_fmap_compose).
    split; [done|]. split; [by rewrite Hnames|]. split; [|split; [|split]].
    + intros s (e & -> & He)%list_elem_of_fmap. simpl. rewrite length_fmap.
      by destruct (Hok _ He).
    + intros s cl (e & -> & He)%list_elem_of_fmap Hcl.
      destruct (Hok _ He) as (_ & Hwhole & _).
      simpl in Hcl. apply list_elem_of_fmap in Hcl as (c0 & -> & Hc0).
      apply whole_on_board_to_cell.
      by apply (proj1 (Forall_forall _ _) Hwhole).
    + intros cl S. rewrite Hboard. split.
      * intros (e & He & <- & Hc). exists (stored e).
        split; [apply list_elem_of_fmap; eauto|done].
      * intros (s & (e & -> & He)%list_elem_of_fmap & <- & Hc). eauto.
    + rewrite Hnames. apply submseteq_length_Permutation.
      * apply NoDup_submseteq; [done|].
        intros n (e & -> & He)%list_elem_of_fmap.
        destruct (Hok _ He) as (Hcat & _).
        apply list_elem_of_fmap. by exists (e.1, length e.2).
      * rewrite length_fmap, Hlen. unfold catalog_names.
        by rewrite length_fmap.
  - intros [-> ->]. split; [apply createEmptyBoard_cube|].
    split; [apply NoDup_nil_2|]. split; [by intros s ?%elem_of_nil|].
    split; [by intros s cl ?%elem_of_nil|]. split; [|done].
    intros cl S. split.
    + intros Hcell. by apply createEmptyBoard_empty in Hcell.
    + by intros (s & ?%elem_of_nil & _).
Qed.

Section ServerFacts.

Variable trim : string → string.
Variable collapse_whitespace : string → string.

(** X9: in every registry the server can reach, the chat log of every room
    holds at most [MAX_CHAT_MESSAGES] entries. *)
Theorem chat_log_bounded rooms c r :
  reachable trim collapse_whitespace rooms → rooms !! c = Some r →
  (length (chat r) ≤ MAX_CHAT_MESSAGES)%nat.
Proof.
  intros Hreach Hr.
  by destruct (reachable_sound trim collapse_whitespace rooms Hreach c r Hr)
    as (_ & _ & ? & _).
Qed.

(** X10: in every registry the server can reach, every chat entry has a
    non-empty message, and a message written by a player is at most
    [MAX_CHAT_LENGTH] characters long. *)
Theorem chat_entries_visible rooms c r e :
  reachable trim collapse_whitespace rooms → rooms !! c = Some r →
  e ∈ chat r →
  message e ≠ ""
  ∧ (kind e = KindUser → (String.length (message e) ≤ MAX_CHAT_LENGTH)%nat).
Proof.
  intros Hreach Hr He.
  destruct (reachable_sound trim collapse_whitespace rooms Hreach c r Hr)
    as (_ & _ & _ & Hch & _).
  rewrite Forall_forall in Hch. by apply Hch.
Qed.

(** X8: in every registry the server can reach, a room is stored under its
    own code and seats one or two players: an emptied room is deleted and a
    third player is never seated. *)
Theorem rooms_seated rooms c r :
  reachable trim collapse_whitespace rooms → rooms !! c = Some r →
  code r = c ∧ (1 ≤ length (players r) ≤ 2)%nat.
Proof.
  intros Hreach Hr.
  destruct (reachable_sound trim collapse_whitespace rooms Hreach c r Hr)
    as (Hc & Hp & _).
  destruct (reachable_ok trim collapse_whitespace rooms Hreach c r Hr)
    as [Hlen _].
  split; [done|]. split; [|done]. destruct (players r); [done|simpl; lia].
Qed.

(** X12: in every registry the server can reach, no key is both a hit and a
    miss of the same player. *)
Theorem shots_disjoint rooms c r p :
  reachable trim collapse_whitespace rooms → rooms !! c = Some r →
  p ∈ players r → hits p ## misses p.
Proof.
  intros Hreach Hr Hp.
  destruct (reachable_sound trim collapse_whitespace rooms Hreach c r Hr)
    as (_ & _ & _ & _ & Hps).
  rewrite Forall_forall in Hps. by destruct (Hps p Hp) as (_ & _ & ? & _).
Qed.

(** X11: in every registry the server can reach, a stored user name is
    never the empty string and never longer than twenty characters. *)
Theorem usernames_bounded rooms c r p n :
  reachable trim collapse_whitespace rooms → rooms !! c = Some r →
  p ∈ players r → username p = Some n →
  n ≠ "" ∧ (String.length n ≤ 20)%nat.
Proof.
  intros Hreach Hr Hp Hn.
  destruct (reachable_sound trim collapse_whitespace rooms Hreach c r Hr)
    as (_ & _ & _ & _ & Hps).
  rewrite Forall_forall in Hps. destruct (Hps p Hp) as (Hu & _).
  by rewrite Hn in Hu.
Qed.

(** X13: in every registry the server can reach, the board of every player
    is a full cube that names a ship at exactly the cells of the ships
    stored for the player, and the stored ships are the whole catalog for a
    ready player and none for a player who is not ready. *)
Theorem boards_agree_with_fleets rooms c r p :
  reachable trim collapse_whitespace rooms → rooms !! c = Some r →
  p ∈ players r →
  cube (board p)
  ∧ (∀ cl S, cell_at (board p) cl = Some (Some S)
             ↔ ∃ s, s ∈ ships p ∧ name s = S ∧ cl ∈ cells s)
  ∧ name <$> ships p ≡ₚ (if ready p then catalog_names else []).
Proof.
  intros Hreach Hr Hp.
  destruct (reachable_sound trim collapse_whitespace rooms Hreach c r Hr)
    as (_ & _ & _ & _ & Hps).
  rewrite Forall_forall in Hps. destruct (Hps p Hp) as (_ & Hpl & _).
  by destruct (placed_spec p Hpl) as (? & _ & _ & _ & ? & ?).
Qed.

End ServerFacts.

Lemma boards_agree_with_fleets_witness :
  ∃ r p, started_game !! "123456" = Some r ∧ players r !! 1%nat = Some p
    ∧ cube (board p)
    ∧ (∀ cl S, cell_at (board p) cl = Some (Some S)
               ↔ ∃ s, s ∈ ships p ∧ name s = S ∧ cl ∈ cells s)
    ∧ name <$> ships p ≡ₚ (if ready p then catalog_names else []).
Proof.
  eexists _, _. split; [vm_compute; reflexivity|]. split; [reflexivity|].
  eapply (boards_agree_with_fleets as_is as_is started_game "123456");
    [exact started_game_reachable|vm_compute; reflexivity|].
  apply list_elem_of_lookup_2 with 1%nat. reflexivity.
Defined.

Lemma usernames_bounded_witness :
  ∃ r p, named_game !! "123456" = Some r ∧ players r !! 0%nat = Some p
    ∧ username p = Some "Admiral Grace Hopper"
    ∧ "Admiral Grace Hopper" ≠ ""
    ∧ (String.length "Admiral Grace Hopper" ≤ 20)%nat.
Proof.
  assert (Hseat : ∃ r p, named_game !! "123456" = Some r
            ∧ players r !! 0%nat = Some p
            ∧ username p = Some "Admiral Grace Hopper").
  { eexists _, _. split; [vm_compute; reflexivity|]. split; reflexivity. }
  destruct Hseat as (r & p & Hr & Hp & Hname). exists r, p.
  split; [exact Hr|]. split; [exact Hp|]. split; [exact Hname|].
  exact (usernames_bounded as_is as_is named_game "123456" r p _
           named_game_reachable Hr (list_elem_of_lookup_2 _ _ _ Hp) Hname).
Defined.

Lemma shots_disjoint_witness :
  ∃ r p, first_shot_fired !! "123456" = Some r ∧ players r !! 0%nat = Some p
    ∧ size (hits p) = 1%nat
    ∧ hits p ## misses p.
Proof.
  assert (Hshots : (r ← first_shot_fired !! "123456"; p ← players r !! 0%nat;
                    Some (size (hits p))) = Some 1%nat)
    by (vm_compute; reflexivity).
  destruct (first_shot_fired !! "123456") as [r|] eqn:Hr;
    [|discriminate Hshots].
  cbn [mbind option_bind] in Hshots.
  destruct (players r !! 0%nat) as [p|] eqn:Hp; [|discriminate Hshots].
  injection Hshots as Hsize. exists r, p.
  split; [reflexivity|]. split; [exact Hp|]. split; [exact Hsize|].
  exact (shots_disjoint as_is as_is first_shot_fired "123456" r p
           first_shot_fired_reachable Hr (list_elem_of_lookup_2 _ _ _ Hp)).
Defined.

Lemma rooms_seated_witness :
  ∃ r, started_game !! "123456" = Some r
    ∧ code r = "123456" ∧ (1 ≤ length (players r) ≤ 2)%nat.
Proof.
  eexists. split; [vm_compute; reflexivity|].
  apply (rooms_seated as_is as_is started_game "123456");
    [exact started_game_reachable|vm_compute; reflexivity].
Defined.

Lemma chat_entries_visible_witness :
  ∃ r, busy_chat !! "123456" = Some r ∧ ping ∈ chat r
    ∧ message ping ≠ ""
    ∧ (kind ping = KindUser
       → (String.length (message ping) ≤ MAX_CHAT_LENGTH)%nat).
Proof.
  eexists. split; [vm_compute; reflexivity|].
  split; [apply list_elem_of_lookup_2 with 0%nat; reflexivity|].
  eapply (chat_entries_visible as_is as_is busy_chat "123456");
    [exact busy_chat_reachable|vm_compute; reflexivity|].
  apply list_elem_of_lookup_2 with 0%nat. reflexivity.
Defined.

Lemma chat_log_bounded_witness :
  reachable as_is as_is busy_chat
  ∧ ∃ r, busy_chat !! "123456" = Some r
      ∧ (length (chat r) ≤ MAX_CHAT_MESSAGES)%nat.
Proof.
  split; [exact busy_chat_reachable|].
  eexists. split; [vm_compute; reflexivity|].
  apply (chat_log_bounded as_is as_is busy_chat "123456");
    [exact busy_chat_reachable|vm_compute; reflexivity].
Defined.

(** ** What an attack reports *)

Lemma length_filter_all {A} (P : A → Prop) `{∀ x, Decision (P x)}
    (l : list A) :
  length (filter P l) = length l ↔ Forall P l.
Proof.
  induction l as [|a l IH]; [by split|].
  destruct (decide (P a)) as [Ha|Ha].
  - rewrite filter_cons_True by done. simpl. rewrite Forall_cons.
    split; [intros [=]; split; [done|by apply IH]|].
    intros [_ Hl]. f_equal. by apply IH.
  - rewrite filter_cons_False by done. rewrite Forall_cons. split.
    + intros Hlen. pose proof (length_filter P l). simpl in Hlen. lia.
    + by intros [? _].
Qed.

(** The whole of an accepted attack: the checks passed, the value read
    from the opponent's board, the result and the outcome. *)
Lemma attack_inversion socket c t rooms p :
  answer (attack socket c t rooms) = ReplyAttack p →
  ∃ r j opponent i pl found res,
    rooms !! c = Some r ∧ turn r = Some socket
    ∧ getOpponent r socket = Some (j, opponent)
    ∧ getPlayer r socket = Some (i, pl)
    ∧ off_board t = false
    ∧ (coordKey (px t) (py t) (pz t) ∉ hits pl)
    ∧ (coordKey (px t) (py t) (pz t) ∉ misses pl)
    ∧ board_get (board opponent) (px t) (py t) (pz t) = Some found
    ∧ let k := coordKey (px t) (py t) (pz t) in
      let hits' := if truthy found then {[k]} ∪ hits pl else hits pl in
      let misses' := if truthy found then misses pl else {[k]} ∪ misses pl in
      let p' := Player (id pl) (ready pl) (board pl) (ships pl) hits' misses'
                       (username pl) in
      let r1 := with_players r (<[i := p']> (players r)) in
      attack socket c t rooms
      = resolve socket c t res (if truthy found then found else None)
                opponent hits' r1 rooms
      ∧ if truthy found then
          ∃ n s, list_find (λ s, Some (name s) = found) (ships opponent)
                 = Some (n, s)
            ∧ res = if (length (filter (λ cl, cellKey cl ∈ hits') (cells s))
                        =? length (cells s))%nat
                    then Sunk else Hit
        else res = Miss.
Proof.
  unfold attack, off_board.
  destruct (rooms !! c) as [r|]; [|done].
  case_bool_decide as Hturn; [|done]. simpl.
  destruct (getOpponent r socket) as [[j opponent]|] eqn:Ho; [|done].
  destruct (getPlayer r socket) as [[i pl]|] eqn:Hp; [|done].
  destruct (_ || _) eqn:Hoff; [done|].
  destruct (bool_decide (_ ∈ hits pl)) eqn:Hh; [done|].
  destruct (bool_decide (_ ∈ misses pl)) eqn:Hm; [done|]. simpl.
  apply bool_decide_eq_false in Hh, Hm.
  destruct (board_get _ _ _ _) as [found|] eqn:Hfound; [|done].
  destruct (truthy found) eqn:Htruthy.
  - destruct (list_find _ _) as [[n s]|] eqn:Hfind; [|done]. intros _.
    exists r, j, opponent, i, pl, found. rewrite Htruthy.
    eexists. repeat (split; [done|]). by exists n, s.
  - intros _. exists r, j, opponent, i, pl, found, Miss. rewrite Htruthy.
    repeat (split; [done|]). done.
Qed.

(** On a cube, whole coordinates that pass the bounds test of [attack] on
    the first two axes find a column. *)
Lemma board_get_cube_whole b x y z :
  cube b → off_board (Coords (JInt x) (JInt y) z) = false →
  is_Some (board_get b (JInt x) (JInt y) z).
Proof.
  intros [Hlen Hplanes] Hoff. unfold off_board in Hoff. simpl in Hoff.
  rewrite !orb_false_iff in Hoff.
  destruct Hoff as (((((Hx0 & Hy0) & _) & Hx5) & Hy5) & _).
  apply Z.ltb_ge in Hx0, Hy0. apply Z.leb_gt in Hx5, Hy5.
  unfold board_get. rewrite array_get_index by done.
  destruct (lookup_lt_is_Some_2 b (Z.to_nat x)) as [plane Hplane];
    [unfold BOARD_SIZE in *; lia|].
  rewrite Hplane. cbn [mbind option_bind]. rewrite array_get_index by done.
  rewrite Forall_lookup in Hplanes.
  destruct (Hplanes _ _ Hplane) as [Hplen _].
  destruct (lookup_lt_is_Some_2 plane (Z.to_nat y)) as [column Hcolumn];
    [unfold BOARD_SIZE in *; lia|].
  rewrite Hcolumn. by eexists.
Qed.

Section ServerAttacks.

Variable trim : string → string.
Variable collapse_whitespace : string → string.

(** With a callback, [attack] ends in an uncaught error only for a target
    whose first or second axis is not a whole number, and then it has
    changed and broadcast nothing. *)
Lemma attack_throws_off_grid socket c t rooms :
  reachable trim collapse_whitespace rooms →
  answer (attack socket c t rooms) = Uncaught →
  Number_isInteger (px t) && Number_isInteger (py t) = false
  ∧ registry (attack socket c t rooms) = rooms
  ∧ emitted (attack socket c t rooms) = [].
Proof.
  intros Hreach. apply reachable_sound in Hreach. unfold attack.
  destruct (rooms !! c) as [r|] eqn:Hr; [|done].
  case_bool_decide as Hturn; [|done]. simpl.
  destruct (getOpponent r socket) as [[j opponent]|] eqn:Ho; [|done].
  destruct (getPlayer r socket) as [[i pl]|] eqn:Hp; [|done].
  destruct (_ || _) eqn:Hoff; [done|].
  destruct (bool_decide (_ ∈ hits pl)); [done|].
  destruct (bool_decide (_ ∈ misses pl)); [done|]. simpl.
  apply getOpponent_lookup in Ho.
  destruct (Hreach c r Hr) as (_ & _ & _ & _ & Hps).
  rewrite Forall_lookup in Hps. destruct (Hps j opponent Ho) as (_ & Hpl & _).
  destruct (placed_spec opponent Hpl) as (Hcube & _ & _ & _ & Hboard & _).
  destruct (board_get _ _ _ _) as [found|] eqn:Hfound.
  - destruct (truthy found) eqn:Htruthy; [|by unfold resolve].
    destruct (list_find _ _) as [[n s]|] eqn:Hfind; [by unfold resolve|].
    destruct found as [S|]; [|done].
    destruct (board_get_cube _ _ _ _ _ Hcube Hfound) as (cl & _ & _ & Hcl).
    apply Hboard in Hcl as (s & Hs & <- & _).
    apply list_find_None in Hfind. rewrite Forall_forall in Hfind.
    by destruct (Hfind s Hs).
  - intros _. split; [|done].
    destruct t as [[x| | |] [y| | |] z]; simpl; try done.
    destruct (board_get_cube_whole (board opponent) x y z Hcube Hoff)
      as [v Hv].
    simpl in Hfound. congruence.
Qed.

(** X18: for a target whose axes are numbers, in a registry the server can
    reach.  Sent without an acknowledgement callback, [attack] always ends
    in an uncaught error, as every path of the handler ends in a call of
    the callback, and it has stored and broadcast what it stores and
    broadcasts when it is sent with one.  Sent with a callback, it ends in
    an uncaught error only for a target whose first or second axis is not
    a whole number, and then it has changed and broadcast nothing. *)
Theorem attack_throws_only_off_grid socket c t rooms :
  reachable trim collapse_whitespace rooms →
  (answer (on_attack false socket c t rooms) = Uncaught
   ∧ registry (on_attack false socket c t rooms)
     = registry (on_attack true socket c t rooms)
   ∧ emitted (on_attack false socket c t rooms)
     = emitted (on_attack true socket c t rooms))
  ∧ (answer (on_attack true socket c t rooms) = Uncaught →
     Number_isInteger (px t) && Number_isInteger (py t) = false
     ∧ registry (on_attack true socket c t rooms) = rooms
     ∧ emitted (on_attack true socket c t rooms) = []).
Proof.
  intros Hreach. split.
  - by rewrite !on_attack_outcome.
  - rewrite on_attack_callback.
    by apply attack_throws_off_grid.
Qed.

(** X16: in a registry the server can reach, an accepted attack reports a
    miss exactly when no ship of the opponent holds the target cell, names
    the ship whose cell it is otherwise, and reports that ship sunk exactly
    when all its other cells were hit before. *)
Theorem attack_result_meaning socket c t rooms p :
  reachable trim collapse_whitespace rooms →
  answer (attack socket c t rooms) = ReplyAttack p →
  ∃ r j opponent i pl,
    rooms !! c = Some r
    ∧ getOpponent r socket = Some (j, opponent)
    ∧ getPlayer r socket = Some (i, pl)
    ∧ let k := coordKey (px t) (py t) (pz t) in
      (result p = Miss
       ↔ ∀ s cl, s ∈ ships opponent → cl ∈ cells s → cellKey cl ≠ k)
      ∧ (∀ S, shipName p = Some S
              ↔ ∃ s cl, s ∈ ships opponent ∧ name s = S ∧ cl ∈ cells s
                        ∧ cellKey cl = k)
      ∧ (result p = Sunk
         ↔ ∃ s cl, s ∈ ships opponent ∧ cl ∈ cells s ∧ cellKey cl = k
             ∧ ∀ cl', cl' ∈ cells s →
                 cellKey cl' = k ∨ cellKey cl' ∈ hits pl).
Proof.
  intros Hreach Hans. apply reachable_sound in Hreach.
  destruct (attack_inversion _ _ _ _ _ Hans)
    as (r & j & opponent & i & pl & found & res & Hr & Hturn & Ho & Hp & Hoff
        & Hh & Hm & Hfound & Hattack & Hres).
  exists r, j, opponent, i, pl. do 3 (split; [done|]).
  cbv zeta in Hattack. rewrite Hattack in Hans. unfold resolve in Hans.
  simpl in Hans. injection Hans as <-. cbn [result shipName].
  apply getOpponent_lookup in Ho.
  destruct (Hreach c r Hr) as (_ & _ & _ & _ & Hps).
  rewrite Forall_lookup in Hps. destruct (Hps j opponent Ho) as (_ & Hpl & _).
  destruct (placed_spec opponent Hpl)
    as (Hcube & Hnd & Hcat & _ & Hboard & _).
  set (k := coordKey (px t) (py t) (pz t)) in *.
  assert (Hcell : ∀ s cl, s ∈ ships opponent → cl ∈ cells s →
            cellKey cl = k → found = Some (name s)).
  { intros s cl Hs Hcl Hk.
    assert (Hat : cell_at (board opponent) cl = Some (Some (name s)))
      by (apply Hboard; eauto).
    unfold cell_at in Hat. unfold k, cellKey, coordKey in Hk.
    injection Hk as Hx Hy Hz. rewrite Hx, Hy, Hz in Hat. congruence. }
  destruct (truthy found) eqn:Htruthy.
  - destruct Hres as (n & s0 & Hfind & ->).
    destruct found as [S|]; [|done].
    destruct (board_get_cube _ _ _ _ _ Hcube Hfound) as (cl & _ & Hk & Hcl).
    apply Hboard in Hcl as (s & Hs & <- & Hcl).
    apply list_find_Some in Hfind as (Hs0%list_elem_of_lookup_2 & [= Hname]
                                       & _).
    assert (s0 = s) as ->.
    { apply list_elem_of_lookup in Hs0 as [a Ha], Hs as [b Hb].
      assert (a = b) as ->; [|congruence].
      apply (NoDup_lookup _ _ _ (name s) Hnd); rewrite list_lookup_fmap.
      - rewrite Ha. simpl. by rewrite Hname.
      - by rewrite Hb. }
    split; [|split].
    + split; [by destruct (_ =? _)%nat|].
      intros Hnone. by destruct (Hnone s cl Hs Hcl).
    + intros S. split.
      * intros [= <-]. by exists s, cl.
      * intros (s' & cl' & Hs' & <- & Hcl' & Hk').
        by rewrite (Hcell s' cl' Hs' Hcl' Hk').
    + destruct (_ =? _)%nat eqn:Hcount.
      * split; [intros _|done]. exists s, cl. do 3 (split; [done|]).
        apply Nat.eqb_eq, length_filter_all in Hcount.
        rewrite Forall_forall in Hcount. intros cl' Hcl'.
        apply Hcount in Hcl'.
        apply elem_of_union in Hcl' as [->%elem_of_singleton|?]; eauto.
      * split; [done|]. intros (s' & cl' & Hs' & Hcl' & Hk' & Hall).
        apply Nat.eqb_neq in Hcount. destruct Hcount.
        apply length_filter_all, Forall_forall.
        assert (Some (name s) = Some (name s')) as [= Hsame]
          by eauto using Hcell.
        assert (s' = s) as ->.
        { apply list_elem_of_lookup in Hs' as [a Ha], Hs as [b Hb].
          assert (a = b) as ->; [|congruence].
          apply (NoDup_lookup _ _ _ (name s) Hnd); rewrite list_lookup_fmap.
          - rewrite Ha. simpl. by rewrite Hsame.
          - by rewrite Hb. }
        intros cl0 Hcl0. apply elem_of_union.
        destruct (Hall cl0 Hcl0) as [->|?]; [left|by right].
        by apply elem_of_singleton.
  - rewrite Hres. split; [|split].
    + split; [|done]. intros _ s cl Hs Hcl Hk'.
      rewrite (Hcell s cl Hs Hcl Hk') in Htruthy.
      by rewrite (catalog_name_truthy _ _ (Hcat s Hs)) in Htruthy.
    + intros S. split; [done|].
      intros (s & cl & Hs & <- & Hcl & Hk').
      rewrite (Hcell s cl Hs Hcl Hk') in Htruthy.
      by rewrite (catalog_name_truthy _ _ (Hcat s Hs)) in Htruthy.
    + split; [done|]. intros (s & cl & Hs & Hcl & Hk' & _).
      rewrite (Hcell s cl Hs Hcl Hk') in Htruthy.
      by rewrite (catalog_name_truthy _ _ (Hcat s Hs)) in Htruthy.
Qed.

End ServerAttacks.

Lemma attack_result_meaning_witness :
  ∃ p, answer (attack "a" "123456" (at_ 3 3 3) started_game) = ReplyAttack p
    ∧ result p = Hit ∧ shipName p = Some "Destroyer"
    ∧ ∃ r j opponent,
        started_game !! "123456" = Some r
        ∧ getOpponent r "a" = Some (j, opponent)
        ∧ ∃ s cl, s ∈ ships opponent ∧ name s = "Destroyer" ∧ cl ∈ cells s
            ∧ cellKey cl = coordKey (JInt 3) (JInt 3) (JInt 3).
Proof.
  eexists. split; [vm_compute; reflexivity|].
  split; [reflexivity|]. split; [reflexivity|].
  edestruct (attack_result_meaning as_is as_is "a" "123456" (at_ 3 3 3)
               started_game)
    as (r & j & opponent & i & pl & Hr & Ho & _ & _ & Hname & _);
    [exact started_game_reachable|vm_compute; reflexivity|].
  exists r, j, opponent. split; [exact Hr|]. split; [exact Ho|].
  apply Hname. reflexivity.
Defined.

Lemma attack_throws_only_off_grid_witness :
  answer (on_attack true "a" "123456" fractional_row started_game) = Uncaught
  ∧ Number_isInteger (px fractional_row)
    && Number_isInteger (py fractional_row) = false
  ∧ registry (on_attack true "a" "123456" fractional_row started_game)
    = started_game
  ∧ emitted (on_attack true "a" "123456" fractional_row started_game) = []
  ∧ answer (on_attack false "a" "123456" (at_ 0 0 0) started_game) = Uncaught.
Proof.
  assert (Hthrown : answer (on_attack true "a" "123456" fractional_row
                              started_game) = Uncaught)
    by (vm_compute; reflexivity).
  split; [exact Hthrown|].
  destruct (attack_throws_only_off_grid as_is as_is "a" "123456"
              fractional_row started_game started_game_reachable)
    as [_ Hwith].
  destruct (Hwith Hthrown) as (Hwhole & Hsame & Hnone).
  split; [exact Hwhole|]. split; [exact Hsame|]. split; [exact Hnone|].
  destruct (attack_throws_only_off_grid as_is as_is "a" "123456"
              (at_ 0 0 0) started_game started_game_reachable)
    as [(Hwithout & _) _].
  exact Hwithout.
Defined.

(** ** Rooms and records are private *)

Lemma foldl_invariant {A B} (f : A → B → A) (I : A → Prop) (l : list B) a :
  (∀ a b, b ∈ l → I a → I (f a b)) → I a → I (foldl f a l).
Proof.
  revert a. induction l as [|b l IH]; intros a Hstep Ha; [done|].
  simpl. apply IH.
  - intros a' b' Hb'. apply Hstep. by right.
  - apply Hstep; [by left|done].
Qed.

Lemma emitRoomState_code c rooms c' m :
  (c', m) ∈ emitRoomState c rooms → c' = c.
Proof.
  unfold emitRoomState. destruct (rooms !! c); [|by intros ?%elem_of_nil].
  by intros [= -> _]%list_elem_of_singleton.
Qed.

(** Replacing the record of [socket] leaves the records of the other
    sockets seated. *)
Lemma elem_of_insert_other (l : list player) i q q' p :
  l !! i = Some q → p ∈ l → id p ≠ id q → p ∈ <[i := q']> l.
Proof.
  intros Hi [k Hk]%list_elem_of_lookup Hid.
  apply list_elem_of_lookup. exists k.
  rewrite list_lookup_insert_ne; [done|]. intros ->. congruence.
Qed.

Section ServerPrivacy.

Variable trim : string → string.
Variable collapse_whitespace : string → string.

(** X1: whatever the handler, an event that is answered with an error has
    changed nothing in the registry and has broadcast nothing. *)
Theorem handle_error_unchanged e rooms msg :
  answer (handle trim collapse_whitespace e rooms) = ReplyError msg →
  registry (handle trim collapse_whitespace e rooms) = rooms
  ∧ emitted (handle trim collapse_whitespace e rooms) = [].
Proof.
  destruct e as [socket c now|socket c now|socket c newname now
                |socket c submitted|socket c t|socket c raw now
                |socket joined now]; cbn [handle addressed].
  - unfold createGame. cbv zeta.
    by destruct (emitSystemChat _ _ _ _ _) as [[? ?] ?].
  - unfold joinGame. destruct (rooms !! c) as [r|]; [|done].
    destruct (2 <=? _)%nat; [done|]. cbv zeta.
    by destruct (emitSystemChat _ _ _ _ _) as [[? ?] ?].
  - unfold setUsername. destruct (rooms !! c) as [r|]; [|done].
    destruct (getPlayer r socket) as [[i p]|]; [|done]. cbv zeta.
    destruct (if String.eqb _ "" then None else Some _); [|done].
    case_bool_decide; [|done].
    by destruct (emitSystemChat _ _ _ _ _) as [[? ?] ?].
  - unfold placeShips. destruct (rooms !! c) as [r|]; [|done].
    destruct (getPlayer r socket) as [[i p]|]; [|done].
    destruct (validate submitted); [|done]. cbv zeta.
    by destruct (_ && _).
  - unfold attack. destruct (rooms !! c) as [r|]; [|done].
    destruct (negb _); [done|].
    destruct (getOpponent r socket) as [[j opponent]|]; [|done].
    destruct (getPlayer r socket) as [[i p]|]; [|done]. cbv zeta.
    destruct (_ || _); [done|].
    destruct (bool_decide (_ ∈ hits p) || _); [done|].
    destruct (board_get _ _ _ _) as [found|]; [|done].
    destruct (truthy found); [|by unfold resolve].
    destruct (list_find _ _) as [[? s]|]; [by unfold resolve|done].
  - unfold chatMessage. destruct (rooms !! c) as [r|]; [|done].
    destruct (getPlayer r socket) as [[i p]|]; [|done].
    destruct (sanitizeChatMessage _ _ _); [|done].
    by destruct (recordAndBroadcastChat _ _ _ _) as [[? ?] ?].
  - unfold disconnecting. by destruct (foldl _ _ _).
Qed.

(** X2: an event changes no room but the ones it names: the room of its
    code, or for a disconnection the rooms the socket had joined. *)
Theorem handle_other_rooms e rooms c :
  c ∉ addressed e →
  registry (handle trim collapse_whitespace e rooms) !! c = rooms !! c.
Proof.
  destruct e as [socket c0 now|socket c0 now|socket c0 newname now
                |socket c0 submitted|socket c0 t|socket c0 raw now
                |socket joined now]; cbn [handle addressed];
    [intros Hne%not_elem_of_cons%proj1..|intros Hjoined].
  - unfold createGame, emitSystemChat, recordAndBroadcastChat. simpl.
    by rewrite !lookup_insert_ne.
  - unfold joinGame, emitSystemChat, recordAndBroadcastChat.
    destruct (rooms !! c0) as [r|]; [|done].
    destruct (2 <=? _)%nat; [done|]. simpl.
    by rewrite !lookup_insert_ne.
  - unfold setUsername, emitSystemChat, recordAndBroadcastChat.
    destruct (rooms !! c0) as [r|]; [|done].
    destruct (getPlayer r socket) as [[i p]|]; [|done]. cbv zeta.
    destruct (if String.eqb _ "" then None else Some _);
      [|simpl; by rewrite lookup_insert_ne].
    case_bool_decide; [|simpl; by rewrite lookup_insert_ne].
    destruct (String.eqb _ ""); simpl; by rewrite !lookup_insert_ne.
  - unfold placeShips. destruct (rooms !! c0) as [r|]; [|done].
    destruct (getPlayer r socket) as [[i p]|]; [|done].
    destruct (validate submitted); [|done]. cbv zeta.
    destruct (_ && _); simpl; by rewrite !lookup_insert_ne.
  - unfold attack. destruct (rooms !! c0) as [r|]; [|done].
    destruct (negb _); [done|].
    destruct (getOpponent r socket) as [[j opponent]|]; [|done].
    destruct (getPlayer r socket) as [[i p]|]; [|done]. cbv zeta.
    destruct (_ || _); [done|].
    destruct (bool_decide (_ ∈ hits p) || _); [done|].
    destruct (board_get _ _ _ _) as [found|]; [|done].
    destruct (truthy found).
    + destruct (list_find _ _) as [[? s]|]; unfold resolve; simpl;
        by rewrite lookup_insert_ne.
    + unfold resolve. simpl. by rewrite lookup_insert_ne.
  - unfold chatMessage, recordAndBroadcastChat.
    destruct (rooms !! c0) as [r|]; [|done].
    destruct (getPlayer r socket) as [[i p]|]; [|done].
    destruct (sanitizeChatMessage _ _ _); [|done]. simpl.
    by rewrite lookup_insert_ne.
  - unfold disconnecting.
    assert (Hfold : (foldl (leave_room trim socket now) ([], rooms)
                       (filter (λ c, is_Some (rooms !! c)) joined)).2 !! c
                    = rooms !! c).
    { apply (foldl_invariant _ (λ acc, acc.2 !! c = rooms !! c)); [|done].
      intros [out rs] c' [_ Hc']%list_elem_of_filter Hacc. simpl in Hacc.
      rewrite leave_room_other; [done|]. by intros ->. }
    by destruct (foldl _ _ _).
Qed.

(** X3: every message an event broadcasts goes to a room the event names. *)
Theorem handle_broadcasts_addressed e rooms c m :
  (c, m) ∈ emitted (handle trim collapse_whitespace e rooms) →
  c ∈ addressed e.
Proof.
  assert (Hin : ∀ c0 (l : list (string * broadcast)),
            (∀ x, x ∈ l → x.1 = c0) → (c, m) ∈ l → c ∈ [c0]).
  { intros c0 l Hl Hcm. apply list_elem_of_singleton. by apply (Hl (c, m)). }
  assert (Hstate : ∀ c0 rs x, x ∈ emitRoomState c0 rs → x.1 = c0)
    by (intros c0 rs [c' m']; apply emitRoomState_code).
  assert (Hchat : ∀ r c0 msg now rs x,
            x ∈ (emitSystemChat r c0 msg now rs).2 → x.1 = c0).
  { intros r c0 msg now rs x. unfold emitSystemChat, recordAndBroadcastChat.
    destruct (String.eqb msg ""); simpl; [by intros ?%elem_of_nil|].
    by intros ->%list_elem_of_singleton. }
  destruct e as [socket c0 now|socket c0 now|socket c0 newname now
                |socket c0 submitted|socket c0 t|socket c0 raw now
                |socket joined now]; cbn [handle addressed].
  - unfold createGame. cbv zeta.
    destruct (emitSystemChat _ _ _ _ _) as [[? ?] out] eqn:Hout.
    apply Hin. intros x [?|Hx]%elem_of_app; [by eapply Hstate|].
    eapply Hchat. by rewrite Hout.
  - unfold joinGame. destruct (rooms !! c0) as [r|];
      [|by intros ?%elem_of_nil].
    destruct (2 <=? _)%nat; [by intros ?%elem_of_nil|]. cbv zeta.
    destruct (emitSystemChat _ _ _ _ _) as [[? ?] out] eqn:Hout.
    apply Hin. intros x [->|[Hx|?]%elem_of_app]%elem_of_cons;
      [done| |by eapply Hstate].
    eapply Hchat. by rewrite Hout.
  - unfold setUsername. destruct (rooms !! c0) as [r|];
      [|by intros ?%elem_of_nil].
    destruct (getPlayer r socket) as [[i p]|]; [|by intros ?%elem_of_nil].
    cbv zeta.
    assert (Hout1 : ∀ rs (names : list (string * option string)) x,
              x ∈ (emitRoomState c0 rs ++ [(c0, UsernameUpdate names)])%list →
              x.1 = c0).
    { intros rs names x [?|Hx%list_elem_of_singleton]%elem_of_app;
        [by eapply Hstate|by subst]. }
    destruct (if String.eqb _ "" then None else Some _);
      [|apply Hin, Hout1].
    case_bool_decide; [|apply Hin, Hout1].
    destruct (emitSystemChat _ _ _ _ _) as [[? ?] out] eqn:Hout.
    apply Hin. intros x [?|Hx]%elem_of_app; [by eapply Hout1|].
    eapply Hchat. by rewrite Hout.
  - unfold placeShips. destruct (rooms !! c0) as [r|];
      [|by intros ?%elem_of_nil].
    destruct (getPlayer r socket) as [[i p]|]; [|by intros ?%elem_of_nil].
    destruct (validate submitted); [|by intros ?%elem_of_nil]. cbv zeta.
    destruct (_ && _); cbn [emitted]; apply Hin; intros x;
      rewrite !elem_of_app; intros [?|Hx]; try (by eapply Hstate).
    + destruct Hx as [Hx%list_elem_of_singleton|?];
        [by subst|by eapply Hstate].
    + by apply list_elem_of_singleton in Hx as ->.
  - unfold attack. destruct (rooms !! c0) as [r|];
      [|by intros ?%elem_of_nil].
    destruct (negb _); [by intros ?%elem_of_nil|].
    destruct (getOpponent r socket) as [[j opponent]|];
      [|by intros ?%elem_of_nil].
    destruct (getPlayer r socket) as [[i p]|]; [|by intros ?%elem_of_nil].
    cbv zeta.
    destruct (_ || _); [by intros ?%elem_of_nil|].
    destruct (bool_decide (_ ∈ hits p) || _); [by intros ?%elem_of_nil|].
    destruct (board_get _ _ _ _) as [found|]; [|by intros ?%elem_of_nil].
    assert (Hres : ∀ res hitName hits' r1,
              (c, m) ∈ emitted (resolve socket c0 t res hitName opponent
                                  hits' r1 rooms) → c ∈ [c0]).
    { intros res hitName hits' r1. unfold resolve. simpl. apply Hin.
      intros x [->|?]%elem_of_cons; [done|by eapply Hstate]. }
    destruct (truthy found); [|apply Hres].
    destruct (list_find _ _) as [[? s]|]; [apply Hres|].
    by intros ?%elem_of_nil.
  - unfold chatMessage, recordAndBroadcastChat.
    destruct (rooms !! c0) as [r|]; [|by intros ?%elem_of_nil].
    destruct (getPlayer r socket) as [[i p]|]; [|by intros ?%elem_of_nil].
    destruct (sanitizeChatMessage _ _ _); [|by intros ?%elem_of_nil].
    simpl. by intros [= -> _]%list_elem_of_singleton; left.
  - unfold disconnecting.
    assert (Hfold : ∀ x,
              x ∈ (foldl (leave_room trim socket now) ([], rooms)
                     (filter (λ c, is_Some (rooms !! c)) joined)).1 →
              x.1 ∈ joined).
    { apply (foldl_invariant _ (λ acc, ∀ x, x ∈ acc.1 → x.1 ∈ joined));
        [|by intros x ?%elem_of_nil].
      intros [out rs] c' [_ Hc']%list_elem_of_filter Hacc x. simpl in Hacc.
      pose proof (leave_room_exact trim socket now out rs c') as Hspec.
      destruct (rs !! c') as [r|]; [|rewrite Hspec; apply Hacc].
      case_decide; [|cbv zeta in Hspec]; rewrite Hspec; cbn [fst];
        rewrite !elem_of_app, ?list_elem_of_singleton.
      - intros [?| ->]; [by apply Hacc|done].
      - intros [?|[ ->|[ ->|Hx]]]; [by apply Hacc|done|done|].
        destruct x as [c1 m1]. by apply emitRoomState_code in Hx as ->. }
    destruct (foldl _ _ _) as [out rs]. intros Hcm. apply (Hfold (c, m) Hcm).
Qed.

End ServerPrivacy.

Lemma handle_broadcasts_addressed_witness :
  ∃ m, ("123456", m)
       ∈ emitted (handle as_is as_is (Attack "a" "123456" (at_ 3 3 3))
                    started_game)
    ∧ "123456" ∈ addressed (Attack "a" "123456" (at_ 3 3 3)).
Proof.
  assert (Hin : ∃ m, ("123456", m)
            ∈ emitted (handle as_is as_is (Attack "a" "123456" (at_ 3 3 3))
                         started_game)).
  { eexists. apply list_elem_of_lookup_2 with 0%nat. vm_compute. reflexivity. }
  destruct Hin as [m Hm]. exists m. split; [exact Hm|].
  exact (handle_broadcasts_addressed as_is as_is _ _ _ _ Hm).
Defined.

Lemma handle_other_rooms_witness :
  is_Some (two_rooms !! "654321")
  ∧ "654321" ∉ addressed (Attack "a" "123456" (at_ 3 3 3))
  ∧ (registry (handle as_is as_is (Attack "a" "123456" (at_ 3 3 3))
                 two_rooms) !! "654321")
    = (two_rooms !! "654321").
Proof.
  split; [eexists; vm_compute; reflexivity|].
  assert (Hout : "654321" ∉ addressed (Attack "a" "123456" (at_ 3 3 3))).
  { simpl. intros Hin%list_elem_of_singleton. discriminate Hin. }
  split; [exact Hout|].
  exact (handle_other_rooms as_is as_is (Attack "a" "123456" (at_ 3 3 3))
           two_rooms "654321" Hout).
Defined.

Lemma handle_error_unchanged_witness :
  answer (handle as_is as_is (JoinGame "c" "123456" 9) started_game)
  = ReplyError "Room is full."
  ∧ registry (handle as_is as_is (JoinGame "c" "123456" 9) started_game)
    = started_game
  ∧ emitted (handle as_is as_is (JoinGame "c" "123456" 9) started_game) = [].
Proof.
  split; [vm_compute; reflexivity|].
  apply (handle_error_unchanged as_is as_is (JoinGame "c" "123456" 9)
           started_game "Room is full.").
  vm_compute; reflexivity.
Defined.

Section ServerRecords.

Variable trim : string → string.
Variable collapse_whitespace : string → string.

Lemma leave_room_other_record socket now out rooms c' c r p :
  rooms !! c = Some r → p ∈ players r → id p ≠ socket →
  ∃ r', (leave_room trim socket now (out, rooms) c').2 !! c = Some r'
    ∧ p ∈ players r'.
Proof.
  intros Hr Hp Hid. destruct (decide (c' = c)) as [->|Hne].
  - pose proof (leave_room_exact trim socket now out rooms c) as Hspec.
    rewrite Hr in Hspec.
    assert (Hrem : p ∈ filter (λ q, id q ≠ socket) (players r))
      by (by apply list_elem_of_filter).
    rewrite decide_False in Hspec
      by (intros Hnil; rewrite Hnil in Hrem; by apply elem_of_nil in Hrem).
    cbv zeta in Hspec. rewrite Hspec. simpl. rewrite lookup_insert_eq.
    eexists. split; [done|]. unfold room_left.
    match goal with |- context [trimChatHistory ?u] =>
      by destruct (trimChatHistory_seats u) as [-> _]
    end.
  - exists r. by rewrite leave_room_other.
Qed.

(** X4: an event never changes or removes the record of a player whose
    socket is not the sender: after the event the record is still seated, as
    it was, in the same room. *)
Theorem handle_other_records e rooms c r p :
  enabled e rooms → rooms !! c = Some r → p ∈ players r →
  id p ≠ sender e →
  ∃ r', registry (handle trim collapse_whitespace e rooms) !! c = Some r'
    ∧ p ∈ players r'.
Proof.
  intros Hen Hr Hp Hid.
  destruct e as [socket c0 now|socket c0 now|socket c0 newname now
                |socket c0 submitted|socket c0 t|socket c0 raw now
                |socket joined now]; cbn [handle sender enabled] in *.
  - unfold createGame. cbv zeta.
    match goal with |- context [emitSystemChat ?r0 c0 ?msg now ?rs] =>
      destruct (emitSystemChat_spec r0 c0 msg now rs)
        as (r' & out & -> & _)
    end.
    assert (c ≠ c0) by congruence.
    exists r. split; [|done]. simpl. by rewrite !lookup_insert_ne.
  - unfold joinGame. destruct (rooms !! c0) as [r0|] eqn:Hr0; [|eauto].
    destruct (2 <=? _)%nat; [eauto|]. cbv zeta.
    match goal with |- context [emitSystemChat ?r1 c0 ?msg now ?rs] =>
      destruct (emitSystemChat_spec r1 c0 msg now rs)
        as (r' & out & -> & Hp' & _)
    end. simpl.
    destruct (decide (c = c0)) as [->|Hne];
      [|exists r; by rewrite !lookup_insert_ne].
    rewrite lookup_insert_eq. exists r'. split; [done|]. rewrite Hp'. simpl.
    apply elem_of_app. left. congruence.
  - unfold setUsername. destruct (rooms !! c0) as [r0|] eqn:Hr0; [|eauto].
    destruct (getPlayer r0 socket) as [[i q]|] eqn:Hq; [|eauto]. cbv zeta.
    apply getPlayer_lookup in Hq as [Hi Hq].
    set (username' := if String.eqb _ "" then None else Some _).
    set (q' := Player _ _ _ _ _ _ _).
    set (r1 := with_players r0 _).
    assert (Hseat : ∀ r', players r' = players r1 → c = c0 → p ∈ players r').
    { intros r' -> ->. simpl. apply elem_of_insert_other with q; [done| |].
      - congruence.
      - congruence. }
    assert (Hout : ∀ (rs : gmap string room) r',
              rs !! c0 = Some r' → players r' = players r1 →
              (∀ c', c' ≠ c0 → rs !! c' = rooms !! c') →
              ∃ r'', rs !! c = Some r'' ∧ p ∈ players r'').
    { intros rs r' Hrs Hps Hother. destruct (decide (c = c0)) as [->|Hne].
      - exists r'. split; [done|]. by apply Hseat.
      - exists r. by rewrite Hother. }
    destruct username' as [n|].
    + case_bool_decide.
      * match goal with |- context [emitSystemChat r1 c0 ?msg now ?rs] =>
          destruct (emitSystemChat_spec r1 c0 msg now rs)
            as (r' & out & -> & Hp' & _)
        end. simpl. destruct (String.eqb _ "").
        -- apply (Hout _ r1); [by rewrite lookup_insert_eq|done|].
           intros c' ?. by rewrite lookup_insert_ne.
        -- apply (Hout _ r'); [by rewrite lookup_insert_eq|done|].
           intros c' ?. by rewrite !lookup_insert_ne.
      * simpl. apply (Hout _ r1); [by rewrite lookup_insert_eq|done|].
        intros c' ?. by rewrite lookup_insert_ne.
    + simpl. apply (Hout _ r1); [by rewrite lookup_insert_eq|done|].
      intros c' ?. by rewrite lookup_insert_ne.
  - unfold placeShips. destruct (rooms !! c0) as [r0|] eqn:Hr0; [|eauto].
    destruct (getPlayer r0 socket) as [[i q]|] eqn:Hq; [|eauto].
    destruct (validate submitted); [|eauto]. cbv zeta.
    apply getPlayer_lookup in Hq as [Hi Hq].
    set (q' := Player _ _ _ _ _ _ _).
    destruct (decide (c = c0)) as [->|Hne];
      [|exists r; destruct (_ && _); simpl; by rewrite !lookup_insert_ne].
    assert (p ∈ <[i := q']> (players r0)).
    { apply elem_of_insert_other with q; [done| |]; congruence. }
    destruct (_ && _); simpl; rewrite lookup_insert_eq; eauto.
  - unfold attack. destruct (rooms !! c0) as [r0|] eqn:Hr0; [|eauto].
    destruct (negb _); [eauto|].
    destruct (getOpponent r0 socket) as [[j opponent]|]; [|eauto].
    destruct (getPlayer r0 socket) as [[i q]|] eqn:Hq; [|eauto]. cbv zeta.
    apply getPlayer_lookup in Hq as [Hi Hq].
    destruct (_ || _); [eauto|].
    destruct (bool_decide (_ ∈ hits q) || _); [eauto|].
    destruct (board_get _ _ _ _) as [found|]; [|eauto].
    assert (Hseat : ∀ q', c = c0 → p ∈ <[i := q']> (players r0)).
    { intros q' ->. apply elem_of_insert_other with q; [done| |]; congruence. }
    assert (Hres : ∀ res hitName hits' q',
      ∃ r', registry (resolve socket c0 t res hitName opponent hits'
                        (with_players r0 (<[i := q']> (players r0))) rooms)
              !! c = Some r' ∧ p ∈ players r').
    { intros res hitName hits' q'. unfold resolve. simpl.
      destruct (decide (c = c0)) as [->|Hne];
        [|exists r; by rewrite lookup_insert_ne].
      rewrite lookup_insert_eq. eexists. split; [done|].
      destruct (negb _); simpl; by apply Hseat. }
    destruct (truthy found); [|apply Hres].
    destruct (list_find _ _) as [[? s]|]; [apply Hres|]. simpl.
    destruct (decide (c = c0)) as [->|Hne];
      [|exists r; by rewrite lookup_insert_ne].
    rewrite lookup_insert_eq. eexists. split; [done|]. by apply Hseat.
  - unfold chatMessage. destruct (rooms !! c0) as [r0|] eqn:Hr0; [|eauto].
    destruct (getPlayer r0 socket) as [[i q]|]; [|eauto].
    destruct (sanitizeChatMessage _ _ _); [|eauto].
    match goal with |- context [recordAndBroadcastChat r0 c0 ?e rooms] =>
      destruct (recordAndBroadcastChat_spec r0 c0 e rooms)
        as (r' & out & -> & Hp' & _)
    end. simpl.
    destruct (decide (c = c0)) as [->|Hne];
      [|exists r; by rewrite lookup_insert_ne].
    rewrite lookup_insert_eq. exists r'. split; [done|]. congruence.
  - unfold disconnecting.
    assert (Hfold : ∃ r',
              (foldl (leave_room trim socket now) ([], rooms)
                 (filter (λ c, is_Some (rooms !! c)) joined)).2 !! c
              = Some r' ∧ p ∈ players r').
    { apply (foldl_invariant _
               (λ acc, ∃ r', acc.2 !! c = Some r' ∧ p ∈ players r'));
        [|by exists r].
      intros [out rs] c' _ (r' & Hr' & Hp').
      by apply leave_room_other_record with r'. }
    by destruct (foldl _ _ _).
Qed.

End ServerRecords.

Lemma handle_other_records_witness :
  ∃ r p, started_game !! "123456" = Some r ∧ players r !! 1%nat = Some p
    ∧ id p = "b"
    ∧ ∃ r', registry (handle as_is as_is (Disconnecting "a" ["123456"] 9)
                        started_game) !! "123456" = Some r'
        ∧ p ∈ players r'.
Proof.
  eexists _, _. split; [vm_compute; reflexivity|].
  split; [reflexivity|]. split; [reflexivity|].
  eapply (handle_other_records as_is as_is (Disconnecting "a" ["123456"] 9)
            started_game "123456").
  - exact I.
  - vm_compute; reflexivity.
  - apply list_elem_of_lookup_2 with 1%nat. reflexivity.
  - simpl. discriminate.
Defined.

(** ** The frame of an attack *)

(** X15: an accepted attack adds the key of the target to exactly one of
    the attacker's two sets, the misses for a miss and the hits otherwise,
    a key that was in neither; it changes nothing else in the attacker's
    record, no other record of the room, and not the chat log. *)
Theorem attack_frame socket c t rooms p :
  answer (attack socket c t rooms) = ReplyAttack p →
  ∃ r r' i pl pl',
    rooms !! c = Some r
    ∧ registry (attack socket c t rooms) !! c = Some r'
    ∧ getPlayer r socket = Some (i, pl)
    ∧ players r' = <[i := pl']> (players r)
    ∧ code r' = code r ∧ chat r' = chat r
    ∧ id pl' = id pl ∧ ready pl' = ready pl ∧ board pl' = board pl
    ∧ ships pl' = ships pl ∧ username pl' = username pl
    ∧ let k := coordKey (px t) (py t) (pz t) in
      (k ∉ hits pl ∪ misses pl)
      ∧ match result p with
        | Miss => hits pl' = hits pl ∧ misses pl' = {[k]} ∪ misses pl
        | _ => hits pl' = {[k]} ∪ hits pl ∧ misses pl' = misses pl
        end.
Proof.
  intros Hans.
  destruct (attack_inversion _ _ _ _ _ Hans)
    as (r & j & opponent & i & pl & found & res & Hr & Hturn & Ho & Hp & Hoff
        & Hh & Hm & Hfound & Hattack & Hres).
  cbv zeta in Hattack. rewrite Hattack in Hans |- *. clear Hattack.
  unfold resolve in *. simpl in Hans. injection Hans as <-.
  cbn [registry result]. rewrite lookup_insert_eq.
  set (k := coordKey (px t) (py t) (pz t)) in *.
  set (pl' := Player _ _ _ _ _ _ _).
  exists r. eexists. exists i, pl, pl'. split; [done|]. split; [done|].
  split; [done|]. split; [by destruct (negb _)|].
  split; [by destruct (negb _)|]. split; [by destruct (negb _)|].
  do 5 (split; [done|]). split; [by apply not_elem_of_union|].
  destruct (truthy found).
  - destruct Hres as (n & s & _ & ->). by destruct (_ =? _)%nat.
  - by rewrite Hres.
Qed.

Lemma attack_frame_witness :
  ∃ p, answer (attack "a" "123456" (at_ 3 3 3) started_game) = ReplyAttack p
    ∧ ∃ r r' i pl pl',
        started_game !! "123456" = Some r
        ∧ registry (attack "a" "123456" (at_ 3 3 3) started_game) !! "123456"
          = Some r'
        ∧ players r' = <[i := pl']> (players r)
        ∧ chat r' = chat r ∧ board pl' = board pl ∧ ships pl' = ships pl.
Proof.
  eexists. split; [vm_compute; reflexivity|].
  edestruct (attack_frame "a" "123456" (at_ 3 3 3) started_game)
    as (r & r' & i & pl & pl' & Hr & Hr' & _ & Hps & _ & Hchat & _ & _ & Hb
        & Hs & _);
    [vm_compute; reflexivity|].
  exists r, r', i, pl, pl'. repeat split; assumption.
Defined.

Section ServerLeaving.

Variable trim : string → string.
Variable collapse_whitespace : string → string.

(** X19: in a registry the server can reach, an accepted attack on an
    opponent who is not ready, whose fleet is therefore empty, is a miss
    that names the attacker the winner and leaves the turn with the
    attacker. *)
Theorem attack_empty_fleet_wins socket c t rooms r j opponent p :
  reachable trim collapse_whitespace rooms → rooms !! c = Some r →
  getOpponent r socket = Some (j, opponent) → ready opponent = false →
  answer (attack socket c t rooms) = ReplyAttack p →
  result p = Miss ∧ winner p = Some socket ∧ nextTurn p = None
  ∧ (turn <$> registry (attack socket c t rooms) !! c) = Some (Some socket).
Proof.
  intros Hreach Hr Ho Hready Hans. apply reachable_sound in Hreach.
  destruct (attack_inversion _ _ _ _ _ Hans)
    as (r0 & j0 & o0 & i & pl & found & res & Hr0 & Hturn & Ho0 & Hp & Hoff
        & Hh & Hm & Hfound & Hattack & Hres).
  assert (r0 = r) as -> by congruence.
  assert (o0 = opponent) as -> by congruence.
  apply getOpponent_lookup in Ho.
  destruct (Hreach c r Hr) as (_ & _ & _ & _ & Hps).
  rewrite Forall_lookup in Hps. destruct (Hps j opponent Ho) as (_ & Hpl & _).
  unfold placed in Hpl. rewrite Hready in Hpl. destruct Hpl as [Hboard Hships].
  rewrite Hboard in Hfound. apply board_get_replicate in Hfound as ->.
  cbv zeta in Hattack. simpl in Hattack, Hres. subst res.
  rewrite Hattack in Hans |- *. unfold resolve in *. rewrite Hships in *.
  simpl in Hans. injection Hans as <-. simpl.
  rewrite lookup_insert_eq. simpl. by rewrite Hturn.
Qed.

(** X25: after a disconnection the socket holds no seat in any room it had
    joined; each of these rooms is deleted if it seats no other player,
    and otherwise it is kept and seats the other players and nobody else,
    in their order. *)
Theorem disconnecting_unseats socket joined now rooms c :
  c ∈ joined →
  seat (registry (disconnecting trim socket joined now rooms)) c socket = None
  ∧ match rooms !! c with
    | Some r =>
        if decide (others socket r = []) then
          registry (disconnecting trim socket joined now rooms) !! c = None
        else
          ∃ r', registry (disconnecting trim socket joined now rooms) !! c
                = Some r'
            ∧ players r' = others socket r
    | None =>
        registry (disconnecting trim socket joined now rooms) !! c = None
    end.
Proof.
  intros Hc.
  set (left_ (rs : gmap string room) :=
         match rooms !! c with
         | Some r =>
             match rs !! c with
             | Some r' => players r' = others socket r ∧ others socket r ≠ []
             | None => others socket r = []
             end
         | None => rs !! c = None
         end).
  assert (Hseat : ∀ rs, left_ rs → seat rs c socket = None).
  { unfold left_, seat. intros rs Hrs.
    destruct (rs !! c) as [r'|]; [|done]. simpl.
    destruct (rooms !! c) as [r|]; [|done]. destruct Hrs as [Hrs _].
    unfold getPlayer. rewrite Hrs. unfold others.
    destruct (list_find _ _) as [[i q]|] eqn:Hfind; [|done].
    apply list_find_Some in Hfind as (Hq%list_elem_of_lookup_2 & ? & _).
    by apply list_elem_of_filter in Hq as [? _]. }
  assert (Hstep : ∀ out rs, left_ rs →
            left_ (leave_room trim socket now (out, rs) c).2).
  { unfold left_. intros out rs Hrs.
    pose proof (leave_room_exact trim socket now out rs c) as Hspec.
    destruct (rooms !! c) as [r|];
      [|rewrite Hrs in Hspec; by rewrite Hspec].
    destruct (rs !! c) as [r'|] eqn:Hr';
      [|rewrite Hspec; simpl; by rewrite Hr'].
    destruct Hrs as [Hrs Hsome].
    assert (Hidem : filter (λ p, id p ≠ socket) (players r')
                    = others socket r).
    { rewrite Hrs. unfold others. apply list_filter_filter_l. done. }
    rewrite Hidem in Hspec. case_decide as Hnil; [done|].
    cbv zeta in Hspec. rewrite Hspec. simpl.
    rewrite lookup_insert_eq. unfold room_left.
    match goal with |- context [trimChatHistory ?u] =>
      destruct (trimChatHistory_seats u) as [-> _]
    end. done. }
  assert (Hfirst : ∀ out rs, rs !! c = rooms !! c →
            left_ (leave_room trim socket now (out, rs) c).2).
  { unfold left_. intros out rs Hrs.
    pose proof (leave_room_exact trim socket now out rs c) as Hspec.
    rewrite Hrs in Hspec.
    destruct (rooms !! c) as [r|]; [|by rewrite Hspec].
    fold (others socket r) in Hspec.
    case_decide as Hnil; [|cbv zeta in Hspec]; rewrite Hspec; simpl.
    - by rewrite lookup_delete_eq.
    - rewrite lookup_insert_eq. unfold room_left.
      match goal with |- context [trimChatHistory ?u] =>
        destruct (trimChatHistory_seats u) as [-> _]
      end. done. }
  assert (Hfold : ∀ roomCodes acc,
            left_ acc.2 ∨ (acc.2 !! c = rooms !! c ∧ c ∈ roomCodes) →
            left_ (foldl (leave_room trim socket now) acc roomCodes).2).
  { induction roomCodes as [|c' l IH]; intros [out rs] Hacc.
    - destruct Hacc as [?|[_ ?%elem_of_nil]]; done.
    - cbn [foldl]. apply IH. simpl in Hacc.
      destruct (decide (c' = c)) as [->|Hne].
      + left. destruct Hacc as [?|[? _]]; [by apply Hstep|by apply Hfirst].
      + destruct Hacc as [Hdone|[Hrs Hin]].
        * left. unfold left_ in *. by rewrite leave_room_other.
        * right. split; [by rewrite leave_room_other|].
          apply elem_of_cons in Hin as [?|?]; [congruence|done]. }
  assert (Hleft : left_ (registry (disconnecting trim socket joined now
                                     rooms))).
  { unfold disconnecting.
    specialize (Hfold (filter (λ c, is_Some (rooms !! c)) joined)
                      ([], rooms)).
    destruct (foldl _ _ _) as [out rs]. simpl in *. apply Hfold.
    destruct (rooms !! c) as [r|] eqn:Hr.
    - right. split; [done|]. apply list_elem_of_filter. by rewrite Hr.
    - left. unfold left_. by rewrite Hr. }
  split; [by apply Hseat|]. unfold left_ in Hleft.
  destruct (rooms !! c) as [r|]; [|done].
  destruct (registry _ !! c) as [r'|].
  - destruct Hleft as [Hplayers Hsome]. rewrite decide_False by done.
    by exists r'.
  - by rewrite decide_True.
Qed.

End ServerLeaving.

Lemma disconnecting_unseats_witness :
  "123456" ∈ ["123456"]
  ∧ seat (registry (disconnecting as_is "a" ["123456"] 9 started_game))
         "123456" "a" = None
  ∧ (r ← registry (disconnecting as_is "a" ["123456"] 9 started_game)
           !! "123456";
     Some (id <$> players r)) = Some ["b"]
  ∧ registry (disconnecting as_is "a" ["123456"] 9 lone_game) !! "123456"
    = None.
Proof.
  assert (Hin : "123456" ∈ ["123456"])
    by (apply list_elem_of_singleton; reflexivity).
  split; [exact Hin|].
  pose proof (disconnecting_unseats as_is "a" ["123456"] 9%N started_game
                "123456" Hin) as [Hseat Hleft].
  split; [exact Hseat|].
  assert (Hothers : (r ← started_game !! "123456";
                     Some (id <$> others "a" r)) = Some ["b"])
    by (vm_compute; reflexivity).
  split.
  - destruct (started_game !! "123456") as [r|]; [|discriminate Hothers].
    simpl in Hothers. injection Hothers as Hothers.
    destruct (decide (others "a" r = [])) as [Hnil|_].
    + rewrite Hnil in Hothers. discriminate Hothers.
    + destruct Hleft as (r' & Hr' & Hplayers). rewrite Hr'. simpl.
      rewrite Hplayers, Hothers. reflexivity.
  - pose proof (disconnecting_unseats as_is "a" ["123456"] 9%N lone_game
                  "123456" Hin) as [_ Hgone].
    assert (Hnone : (r ← lone_game !! "123456";
                     Some (id <$> others "a" r)) = Some [])
      by (vm_compute; reflexivity).
    destruct (lone_game !! "123456") as [r|]; [|exact Hgone].
    simpl in Hnone. injection Hnone as Hnone.
    apply fmap_nil_inv in Hnone. by rewrite decide_True in Hgone.
Defined.

Lemma attack_empty_fleet_wins_witness :
  ∃ p, answer (attack "a" "123456" (at_ 0 0 0) rejoined_game) = ReplyAttack p
    ∧ result p = Miss ∧ winner p = Some "a" ∧ nextTurn p = None
    ∧ (turn <$> registry (attack "a" "123456" (at_ 0 0 0) rejoined_game)
                  !! "123456") = Some (Some "a").
Proof.
  eexists. split; [vm_compute; reflexivity|].
  eapply (attack_empty_fleet_wins as_is as_is "a" "123456" (at_ 0 0 0)
            rejoined_game).
  - exact rejoined_game_reachable.
  - vm_compute; reflexivity.
  - vm_compute; reflexivity.
  - reflexivity.
  - vm_compute; reflexivity.
Defined.

(** ** Room codes *)

Lemma pretty_N_char_digit x :
  (x < 10)%N →
  is_digit (pretty_N_char x) ∧ digit_value (pretty_N_char x) = x.
Proof.
  intros Hx.
  assert (x ∈ [0; 1; 2; 3; 4; 5; 6; 7; 8; 9]%N) as Hcases.
  { rewrite !elem_of_cons. lia. }
  rewrite !elem_of_cons in Hcases. unfold is_digit.
  destruct Hcases as [->|[->|[->|[->|[->|[->|[->|[->|[->|[->|?%elem_of_nil
    ]]]]]]]]]]; try done; (split; [vm_compute; lia|reflexivity]).
Qed.

Lemma pretty_N_go_decimal x s :
  decimal_from 0 (pretty_N_go x s) = decimal_from x s
  ∧ (Forall is_digit (list_ascii_of_string s) →
     Forall is_digit (list_ascii_of_string (pretty_N_go x s))).
Proof.
  revert s. induction (N.lt_wf_0 x) as [x _ IH]. intros s.
  destruct (decide (x = 0)%N) as [->|Hx]; [by rewrite pretty_N_go_0|].
  rewrite pretty_N_go_step by lia.
  assert (x `div` 10 < x)%N as Hlt by (apply N.div_lt; lia).
  assert (x `mod` 10 < 10)%N as Hmod by (apply N.mod_lt; lia).
  destruct (pretty_N_char_digit _ Hmod) as [Hdigit Hvalue].
  destruct (IH _ Hlt (String (pretty_N_char (x `mod` 10)) s)) as [-> Hall].
  split.
  - simpl. rewrite Hvalue. f_equal. rewrite (N.div_mod x 10) at 3 by lia.
    done.
  - intros Hs. apply Hall. simpl. by apply Forall_cons.
Qed.

Lemma pretty_N_go_length k x s :
  (x < 10 ^ N.of_nat k)%N →
  (String.length (pretty_N_go x s) ≤ k + String.length s)%nat.
Proof.
  revert x s. induction k as [|k IH]; intros x s Hx.
  - assert (x = 0%N) as -> by (simpl in Hx; lia).
    by rewrite pretty_N_go_0.
  - destruct (decide (x = 0)%N) as [->|Hx0];
      [rewrite pretty_N_go_0; lia|].
    rewrite pretty_N_go_step by lia.
    etrans; [apply IH|simpl; lia].
    rewrite Nat2N.inj_succ, N.pow_succ_r' in Hx.
    apply N.Div0.div_lt_upper_bound. lia.
Qed.

Lemma zero_padded_spec missing s :
  String.length (zero_padded missing s) = (missing + String.length s)%nat
  ∧ decimal_from 0 (zero_padded missing s) = decimal_from 0 s
  ∧ (Forall is_digit (list_ascii_of_string s) →
     Forall is_digit (list_ascii_of_string (zero_padded missing s))).
Proof.
  induction missing as [|missing (IHlen & IHval & IHdigits)]; [done|].
  simpl. change ("" +:+ zero_padded missing s) with (zero_padded missing s).
  rewrite IHlen. split; [done|]. split; [done|].
  intros Hs. apply Forall_cons. split; [|by apply IHdigits].
  unfold is_digit. vm_compute. lia.
Qed.

(** X27: the code made of a drawn value below 10^6 has exactly six
    characters, all of them decimal digits, and read in base ten it is the
    drawn value: different values give different codes. *)
Theorem room_code_decimal n :
  (n < 10 ^ N.of_nat ROOM_CODE_LENGTH)%N →
  String.length (room_code n) = ROOM_CODE_LENGTH
  ∧ Forall is_digit (list_ascii_of_string (room_code n))
  ∧ decimal_value (room_code n) = n
  ∧ ∀ m, room_code m = room_code n → m = n.
Proof.
  intros Hn.
  assert (Hpretty : ∀ m,
    decimal_value (room_code m) = m
    ∧ Forall is_digit (list_ascii_of_string (pretty m))).
  { intros m. unfold room_code, padStart, decimal_value.
    destruct (zero_padded_spec (ROOM_CODE_LENGTH - String.length (pretty m))
                (pretty m)) as (_ & -> & _).
    unfold pretty, pretty_N. case_decide as Hm.
    { subst. split; [reflexivity|]. simpl. apply Forall_singleton.
      unfold is_digit. vm_compute. lia. }
    destruct (pretty_N_go_decimal m "") as [-> Hdigits].
    split; [done|]. by apply Hdigits. }
  assert (Hlen : (String.length (pretty n) ≤ ROOM_CODE_LENGTH)%nat).
  { unfold pretty, pretty_N. case_decide; [vm_compute; lia|].
    etrans; [by apply pretty_N_go_length|]. cbn [String.length]. lia. }
  unfold room_code at 1 2, padStart.
  destruct (zero_padded_spec (ROOM_CODE_LENGTH - String.length (pretty n))
              (pretty n)) as (-> & _ & Hdigits).
  split; [lia|]. split; [apply Hdigits, Hpretty|].
  split; [apply Hpretty|].
  intros m Hm. rewrite <- (proj1 (Hpretty m)), Hm. apply Hpretty.
Qed.

Lemma room_code_decimal_witness :
  room_code 42 = "000042"
  ∧ String.length (room_code 42) = ROOM_CODE_LENGTH
  ∧ decimal_value (room_code 42) = 42%N.
Proof.
  split; [vm_compute; reflexivity|].
  destruct (room_code_decimal 42) as (Hlen & _ & Hvalue & _);
    [vm_compute; reflexivity|].
  split; [exact Hlen|exact Hvalue].
Defined.

(** X28: [generateRoomCode] leaves its loop at the first drawn value whose
    code is not in the registry and returns that code, and it is still
    looping after the draws only if the code of every one of them is in
    the registry. *)
Theorem generateRoomCode_first_free draws rooms :
  match generateRoomCode draws rooms with
  | Some c =>
      rooms !! c = None
      ∧ ∃ taken n rest, draws = (taken ++ n :: rest)%list ∧ c = room_code n
          ∧ Forall (λ m, is_Some (rooms !! room_code m)) taken
  | None => Forall (λ m, is_Some (rooms !! room_code m)) draws
  end.
Proof.
  induction draws as [|n draws IH]; simpl; [done|].
  case_bool_decide as Hn.
  - destruct (generateRoomCode draws rooms) as [c|].
    + destruct IH as (Hc & taken & n' & rest & -> & -> & Htaken).
      split; [done|]. exists (n :: taken), n', rest.
      split; [done|]. split; [done|]. by apply Forall_cons.
    + by apply Forall_cons.
  - split; [by apply eq_None_not_Some|]. by exists [], n, draws.
Qed.

(** ** The chat log *)

(** X26: [recordAndBroadcastChat] stores the room under its code with the
    new entry as the last of the log, keeps the newest entries in their
    order and drops the oldest beyond [MAX_CHAT_MESSAGES], and broadcasts
    the entry alone. *)
Theorem recordAndBroadcastChat_newest r c e rooms :
  ∃ r', recordAndBroadcastChat r c e rooms
        = (r', <[c := r']> rooms, [(c, ChatUpdate e)])
    ∧ last (chat r') = Some e
    ∧ length (chat r') = (S (length (chat r)) `min` MAX_CHAT_MESSAGES)%nat
    ∧ chat r' `suffix_of` (chat r ++ [e])%list
    ∧ players r' = players r ∧ turn r' = turn r ∧ code r' = code r.
Proof.
  unfold recordAndBroadcastChat. eexists. split; [done|].
  destruct (trimChatHistory_chat (with_chat r (chat r ++ [e])))
    as (-> & _ & ->).
  destruct (trimChatHistory_seats (with_chat r (chat r ++ [e]))) as [-> ->].
  cbn [chat with_chat players turn code]. rewrite length_app. simpl.
  unfold MAX_CHAT_MESSAGES.
  split; [|split; [|split; [apply suffix_drop|done]]].
  - rewrite drop_app_le by lia. apply last_snoc.
  - rewrite length_drop, length_app. simpl. lia.
Qed.

Section ServerCosmetics.

Variable trim : string → string.
Variable collapse_whitespace : string → string.

(** X7: [setUsername] and [chatMessage] are cosmetic: in no room do they
    change the turn, the seats, or the board, ships, hits, misses or ready
    flag of any player. *)
Theorem cosmetic_events_keep_game e rooms c :
  (∃ socket c0 newname now, e = SetUsername socket c0 newname now)
  ∨ (∃ socket c0 raw now, e = ChatMessage socket c0 raw now) →
  game_view <$> registry (handle trim collapse_whitespace e rooms) !! c
  = game_view <$> rooms !! c.
Proof.
  assert (Hsame : ∀ c0 r r' (rs : gmap string room),
            rooms !! c0 = Some r → game_view r' = game_view r →
            (∀ c', c' ≠ c0 → rs !! c' = rooms !! c') → rs !! c0 = Some r' →
            game_view <$> rs !! c = game_view <$> rooms !! c).
  { intros c0 r r' rs Hr Hview Hother Hrs.
    destruct (decide (c = c0)) as [->|Hne]; [|by rewrite Hother].
    rewrite Hrs, Hr. simpl. by rewrite Hview. }
  intros [(socket & c0 & newname & now & ->)|(socket & c0 & raw & now & ->)];
    cbn [handle].
  - unfold setUsername. destruct (rooms !! c0) as [r|] eqn:Hr; [|done].
    destruct (getPlayer r socket) as [[i p]|] eqn:Hp; [|done]. cbv zeta.
    apply getPlayer_lookup in Hp as [Hi Hid].
    set (username' := if String.eqb _ "" then None else Some _).
    set (p' := Player _ _ _ _ _ _ _).
    set (r1 := with_players r _).
    assert (Hview : game_view r1 = game_view r).
    { unfold game_view. simpl. f_equal. rewrite list_fmap_insert. simpl.
      apply list_insert_id. by rewrite list_lookup_fmap, Hi. }
    assert (Hview' : ∀ r', players r' = players r1 → turn r' = turn r1 →
              game_view r' = game_view r).
    { intros r' Hps Ht. rewrite <- Hview. unfold game_view.
      by rewrite Hps, Ht. }
    destruct username' as [n|].
    + case_bool_decide.
      * match goal with |- context [emitSystemChat r1 c0 ?msg now ?rs] =>
          destruct (emitSystemChat_spec r1 c0 msg now rs)
            as (r' & out & -> & Hp' & Ht')
        end. simpl. destruct (String.eqb _ "").
        -- apply (Hsame c0 r r1); [done|done| |by rewrite lookup_insert_eq].
           intros c' ?. by rewrite lookup_insert_ne.
        -- apply (Hsame c0 r r'); [done|by apply Hview'|
                                   |by rewrite lookup_insert_eq].
           intros c' ?. by rewrite !lookup_insert_ne.
      * simpl. apply (Hsame c0 r r1); [done|done| |by rewrite lookup_insert_eq].
        intros c' ?. by rewrite lookup_insert_ne.
    + simpl. apply (Hsame c0 r r1); [done|done| |by rewrite lookup_insert_eq].
      intros c' ?. by rewrite lookup_insert_ne.
  - unfold chatMessage. destruct (rooms !! c0) as [r|] eqn:Hr; [|done].
    destruct (getPlayer r socket) as [[i p]|]; [|done].
    destruct (sanitizeChatMessage _ _ _); [|done].
    match goal with |- context [recordAndBroadcastChat r c0 ?e rooms] =>
      destruct (recordAndBroadcastChat_spec r c0 e rooms)
        as (r' & out & -> & Hp' & Ht')
    end. simpl.
    apply (Hsame c0 r r'); [done| | |by rewrite lookup_insert_eq].
    + unfold game_view. by rewrite Hp', Ht'.
    + intros c' ?. by rewrite lookup_insert_ne.
Qed.

End ServerCosmetics.

Lemma cosmetic_events_keep_game_witness :
  is_Some (started_game !! "123456")
  ∧ (game_view <$> registry (handle as_is as_is
                    (ChatMessage "a" "123456" (Some "hello") 9) started_game)
                  !! "123456")
    = (game_view <$> started_game !! "123456").
Proof.
  split; [eexists; vm_compute; reflexivity|].
  apply (cosmetic_events_keep_game as_is as_is
           (ChatMessage "a" "123456" (Some "hello") 9) started_game "123456").
  right. exists "a", "123456", (Some "hello"), 9%N. reflexivity.
Defined.

(** ** From an empty seat to a started match *)

Lemma createGame_registry socket c now rooms :
  registry (createGame socket c now rooms)
  = <[c := Room c [new_player socket] None
             [ChatEntry "system" "System"
                "Room created. Share the code to invite an opponent."
                KindSystem now]]> rooms.
Proof.
  unfold createGame, emitSystemChat, recordAndBroadcastChat, trimChatHistory.
  simpl. by rewrite insert_insert_eq.
Qed.

Lemma joinGame_registry socket c now rooms r :
  rooms !! c = Some r → (length (players r) < 2)%nat →
  registry (joinGame socket c now rooms)
  = <[c := trimChatHistory
             (Room (code r) (players r ++ [new_player socket]) (turn r)
                   (chat r ++ [ChatEntry "system" "System"
                                 "A commander joined the battle."
                                 KindSystem now]))]> rooms.
Proof.
  intros Hr Hlen. unfold joinGame. rewrite Hr.
  destruct (2 <=? _)%nat eqn:Hfull; [apply Nat.leb_le in Hfull; lia|].
  unfold emitSystemChat, recordAndBroadcastChat. simpl.
  by rewrite insert_insert_eq.
Qed.

Lemma placeShips_registry socket c submitted rooms r i p l :
  rooms !! c = Some r → getPlayer r socket = Some (i, p) →
  validate submitted = Return l →
  registry (placeShips socket c submitted rooms)
  = <[c := let p' := Player (id p) true (layout_board l) (sanitizedShips l)
                            (hits p) (misses p) (username p) in
           let r1 := with_players r (<[i := p']> (players r)) in
           if (length (players r1) =? 2)%nat && forallb ready (players r1)
           then with_turn r1 (id <$> players r1 !! 0%nat) else r1]> rooms.
Proof.
  intros Hr Hp Hl. unfold placeShips. rewrite Hr, Hp, Hl. cbv zeta.
  destruct (_ && _); simpl; [by rewrite insert_insert_eq|done].
Qed.

Lemma getPlayer_first c p ps t ch :
  getPlayer (Room c (p :: ps) t ch) (id p) = Some (0%nat, p).
Proof. unfold getPlayer. simpl. by rewrite decide_True. Qed.

Lemma getPlayer_second c p q ps t ch :
  id p ≠ id q →
  getPlayer (Room c (p :: q :: ps) t ch) (id q) = Some (1%nat, q).
Proof.
  intros Hne. unfold getPlayer. simpl.
  rewrite decide_False by done. by rewrite decide_True.
Qed.

Lemma on_placeShips_registry (callback : bool) socket c submitted rooms r i p
    l :
  rooms !! c = Some r → getPlayer r socket = Some (i, p) →
  validate submitted = Return l →
  registry (on_placeShips callback socket c submitted rooms)
  = <[c := let p' := Player (id p) true (layout_board l) (sanitizedShips l)
                            (hits p) (misses p) (username p) in
           let r1 := with_players r (<[i := p']> (players r)) in
           if callback && (length (players r1) =? 2)%nat
              && forallb ready (players r1)
           then with_turn r1 (id <$> players r1 !! 0%nat) else r1]> rooms.
Proof.
  intros Hr Hp Hl. unfold on_placeShips. rewrite Hr, Hp, Hl. cbv zeta.
  destruct callback; [|done]. cbn [negb andb].
  destruct (_ && _); simpl; [by rewrite insert_insert_eq|done].
Qed.

(** X24: a socket creates a room under a free code and another socket
    joins, both with an acknowledgement callback; then both submit fleets
    the validator accepts, in either order, with or without a callback.
    After the first fleet the turn is unset.  After the second the room
    seats the creator first and the joiner second, both ready with the
    boards and ships of their fleets and no shot fired; the turn is the
    creator's if the second placement carried a callback, and it is still
    unset if it did not. *)
Theorem opening_starts_with_creator a b c t0 t1 fa fb la lb
    (a_first first_ack second_ack : bool) rooms :
  a ≠ b → rooms !! c = None →
  validate fa = Return la → validate fb = Return lb →
  let seated := registry (joinGame b c t1 (registry (createGame a c t0 rooms)))
  in
  let first := if a_first then (a, fa) else (b, fb) in
  let second := if a_first then (b, fb) else (a, fa) in
  let one_ready :=
    registry (on_placeShips first_ack first.1 c first.2 seated) in
  let both_ready :=
    registry (on_placeShips second_ack second.1 c second.2 one_ready) in
  (turn <$> one_ready !! c) = Some None
  ∧ ∃ r, both_ready !! c = Some r
      ∧ turn r = (if second_ack then Some a else None)
      ∧ players r
        = [ Player a true (layout_board la) (sanitizedShips la) ∅ ∅ None;
            Player b true (layout_board lb) (sanitizedShips lb) ∅ ∅ None ].
Proof.
  intros Hab Hfree Hla Hlb. cbv zeta.
  set (E0 := ChatEntry "system" "System"
               "Room created. Share the code to invite an opponent."
               KindSystem t0).
  set (E1 := ChatEntry "system" "System" "A commander joined the battle."
               KindSystem t1).
  assert (Hseated :
    registry (joinGame b c t1 (registry (createGame a c t0 rooms)))
    = <[c := Room c [new_player a; new_player b] None [E0; E1]]> rooms).
  { rewrite createGame_registry.
    erewrite joinGame_registry; [|apply lookup_insert_eq|simpl; lia].
    by rewrite insert_insert_eq. }
  rewrite Hseated. destruct a_first; cbn [fst snd].
  - erewrite (on_placeShips_registry first_ack a);
      [|apply lookup_insert_eq|apply (getPlayer_first c (new_player a))|done].
    rewrite insert_insert_eq. simpl. rewrite andb_false_r.
    erewrite (on_placeShips_registry second_ack b);
      [|apply lookup_insert_eq
       |apply (getPlayer_second c _ (new_player b)); simpl; congruence
       |done].
    rewrite insert_insert_eq. simpl. rewrite !lookup_insert_eq.
    split; [done|]. destruct second_ack; by eexists.
  - erewrite (on_placeShips_registry first_ack b);
      [|apply lookup_insert_eq
       |apply (getPlayer_second c (new_player a) (new_player b)); simpl;
        congruence
       |done].
    rewrite insert_insert_eq. simpl. rewrite andb_false_r.
    erewrite (on_placeShips_registry second_ack a);
      [|apply lookup_insert_eq
       |apply (getPlayer_first c (Player a false createEmptyBoard [] ∅ ∅ None))
       |done].
    rewrite insert_insert_eq. simpl. rewrite !lookup_insert_eq.
    split; [done|]. destruct second_ack; by eexists.
Qed.

Lemma opening_starts_with_creator_witness :
  (∃ r, registry (on_placeShips true "a" "123456" (Some fleet1)
                    (registry (on_placeShips true "b" "123456" (Some fleet2)
                       (registry (joinGame "b" "123456" 1
                          (registry (createGame "a" "123456" 0 ∅)))))))
        !! "123456" = Some r
     ∧ turn r = Some "a")
  ∧ ∃ r, registry (on_placeShips false "a" "123456" (Some fleet1)
                     (registry (on_placeShips true "b" "123456" (Some fleet2)
                        (registry (joinGame "b" "123456" 1
                           (registry (createGame "a" "123456" 0 ∅)))))))
         !! "123456" = Some r
      ∧ turn r = None.
Proof.
  destruct (fleet1_accepted) as [la Hla], (fleet2_accepted) as [lb Hlb].
  assert (Hab : "a" ≠ "b") by discriminate.
  split.
  - pose proof (opening_starts_with_creator "a" "b" "123456" 0%N 1%N
                  (Some fleet1) (Some fleet2) la lb false true true ∅ Hab
                  (lookup_empty "123456") Hla Hlb) as Hstart.
    cbv zeta in Hstart. destruct Hstart as (_ & r & Hr & Ht & _).
    exists r. split; [exact Hr|exact Ht].
  - pose proof (opening_starts_with_creator "a" "b" "123456" 0%N 1%N
                  (Some fleet1) (Some fleet2) la lb false true false ∅ Hab
                  (lookup_empty "123456") Hla Hlb) as Hstart.
    cbv zeta in Hstart. destruct Hstart as (_ & r & Hr & Ht & _).
    exists r. split; [exact Hr|exact Ht].
Defined.

(** ** Seventeen cells *)

Lemma accepted_names fleet st :
  accepted fleet st → length fleet = length SHIPS →
  fleet.*1 ≡ₚ catalog_names.
Proof.
  intros (_ & _ & Hnd & Hok & _) Hlen. rewrite Forall_forall in Hok.
  apply submseteq_length_Permutation.
  - apply NoDup_submseteq; [done|].
    intros n (e & -> & He)%list_elem_of_fmap.
    destruct (Hok _ He) as (Hcat & _).
    apply list_elem_of_fmap. by exists (e.1, length e.2).
  - rewrite length_fmap, Hlen. unfold catalog_names. by rewrite length_fmap.
Qed.

Lemma accepted_fleet_cells fleet st :
  accepted fleet st → length fleet = length SHIPS →
  NoDup (fleet_cells (sanitizedShips st))
  ∧ length (fleet_cells (sanitizedShips st)) = 17%nat
  ∧ (∀ cl, cl ∈ fleet_cells (sanitizedShips st)
           ↔ cellKey cl ∈ occupied st)
  ∧ (∀ cl, cl ∈ fleet_cells (sanitizedShips st)
           ↔ ∃ S, cell_at (layout_board st) cl = Some (Some S)).
Proof.
  intros Hacc Hlen. pose proof (accepted_names fleet st Hacc Hlen) as Hnames.
  destruct Hacc as (Hships & _ & Hnd & Hok & Hocc & Hapart & _ & Hboard).
  rewrite Forall_forall in Hok. unfold fleet_cells. rewrite Hships.
  assert (Hbind : mjoin (cells <$> (stored <$> fleet))
                  = fleet ≫= (λ e, to_cell <$> e.2)).
  { clear. induction fleet as [|e fleet IH]; [done|]. csimpl. by rewrite IH. }
  rewrite Hbind.
  assert (Hin : ∀ cl, cl ∈ fleet ≫= (λ e, to_cell <$> e.2)
                      ↔ ∃ e c, e ∈ fleet ∧ c ∈ e.2 ∧ cl = to_cell c).
  { intros cl. rewrite list_elem_of_bind. split.
    - intros (e & (c & -> & Hc)%list_elem_of_fmap & He). eauto.
    - intros (e & c & He & Hc & ->). exists e. split; [|done].
      apply list_elem_of_fmap. eauto. }
  split; [|split; [|split]].
  - apply NoDup_bind.
    + intros e1 e2 cl [i Hi]%list_elem_of_lookup [j Hj]%list_elem_of_lookup
        (c1 & -> & Hc1)%list_elem_of_fmap (c2 & Heq & Hc2)%list_elem_of_fmap.
      destruct (decide (i = j)) as [->|Hij]; [congruence|].
      destruct (Hok e1) as (_ & Hw1 & _); [by eapply list_elem_of_lookup_2|].
      destruct (Hok e2) as (_ & Hw2 & _); [by eapply list_elem_of_lookup_2|].
      rewrite Forall_forall in Hw1, Hw2.
      assert (c1 = c2) as -> by (apply to_cell_inj; auto).
      by destruct (Hapart i j e1 e2 c2).
    + intros e He. destruct (Hok e He) as (_ & _ & Hstraight).
      by apply straight_NoDup.
    + by apply NoDup_fmap_1 in Hnd.
  - assert (Hsum : length (fleet ≫= (λ e, to_cell <$> e.2))
                   = sum_list_with catalog_length fleet.*1).
    { clear -Hok. induction fleet as [|e fleet IH]; [done|]. csimpl.
      rewrite length_app, length_fmap, IH.
      - f_equal. destruct (Hok e) as (Hcat & _); [by left|].
        apply expectedShips_lookup in Hcat. unfold catalog_length.
        by rewrite Hcat.
      - intros e' He'. apply Hok. by right. }
    rewrite Hsum, Hnames. reflexivity.
  - intros cl. rewrite Hin, Hocc. split.
    + intros (e & c & He & Hc & ->). eauto.
    + intros (e & c & He & Hc & Hk). exists e, c.
      split; [done|]. split; [done|]. by apply cellKey_inj.
  - intros cl. rewrite Hin. split.
    + intros (e & c & He & Hc & ->). exists e.1. apply Hboard.
      exists e. split; [done|]. split; [done|].
      apply list_elem_of_fmap. eauto.
    + intros (S & (e & He & _ & (c & -> & Hc)%list_elem_of_fmap)%Hboard).
      eauto.
Qed.

(** X21: a fleet the validator accepts covers exactly seventeen cells: the
    cells of the stored ships are seventeen different cells, they are the
    cells at which the board names a ship, and their keys are the seventeen
    members of the occupancy set. *)
Theorem fleet_covers_seventeen submitted st :
  validate submitted = Return st →
  NoDup (fleet_cells (sanitizedShips st))
  ∧ length (fleet_cells (sanitizedShips st)) = 17%nat
  ∧ (∀ cl, cl ∈ fleet_cells (sanitizedShips st)
           ↔ ∃ S, cell_at (layout_board st) cl = Some (Some S))
  ∧ size (occupied st) = 17%nat.
Proof.
  intros Hvalid. pose proof (validate_spec submitted) as Hspec.
  rewrite Hvalid in Hspec. destruct Hspec as (fleet & _ & Hlen & Hacc).
  destruct (accepted_fleet_cells fleet st Hacc Hlen)
    as (Hnd & Hseventeen & Hocc & Hboard).
  do 3 (split; [done|]).
  assert (occupied st
          = list_to_set (cellKey <$> fleet_cells (sanitizedShips st)))
    as ->.
  { apply set_eq. intros k. rewrite elem_of_list_to_set, list_elem_of_fmap.
    split.
    - intros Hk. destruct Hacc as (_ & _ & _ & _ & Hocc' & _).
      pose proof Hk as Hk'.
      apply Hocc' in Hk' as (e & c & _ & _ & ->).
      exists (to_cell c). split; [done|]. by apply Hocc.
    - intros (cl & -> & Hcl). by apply Hocc. }
  rewrite size_list_to_set, length_fmap; [done|].
  apply NoDup_fmap_2_strong; [|done]. intros ???? Hk. by apply cellKey_inj.
Qed.

Lemma fleet_covers_seventeen_witness :
  ∃ st, validate (Some fleet1) = Return st
    ∧ length (fleet_cells (sanitizedShips st)) = 17%nat
    ∧ size (occupied st) = 17%nat.
Proof.
  destruct fleet1_accepted as [st Hst]. exists st. split; [exact Hst|].
  destruct (fleet_covers_seventeen (Some fleet1) st Hst)
    as (_ & Hlen & _ & Hsize).
  split; [exact Hlen|exact Hsize].
Defined.

Section ServerWins.

Variable trim : string → string.
Variable collapse_whitespace : string → string.

(** X20: in a registry the server can reach, an attack on a ready opponent
    names a winner only when the attacker's record then holds at least
    seventeen hits. *)
Theorem win_needs_seventeen_hits socket c t rooms r j opponent p :
  reachable trim collapse_whitespace rooms → rooms !! c = Some r →
  getOpponent r socket = Some (j, opponent) → ready opponent = true →
  answer (attack socket c t rooms) = ReplyAttack p →
  winner p = Some socket →
  ∃ shooter, seat (registry (attack socket c t rooms)) c socket = Some shooter
    ∧ (17 ≤ size (hits shooter))%nat.
Proof.
  intros Hreach Hr Ho Hready Hans Hwin. apply reachable_sound in Hreach.
  destruct (attack_inversion _ _ _ _ _ Hans)
    as (r0 & j0 & o0 & i & pl & found & res & Hr0 & Hturn & Ho0 & Hp & Hoff
        & Hh & Hm & Hfound & Hattack & Hres).
  assert (r0 = r) as -> by congruence.
  assert (o0 = opponent) as -> by congruence.
  cbv zeta in Hattack. rewrite Hattack in Hans |- *. clear Hattack.
  set (k := coordKey (px t) (py t) (pz t)) in *.
  set (hits' := if truthy found then {[k]} ∪ hits pl else hits pl) in *.
  set (p' := Player _ _ _ _ _ _ _) in *.
  unfold resolve in *. simpl in Hans. injection Hans as <-.
  simpl in Hwin.
  destruct (allShipsSunk (ships opponent) hits') eqn:Hsunk; [|done].
  apply allShipsSunk_spec in Hsunk.
  exists p'. split.
  - unfold seat. simpl. rewrite lookup_insert_eq. simpl.
    by erewrite getPlayer_insert.
  - apply getOpponent_lookup in Ho.
    destruct (Hreach c r Hr) as (_ & _ & _ & _ & Hps).
    rewrite Forall_lookup in Hps.
    destruct (Hps j opponent Ho) as (_ & Hpl & _).
    unfold placed in Hpl. rewrite Hready in Hpl.
    destruct Hpl as (fleet & st & Hlen & Hacc & _ & Hships).
    destruct (accepted_fleet_cells fleet st Hacc Hlen)
      as (Hnd & Hseventeen & _).
    rewrite <- Hships in Hnd, Hseventeen.
    assert (Hsub : list_to_set (cellKey <$> fleet_cells (ships opponent))
                   ⊆ hits').
    { intros key. rewrite elem_of_list_to_set, list_elem_of_fmap.
      intros (cl & -> & Hcl). unfold fleet_cells in Hcl.
      apply list_elem_of_join in Hcl as (cs & Hcl & Hcs).
      apply list_elem_of_fmap in Hcs as (s & -> & Hs).
      by apply (Hsunk s). }
    apply subseteq_size in Hsub.
    rewrite size_list_to_set, length_fmap, Hseventeen in Hsub; [done|].
    apply NoDup_fmap_2_strong; [|done]. intros ???? Hk. by apply cellKey_inj.
Qed.

End ServerWins.

Lemma win_needs_seventeen_hits_witness :
  winner winning_payload = Some "a"
  ∧ ∃ shooter, seat won_game "123456" "a" = Some shooter
      ∧ (17 ≤ size (hits shooter))%nat.
Proof.
  split; [reflexivity|].
  assert (Hready : (r ← last_shot_pending !! "123456";
                    o ← getOpponent r "a"; Some (ready o.2)) = Some true)
    by (vm_compute; reflexivity).
  destruct (last_shot_pending !! "123456") as [r|] eqn:Hr;
    [|discriminate Hready].
  cbn [mbind option_bind] in Hready.
  destruct (getOpponent r "a") as [[j o]|] eqn:Ho; [|discriminate Hready].
  injection Hready as Hready. unfold won_game.
  apply (win_needs_seventeen_hits as_is as_is "a" "123456" (at_ 3 0 2)
           last_shot_pending r j o winning_payload
           last_shot_pending_reachable Hr Ho Hready);
    [vm_compute; reflexivity|reflexivity].
Defined.

(** ** The order of the submitted ships *)

Lemma holds_Permutation k l l' :
  l ≡ₚ l' → holds k (Some l) → holds k (Some l').
Proof.
  intros Hperm. destruct k; simpl.
  - intros (l0 & [= <-] & Hnames). exists l'. split; [done|].
    by rewrite <- Hperm.
  - intros H l0 n cs len [= <-] Hin Hcat.
    apply (H l n cs len); [done|by rewrite Hperm|done].
  - intros H l0 n cs c [= <-] Hin Hc.
    apply (H l n cs c); [done|by rewrite Hperm|done].
  - intros H l0 n cs [= <-] Hin Hwhole Hlong.
    apply (H l n cs); [done|by rewrite Hperm|done..].
  - intros H l0 i j n1 cs1 n2 cs2 c [= <-] Hij Hi Hj.
    symmetry in Hperm. apply Permutation_inj in Hperm as (_ & f & Hf & Hlook).
    apply (H l (f i) (f j) n1 cs1 n2 cs2 c); [done| | |].
    + intros Heq. by apply Hij, Hf.
    + by rewrite <- Hlook.
    + by rewrite <- Hlook.
Qed.

Lemma cube_ext b b' :
  cube b → cube b' → (∀ c, on_board c → cell_at b c = cell_at b' c) →
  b = b'.
Proof.
  intros [Hlen Hplanes] [Hlen' Hplanes'] Hcells.
  rewrite Forall_lookup in Hplanes, Hplanes'.
  apply (list_eq_same_length _ _ (Z.to_nat BOARD_SIZE)); [done..|].
  intros i plane plane' Hi Hplane Hplane'.
  destruct (Hplanes _ _ Hplane) as [Hpl Hcolumns].
  destruct (Hplanes' _ _ Hplane') as [Hpl' Hcolumns'].
  rewrite Forall_lookup in Hcolumns, Hcolumns'.
  apply (list_eq_same_length _ _ (Z.to_nat BOARD_SIZE)); [done..|].
  intros j column column' Hj Hcolumn Hcolumn'.
  apply (list_eq_same_length _ _ (Z.to_nat BOARD_SIZE));
    [by apply (Hcolumns' j)|by apply (Hcolumns j)|].
  intros k v v' Hk Hv Hv'.
  assert (Hon : on_board (Cell (Z.of_nat i) (Z.of_nat j) (Z.of_nat k)))
    by (unfold on_board, BOARD_SIZE in *; simpl; lia).
  specialize (Hcells _ Hon). unfold cell_at, board_get in Hcells.
  cbn [cx cy cz] in Hcells.
  rewrite !array_get_index, !Nat2Z.id in Hcells by lia.
  rewrite Hplane, Hplane' in Hcells. cbn [mbind option_bind] in Hcells.
  rewrite !array_get_index, !Nat2Z.id in Hcells by lia.
  rewrite Hcolumn, Hcolumn' in Hcells. cbn [mbind option_bind] in Hcells.
  rewrite !array_get_index, !Nat2Z.id in Hcells by lia.
  rewrite Hv, Hv' in Hcells. congruence.
Qed.

Lemma cube_cell_at b c : cube b → on_board c → is_Some (cell_at b c).
Proof.
  intros Hcube (Hx & Hy & Hz). destruct c as [x y z]. simpl in *.
  apply board_get_cube_whole; [done|]. unfold off_board. simpl.
  rewrite !orb_false_iff. unfold BOARD_SIZE in *.
  repeat split; (apply Z.ltb_ge || apply Z.leb_gt); lia.
Qed.

Lemma stored_as_fleet fleet :
  Forall2 stored_as (entry <$> fleet) (stored <$> fleet).
Proof.
  apply Forall2_fmap, Forall_Forall2_diag, Forall_forall.
  by intros [n cs] _.
Qed.

(** X22: whether a submission is accepted does not depend on the order in
    which it lists the ships, and neither does the board it yields: a
    reordered list is accepted too, with the same board and the same
    occupied cells; the ships stored for it are those stored for the first
    list, and they stand in the order of the reordered list: the ship
    stored at each position has the name and the cells of the entry at that
    position. *)
Theorem validate_order_irrelevant l l' st :
  l ≡ₚ l' → validate (Some l) = Return st →
  ∃ st', validate (Some l') = Return st'
    ∧ layout_board st' = layout_board st
    ∧ occupied st' = occupied st
    ∧ sanitizedShips st' ≡ₚ sanitizedShips st
    ∧ Forall2 stored_as l' (sanitizedShips st').
Proof.
  intros Hperm Hvalid.
  pose proof (validate_spec (Some l)) as Hspec. rewrite Hvalid in Hspec.
  destruct Hspec as (fleet & [= ->] & Hlen & Hacc).
  pose proof (validate_spec (Some l')) as Hspec'.
  destruct (validate (Some l')) as [st'|msg].
  - destruct Hspec' as (fleet' & [= ->] & Hlen' & Hacc').
    exists st'. split; [done|].
    assert (Hsame : ∀ e, e ∈ fleet' ↔ e ∈ fleet).
    { intros e. rewrite <- !(list_elem_of_fmap_inj entry). by rewrite Hperm. }
    destruct Hacc as (Hships & _ & Hnd & _ & Hocc & _ & Hcube & Hboard).
    destruct Hacc' as (Hships' & _ & Hnd' & _ & Hocc' & _ & Hcube' & Hboard').
    split; [|split; [|split]].
    + apply cube_ext; [done..|]. intros c Hc.
      destruct (cube_cell_at _ c Hcube Hc) as [v Hv].
      destruct (cube_cell_at _ c Hcube' Hc) as [v' Hv'].
      rewrite Hv, Hv'. f_equal.
      destruct v as [S|], v' as [S'|]; [| | |done].
      * apply Hboard in Hv as (e & He%Hsame & HS & Hcs).
        assert (cell_at (layout_board st') c = Some (Some S))
          by (apply Hboard'; eauto).
        congruence.
      * apply Hboard in Hv as (e & He%Hsame & HS & Hcs).
        assert (cell_at (layout_board st') c = Some (Some S))
          by (apply Hboard'; eauto).
        congruence.
      * apply Hboard' in Hv' as (e & He%Hsame & HS & Hcs).
        assert (cell_at (layout_board st) c = Some (Some S'))
          by (apply Hboard; eauto).
        congruence.
    + apply set_eq. intros k. rewrite Hocc, Hocc'.
      split; intros (e & c & He%Hsame & ?); eauto.
    + rewrite Hships, Hships'. apply fmap_Permutation.
      apply NoDup_Permutation; [by apply NoDup_fmap_1 in Hnd'
                               |by apply NoDup_fmap_1 in Hnd|done].
    + rewrite Hships'. apply stored_as_fleet.
  - destruct Hspec' as (k & _ & Hnot). destruct Hnot.
    apply (holds_Permutation k (entry <$> fleet)); [done|].
    by apply accepted_holds with st.
Qed.

Lemma validate_order_irrelevant_witness :
  fleet1 ≡ₚ reverse fleet1
  ∧ ∃ st st', validate (Some fleet1) = Return st
      ∧ validate (Some (reverse fleet1)) = Return st'
      ∧ layout_board st' = layout_board st
      ∧ name <$> sanitizedShips st'
        = ["Destroyer"; "Submarine"; "Cruiser"; "Battleship"; "Carrier"].
Proof.
  assert (Hperm : fleet1 ≡ₚ reverse fleet1)
    by (symmetry; apply reverse_Permutation).
  split; [exact Hperm|].
  destruct fleet1_accepted as [st Hst].
  destruct (validate_order_irrelevant fleet1 (reverse fleet1) st Hperm Hst)
    as (st' & Hst' & Hboard & _ & _ & Horder).
  exists st, st'. split; [exact Hst|]. split; [exact Hst'|].
  split; [exact Hboard|].
  do 5 (apply Forall2_cons_inv_l in Horder
          as (? & ? & [? _] & Horder & ->)).
  apply Forall2_nil_inv_l in Horder as ->. simpl.
  repeat (f_equal; [assumption|]). f_equal. assumption.
Defined.

(** ** Room states on the wire *)

Lemma states_to_app c out1 out2 :
  states_to c (out1 ++ out2) = (states_to c out1 ++ states_to c out2)%list.
Proof. apply omap_app. Qed.

Lemma states_to_emitRoomState c c0 rooms :
  states_to c (emitRoomState c0 rooms)
  = if decide (c0 = c) then
      match rooms !! c with Some r => [room_state r] | None => [] end
    else [].
Proof.
  unfold emitRoomState, states_to. case_decide as Hc.
  - subst. destruct (rooms !! c); [|done]. simpl. by rewrite decide_True.
  - destruct (rooms !! c0); [|done]. simpl. by rewrite decide_False.
Qed.

Lemma states_to_emitSystemChat c r c0 msg now rooms :
  states_to c (emitSystemChat r c0 msg now rooms).2 = [].
Proof.
  unfold emitSystemChat, recordAndBroadcastChat. by destruct (String.eqb _ _).
Qed.

Lemma room_state_same_seats r r' :
  players r' = players r → turn r' = turn r → room_state r' = room_state r.
Proof. unfold room_state. by intros -> ->. Qed.

(** The last state sent to [c], when the states sent to [c] end with the
    state sent by [emitRoomState c0 rooms]. *)
Lemma last_states_to c c0 (rooms : gmap string room) sent m :
  last (sent ++ states_to c (emitRoomState c0 rooms)) = Some m →
  (c0 = c ∧ ∃ r, rooms !! c = Some r ∧ m = room_state r)
  ∨ ((c0 ≠ c ∨ rooms !! c = None) ∧ last sent = Some m).
Proof.
  rewrite states_to_emitRoomState. case_decide as Hc.
  - destruct (rooms !! c) as [r|] eqn:Hr.
    + rewrite last_snoc. intros [= <-]. left. eauto.
    + rewrite app_nil_r. intros ?. right. eauto.
  - rewrite app_nil_r. intros ?. right. eauto.
Qed.

Section ServerStates.

Variable trim : string → string.
Variable collapse_whitespace : string → string.

Lemma leave_room_states socket now c out rs c' :
  let kept (acc : list (string * broadcast) * gmap string room) :=
    ∀ m, last (states_to c acc.1) = Some m →
      ∃ r', acc.2 !! c = Some r' ∧ m = room_state r'
        ∧ others socket r' = players r' ∧ players r' ≠ [] in
  kept (out, rs) → kept (leave_room trim socket now (out, rs) c').
Proof.
  intros kept Hkept m. unfold kept in Hkept. simpl in Hkept.
  pose proof (leave_room_exact trim socket now out rs c') as Hspec.
  destruct (rs !! c') as [r|] eqn:Hr; [|rewrite Hspec; apply Hkept].
  case_decide as Hnil; [|cbv zeta in Hspec]; rewrite Hspec; cbn [fst snd].
  - rewrite states_to_app. simpl. rewrite app_nil_r. intros Hm.
    destruct (Hkept m Hm) as (r' & Hr' & -> & Hothers & Hsome).
    destruct (decide (c' = c)) as [->|Hne].
    + assert (r' = r) as -> by congruence. unfold others in Hothers.
      congruence.
    + exists r'. by rewrite lookup_delete_ne.
  - rewrite !states_to_app. simpl. intros Hm.
    apply last_states_to in Hm as [(-> & u & Hu & ->)|[Hc Hm]].
    + rewrite lookup_insert_eq in Hu. injection Hu as <-.
      rewrite lookup_insert_eq. eexists. split; [done|]. split; [done|].
      unfold room_left, others.
      match goal with |- context [trimChatHistory ?u] =>
        destruct (trimChatHistory_seats u) as [-> _]
      end. simpl. split; [|done]. apply list_filter_filter_l. done.
    + destruct (Hkept m Hm) as (r' & Hr' & -> & Hothers & Hsome).
      destruct (decide (c' = c)) as [->|Hne].
      * destruct Hc as [?|Hnone]; [done|].
        by rewrite lookup_insert_eq in Hnone.
      * exists r'. by rewrite lookup_insert_ne.
Qed.

(** X6: whatever the event, the last [roomState] message it sends to a
    room describes the room as the registry holds it once the event is
    handled: its seats with their names and ready flags, and its turn. *)
Theorem last_room_state_is_current e rooms c m :
  last (states_to c (emitted (handle trim collapse_whitespace e rooms)))
  = Some m →
  ∃ r', registry (handle trim collapse_whitespace e rooms) !! c = Some r'
    ∧ m = room_state r'.
Proof.
  destruct e as [socket c0 now|socket c0 now|socket c0 newname now
                |socket c0 submitted|socket c0 t|socket c0 raw now
                |socket joined now]; cbn [handle].
  - unfold createGame. cbv zeta.
    set (newRoom := Room c0 _ None []).
    pose proof (states_to_emitSystemChat c newRoom c0
      "Room created. Share the code to invite an opponent." now
      (<[c0 := newRoom]> rooms)) as Hchat.
    destruct (emitSystemChat_spec newRoom c0
      "Room created. Share the code to invite an opponent." now
      (<[c0 := newRoom]> rooms)) as (r' & out & Heq & Hp & Ht).
    rewrite Heq in Hchat |- *. cbn [emitted registry snd] in *.
    rewrite states_to_app, Hchat, app_nil_r.
    intros [(-> & u & Hu & ->)|[_ Hm]]%(last_states_to c c0 _ []); [|done].
    rewrite lookup_insert_eq in Hu. injection Hu as <-. simpl.
    rewrite lookup_insert_eq. exists r'. split; [done|].
    symmetry. by apply room_state_same_seats.
  - unfold joinGame. destruct (rooms !! c0) as [r|] eqn:Hr; [|done].
    destruct (2 <=? _)%nat; [done|]. cbv zeta.
    set (r1 := with_players r _).
    pose proof (states_to_emitSystemChat c r1 c0
      "A commander joined the battle." now (<[c0 := r1]> rooms)) as Hchat.
    destruct (emitSystemChat _ _ _ _ _) as [[r' rooms2] out].
    cbn [emitted registry snd] in *.
    change ((c0, PlayerJoined) :: out ++ emitRoomState c0 rooms2)%list
      with ([(c0, PlayerJoined)] ++ out ++ emitRoomState c0 rooms2)%list.
    rewrite !states_to_app, Hchat. simpl.
    intros [(-> & u & Hu & ->)|[_ Hm]]%(last_states_to c c0 rooms2 []);
      [eauto|done].
  - unfold setUsername. destruct (rooms !! c0) as [r|] eqn:Hr; [|done].
    destruct (getPlayer r socket) as [[i p]|] eqn:Hp; [|done]. cbv zeta.
    set (username' := if String.eqb _ "" then None else Some _).
    set (p' := Player _ _ _ _ _ _ _).
    set (r1 := with_players r _).
    assert (Hout1 : ∀ names m,
      last (states_to c (emitRoomState c0 (<[c0 := r1]> rooms)
                           ++ [(c0, UsernameUpdate names)])) = Some m →
      c0 = c ∧ m = room_state r1).
    { intros names m'. rewrite states_to_app. simpl. rewrite app_nil_r.
      intros [(-> & u & Hu & ->)|[_ Hm]]%(last_states_to c c0 _ []);
        [|done].
      rewrite lookup_insert_eq in Hu. by injection Hu as <-. }
    destruct username' as [n|].
    + case_bool_decide.
      * match goal with |- context [emitSystemChat r1 c0 ?msg now ?rs] =>
          pose proof (states_to_emitSystemChat c r1 c0 msg now rs) as Hchat;
          destruct (emitSystemChat_spec r1 c0 msg now rs)
            as (r' & out & Heq & Hp' & Ht')
        end.
        rewrite Heq in Hchat |- *. cbn [emitted registry snd] in *.
        rewrite states_to_app, Hchat, app_nil_r.
        intros [-> ->]%Hout1. destruct (String.eqb _ "").
        -- exists r1. by rewrite lookup_insert_eq.
        -- exists r'. rewrite lookup_insert_eq. split; [done|].
           symmetry. by apply room_state_same_seats.
      * cbn [emitted registry]. intros [-> ->]%Hout1.
        exists r1. by rewrite lookup_insert_eq.
    + cbn [emitted registry]. intros [-> ->]%Hout1.
      exists r1. by rewrite lookup_insert_eq.
  - unfold placeShips. destruct (rooms !! c0) as [r|] eqn:Hr; [|done].
    destruct (getPlayer r socket) as [[i p]|] eqn:Hp; [|done].
    destruct (validate submitted); [|done]. cbv zeta.
    set (p' := Player _ _ _ _ _ _ _).
    set (r1 := with_players r _).
    destruct (_ && _); cbn [emitted registry].
    + rewrite app_assoc, states_to_app.
      intros [(-> & u & Hu & ->)|[Hc Hm]]%last_states_to; [eauto|].
      rewrite states_to_app, states_to_emitRoomState in Hm.
      simpl in Hm. rewrite app_nil_r in Hm.
      case_decide as Hc0; [subst|done].
      destruct Hc as [?|Hnone]; [done|].
      by rewrite lookup_insert_eq in Hnone.
    + rewrite states_to_app. simpl. rewrite app_nil_r.
      intros [(-> & u & Hu & ->)|[_ Hm]]%(last_states_to c c0 _ []);
        [eauto|done].
  - unfold attack. destruct (rooms !! c0) as [r|] eqn:Hr; [|done].
    destruct (negb _); [done|].
    destruct (getOpponent r socket) as [[j opponent]|]; [|done].
    destruct (getPlayer r socket) as [[i p]|] eqn:Hp; [|done]. cbv zeta.
    destruct (_ || _); [done|].
    destruct (bool_decide (_ ∈ hits p) || _); [done|].
    destruct (board_get _ _ _ _) as [found|]; [|done].
    assert (Hres : ∀ res hitName hits' r1,
      last (states_to c (emitted (resolve socket c0 t res hitName opponent
                                   hits' r1 rooms))) = Some m →
      ∃ r', registry (resolve socket c0 t res hitName opponent hits' r1
                        rooms) !! c = Some r' ∧ m = room_state r').
    { intros res hitName hits' r1. unfold resolve. cbn [emitted registry].
      match goal with |- context [(c0, AttackResult ?p) :: ?l] =>
        change ((c0, AttackResult p) :: l)
          with ([(c0, AttackResult p)] ++ l)%list
      end.
      rewrite states_to_app. simpl.
      intros [(-> & u & Hu & ->)|[_ Hm]]%(last_states_to c c0 _ []);
        [eauto|done]. }
    destruct (truthy found); [|apply Hres].
    destruct (list_find _ _) as [[? s]|]; [apply Hres|done].
  - unfold chatMessage, recordAndBroadcastChat.
    destruct (rooms !! c0) as [r|] eqn:Hr; [|done].
    destruct (getPlayer r socket) as [[i p]|]; [|done].
    by destruct (sanitizeChatMessage _ _ _).
  - unfold disconnecting.
    pose proof (foldl_invariant (leave_room trim socket now)
      (λ acc, ∀ m, last (states_to c acc.1) = Some m →
         ∃ r', acc.2 !! c = Some r' ∧ m = room_state r'
           ∧ others socket r' = players r' ∧ players r' ≠ [])
      (filter (λ c, is_Some (rooms !! c)) joined) ([], rooms)) as Hfold.
    destruct (foldl _ _ _) as [out rs]. cbn [emitted registry].
    intros Hm. destruct (Hfold) with m as (r' & ? & ? & _); [| |done|eauto].
    + intros [out' rs'] c' _ Hkept.
      exact (leave_room_states socket now c out' rs' c' Hkept).
    + done.
Qed.

End ServerStates.

Lemma last_room_state_is_current_witness :
  ∃ m r',
    last (states_to "123456"
            (emitted (handle as_is as_is
                        (PlaceShips "b" "123456" (Some fleet2))
                        one_ready_game))) = Some m
    ∧ registry (handle as_is as_is (PlaceShips "b" "123456" (Some fleet2))
                  one_ready_game) !! "123456" = Some r'
    ∧ turn r' = Some "a" ∧ m = room_state r'.
Proof.
  assert (Hlast : ∃ m,
    last (states_to "123456"
            (emitted (handle as_is as_is
                        (PlaceShips "b" "123456" (Some fleet2))
                        one_ready_game))) = Some m)
    by (eexists; vm_compute; reflexivity).
  destruct Hlast as [m Hm]. exists m.
  destruct (last_room_state_is_current as_is as_is _ _ _ _ Hm)
    as (r' & Hr' & Hstate).
  exists r'. split; [exact Hm|]. split; [exact Hr'|]. split; [|exact Hstate].
  assert (Hturn : (turn <$> registry (handle as_is as_is
                     (PlaceShips "b" "123456" (Some fleet2)) one_ready_game)
                     !! "123456") = Some (Some "a"))
    by (vm_compute; reflexivity).
  rewrite Hr' in Hturn. by injection Hturn.
Defined.

(** ** Who may act *)

Section ServerAccess.

Variable trim : string → string.
Variable collapse_whitespace : string → string.

(** X5: in a registry the server can reach, a socket that holds no seat in
    a room cannot act on it: its [setUsername], [placeShips], [attack] and
    [chatMessage] events for that room change nothing in the registry and
    broadcast nothing. *)
Theorem outsiders_change_nothing e rooms c socket newname now submitted t
    raw :
  reachable trim collapse_whitespace rooms → seat rooms c socket = None →
  e ∈ [ SetUsername socket c newname now; PlaceShips socket c submitted;
        Attack socket c t; ChatMessage socket c raw now ] →
  registry (handle trim collapse_whitespace e rooms) = rooms
  ∧ emitted (handle trim collapse_whitespace e rooms) = [].
Proof.
  intros Hreach Hseat He. apply reachable_ok in Hreach.
  unfold seat in Hseat. rewrite !elem_of_cons in He.
  destruct He as [->|[->|[->|[->|?%elem_of_nil]]]]; [..|done];
    cbn [handle].
  - unfold setUsername. destruct (rooms !! c) as [r|]; [|done].
    simpl in Hseat. by destruct (getPlayer r socket) as [[i p]|].
  - unfold placeShips. destruct (rooms !! c) as [r|]; [|done].
    simpl in Hseat. by destruct (getPlayer r socket) as [[i p]|].
  - unfold attack. destruct (rooms !! c) as [r|] eqn:Hr; [|done].
    simpl in Hseat. case_bool_decide as Hturn; [|done]. exfalso.
    destruct (Hreach c r Hr) as [_ [Hnone|(p & Hp & Hholder)]];
      [congruence|].
    assert (Hid : id p = socket) by congruence.
    apply list_elem_of_lookup in Hp as [i Hi].
    destruct (list_find_elem_of (λ q, id q = socket) (players r) p)
      as [[j q] Hfind]; [by eapply list_elem_of_lookup_2|done|].
    unfold getPlayer in Hseat. by rewrite Hfind in Hseat.
  - unfold chatMessage. destruct (rooms !! c) as [r|]; [|done].
    simpl in Hseat. by destruct (getPlayer r socket) as [[i p]|].
Qed.

Lemma attack_broadcasts socket c t rooms p :
  answer (attack socket c t rooms) = ReplyAttack p →
  ∃ r', registry (attack socket c t rooms) !! c = Some r'
    ∧ emitted (attack socket c t rooms)
      = [(c, AttackResult p); (c, room_state r')].
Proof.
  intros Hans.
  destruct (attack_accepted _ _ _ _ _ Hans)
    as (r & j & opponent & i & pl & found & res & Hr & Hturn & Ho & Hp
        & Hh & Hm & Hfound & Hattack & Hres).
  cbv zeta in Hattack. rewrite Hattack in Hans |- *. clear Hattack.
  unfold resolve in *. simpl in Hans. injection Hans as <-.
  cbn [registry emitted]. rewrite lookup_insert_eq, emitRoomState_insert.
  by eexists.
Qed.

(** The socket that holds the turn in a room of two players is answered
    with a result when it attacks a cell of the board that it has not
    targeted before. *)
Lemma attack_of_turn_holder socket c x y z rooms r :
  reachable trim collapse_whitespace rooms → rooms !! c = Some r →
  turn r = Some socket → length (players r) = 2%nat →
  on_board (Cell x y z) →
  (∀ pl, seat rooms c socket = Some pl →
         cellKey (Cell x y z) ∉ hits pl ∪ misses pl) →
  ∃ p, answer (attack socket c (at_ x y z) rooms) = ReplyAttack p
    ∧ attacker p = socket ∧ target p = at_ x y z.
Proof.
  intros Hreach Hr Hturn Hlen Hon Hfresh.
  pose proof (reachable_ok _ _ _ Hreach c r Hr) as [_ Hseated].
  apply reachable_sound in Hreach.
  destruct Hseated as [?|(holder & Hholder & Hid)]; [congruence|].
  assert (id holder = socket) by congruence.
  destruct (list_find_elem_of (λ q, id q = socket) (players r) holder)
    as [[i pl] Hfind]; [done..|].
  assert (Ho : ∃ j opponent, getOpponent r socket = Some (j, opponent)).
  { unfold getOpponent. destruct (players r) as [|pA [|pB ?]]; [done..|].
    simpl. case_bool_decide; eauto. }
  destruct Ho as (j & opponent & Ho).
  assert (Hp : getPlayer r socket = Some (i, pl)) by done.
  assert (Hoff : off_board (at_ x y z) = false).
  { apply not_true_is_false. intros Hoff%off_board_integers.
    apply Hoff. apply Hon. }
  specialize (Hfresh pl). unfold seat in Hfresh.
  rewrite Hr in Hfresh. simpl in Hfresh. rewrite Hp in Hfresh.
  specialize (Hfresh eq_refl). apply not_elem_of_union in Hfresh as [Hh Hm].
  pose proof (getOpponent_lookup _ _ _ _ Ho) as Hseat.
  destruct (Hreach c r Hr) as (_ & _ & _ & _ & Hps).
  rewrite Forall_lookup in Hps.
  destruct (Hps j opponent Hseat) as (_ & Hpl & _).
  destruct (placed_spec opponent Hpl) as (Hcube & _ & _ & _ & Hboard & _).
  destruct (board_get_cube_whole (board opponent) x y (JInt z) Hcube Hoff)
    as [found Hfound].
  unfold attack. rewrite Hr, bool_decide_eq_true_2 by done. cbn [negb].
  rewrite Ho, Hp. cbv zeta.
  change (js_lt (px (at_ x y z)) 0 || js_lt (py (at_ x y z)) 0
          || js_lt (pz (at_ x y z)) 0 || js_ge (px (at_ x y z)) BOARD_SIZE
          || js_ge (py (at_ x y z)) BOARD_SIZE
          || js_ge (pz (at_ x y z)) BOARD_SIZE)
    with (off_board (at_ x y z)).
  rewrite Hoff.
  change (coordKey (px (at_ x y z)) (py (at_ x y z)) (pz (at_ x y z)))
    with (cellKey (Cell x y z)).
  rewrite (bool_decide_eq_false_2 _ Hh), (bool_decide_eq_false_2 _ Hm).
  cbn [orb].
  change (board_get (board opponent) (px (at_ x y z)) (py (at_ x y z))
            (pz (at_ x y z)))
    with (board_get (board opponent) (JInt x) (JInt y) (JInt z)).
  rewrite Hfound.
  destruct (truthy found) eqn:Htruthy; [|unfold resolve; simpl; eauto].
  destruct found as [S|]; [|done].
  destruct (board_get_cube _ _ _ _ _ Hcube Hfound) as (cl & _ & _ & Hcl).
  apply Hboard in Hcl as (s & Hs & <- & _).
  destruct (list_find_elem_of (λ s', Some (name s') = Some (name s))
              (ships opponent) s) as [[n s'] Hs']; [done..|].
  rewrite Hs'. unfold resolve. simpl. eauto.
Qed.

(** X14: in a registry the server can reach, the attack of the socket that
    holds the turn in a room of two players, at a cell of the board given
    by whole numbers that it has not targeted before, always goes through:
    the target is recorded among the hits or the misses of the attacker,
    and an [attackResult] that names the attacker and the target is
    broadcast to the room, followed by the state of the room.  The same
    payload is the answer when the event carries an acknowledgement
    callback; without one the handler ends in an uncaught error after the
    two broadcasts. *)
Theorem attack_accepts (callback : bool) socket c x y z rooms r :
  reachable trim collapse_whitespace rooms → rooms !! c = Some r →
  turn r = Some socket → length (players r) = 2%nat →
  on_board (Cell x y z) →
  (∀ pl, seat rooms c socket = Some pl →
         cellKey (Cell x y z) ∉ hits pl ∪ misses pl) →
  ∃ p r' pl',
    attacker p = socket ∧ target p = at_ x y z
    ∧ registry (on_attack callback socket c (at_ x y z) rooms) !! c = Some r'
    ∧ seat (registry (on_attack callback socket c (at_ x y z) rooms)) c socket
      = Some pl'
    ∧ cellKey (Cell x y z) ∈ hits pl' ∪ misses pl'
    ∧ emitted (on_attack callback socket c (at_ x y z) rooms)
      = [(c, AttackResult p); (c, room_state r')]
    ∧ answer (on_attack callback socket c (at_ x y z) rooms)
      = if callback then ReplyAttack p else Uncaught.
Proof.
  intros Hreach Hr Hturn Hlen Hon Hfresh.
  destruct (attack_of_turn_holder socket c x y z rooms r Hreach Hr
              Hturn Hlen Hon Hfresh) as (p & Hans & Hattacker & Htarget).
  destruct (attack_broadcasts _ _ _ _ _ Hans) as (r' & Hr' & Hout).
  destruct (attack_records _ _ _ _ _ Hans) as (pl' & Hseat & Hk).
  exists p, r', pl'. rewrite on_attack_outcome. cbn [registry emitted answer].
  rewrite Hans. by destruct callback.
Qed.

End ServerAccess.

Lemma attack_accepts_witness :
  ∃ p, attacker p = "a" ∧ target p = at_ 0 0 0
    ∧ head (emitted (on_attack false "a" "123456" (at_ 0 0 0) started_game))
      = Some ("123456", AttackResult p)
    ∧ answer (on_attack false "a" "123456" (at_ 0 0 0) started_game)
      = Uncaught.
Proof.
  assert (Hshots : (pl ← seat started_game "123456" "a";
                    Some (bool_decide (cellKey (Cell 0 0 0)
                                       ∈ hits pl ∪ misses pl)))
                   = Some false) by (vm_compute; reflexivity).
  assert (Hroom : (r ← started_game !! "123456";
                   Some (turn r, length (players r)))
                  = Some (Some "a", 2%nat)) by (vm_compute; reflexivity).
  destruct (started_game !! "123456") as [r|] eqn:Hr; [|discriminate Hroom].
  injection Hroom as Hturn Hlen.
  destruct (attack_accepts as_is as_is false "a" "123456" 0 0 0 started_game r
              started_game_reachable Hr Hturn Hlen)
    as (p & r' & pl' & Hattacker & Htarget & _ & _ & _ & Hout & Hans).
  - unfold on_board, BOARD_SIZE. simpl. lia.
  - intros pl Hpl. rewrite Hpl in Hshots. injection Hshots as Hfresh.
    by apply bool_decide_eq_false in Hfresh.
  - exists p. split; [exact Hattacker|]. split; [exact Htarget|].
    split; [|exact Hans]. rewrite Hout. reflexivity.
Defined.

Lemma outsiders_change_nothing_witness :
  seat started_game "123456" "z" = None
  ∧ registry (handle as_is as_is (Attack "z" "123456" (at_ 0 0 0))
                started_game) = started_game
  ∧ emitted (handle as_is as_is (Attack "z" "123456" (at_ 0 0 0))
               started_game) = [].
Proof.
  assert (Hseat : seat started_game "123456" "z" = None)
    by (vm_compute; reflexivity).
  split; [exact Hseat|].
  apply (outsiders_change_nothing as_is as_is
           (Attack "z" "123456" (at_ 0 0 0)) started_game "123456" "z"
           None 0%N None (at_ 0 0 0) None started_game_reachable Hseat).
  rewrite !elem_of_cons. right; right; left. reflexivity.
Defined.

(** ** Whose attack is accepted next *)

Lemma attack_broadcast_answered socket c t rooms p :
  (c, AttackResult p) ∈ emitted (attack socket c t rooms) →
  answer (attack socket c t rooms) = ReplyAttack p.
Proof.
  assert (Hresolve : ∀ res hitName opponent hits' r,
    (c, AttackResult p)
      ∈ emitted (resolve socket c t res hitName opponent hits' r rooms) →
    answer (resolve socket c t res hitName opponent hits' r rooms)
    = ReplyAttack p).
  { intros res hitName opponent hits' r. unfold resolve. simpl.
    intros [[= <-]|Hin]%elem_of_cons; [done|].
    by apply emitRoomState_only_state in Hin as (? & ? & ? & ?). }
  unfold attack. destruct (rooms !! c) as [r|]; [|by intros ?%elem_of_nil].
  destruct (negb _); [by intros ?%elem_of_nil|].
  destruct (getOpponent r socket) as [[j opponent]|];
    [|by intros ?%elem_of_nil].
  destruct (getPlayer r socket) as [[i pl]|]; [|by intros ?%elem_of_nil].
  cbv zeta. destruct (_ || _); [by intros ?%elem_of_nil|].
  destruct (_ || _); [by intros ?%elem_of_nil|].
  destruct (board_get _ _ _ _) as [found|]; [|by intros ?%elem_of_nil].
  destruct (truthy found); [|apply Hresolve].
  destruct (list_find _ _) as [[n s]|]; [apply Hresolve|].
  by intros ?%elem_of_nil.
Qed.

(** An attack without a winner leaves the turn with the socket its payload
    names. *)
Lemma attack_passes_turn socket c t rooms p :
  answer (attack socket c t rooms) = ReplyAttack p → winner p = None →
  ∃ r', registry (attack socket c t rooms) !! c = Some r'
    ∧ turn r' = nextTurn p.
Proof.
  intros Hans Hnone.
  destruct (attack_accepted _ _ _ _ _ Hans)
    as (r & j & opponent & i & pl & found & res & Hr & Hturn & Ho & Hp
        & Hh & Hm & Hfound & Hattack & Hres).
  cbv zeta in Hattack. rewrite Hattack in Hans |- *. clear Hattack.
  unfold resolve in *. simpl in Hans. injection Hans as <-.
  simpl in Hnone |- *. rewrite lookup_insert_eq.
  destruct (allShipsSunk _ _); [done|]. by eexists.
Qed.

Section ServerQuiet.

Variable trim : string → string.
Variable collapse_whitespace : string → string.

Lemma leave_rooms_elsewhere socket now c roomCodes acc :
  c ∉ roomCodes →
  (foldl (leave_room trim socket now) acc roomCodes).2 !! c = acc.2 !! c.
Proof.
  revert acc. induction roomCodes as [|c' l IH]; intros [out rs] Hc; [done|].
  apply not_elem_of_cons in Hc as [Hne Hc]. cbn [foldl].
  rewrite IH by done.
  destruct (leave_room trim socket now (out, rs) c') as [out' rs'] eqn:E.
  change rs' with (out', rs').2. rewrite <- E. by apply leave_room_other.
Qed.

Lemma quiet_keeps_turn e rooms c r :
  enabled e rooms → quiet c rooms e → rooms !! c = Some r →
  ∃ r', registry (handle trim collapse_whitespace e rooms) !! c = Some r'
    ∧ turn r' = turn r.
Proof.
  intros Hen Hquiet Hr.
  assert (Hsame : ∃ r', rooms !! c = Some r' ∧ turn r' = turn r)
    by (by exists r).
  assert (Hset : ∀ c0 r0 u,
    rooms !! c0 = Some r0 → turn u = turn r0 →
    ∃ r', <[c0 := u]> rooms !! c = Some r' ∧ turn r' = turn r).
  { intros c0 r0 u Hr0 Hu. destruct (decide (c0 = c)) as [->|Hne].
    - rewrite lookup_insert_eq. exists u. split; [done|]. congruence.
    - by rewrite lookup_insert_ne. }
  destruct e as [socket c0 now|socket c0 now|socket c0 newname now
                |socket c0 submitted|socket c0 t|socket c0 raw now
                |socket joined now]; cbn [handle enabled quiet] in *.
  - unfold createGame, emitSystemChat, recordAndBroadcastChat. simpl.
    rewrite !lookup_insert_ne by congruence. done.
  - unfold joinGame. destruct (rooms !! c0) as [r0|] eqn:Hr0; [|done].
    destruct (2 <=? _)%nat; [done|]. cbv zeta.
    match goal with |- context [emitSystemChat ?u ?k ?m ?n ?rs] =>
      destruct (emitSystemChat_spec u k m n rs) as (u' & out & -> & _ & Hu)
    end.
    simpl. rewrite insert_insert_eq. by apply (Hset c0 r0).
  - unfold setUsername. destruct (rooms !! c0) as [r0|] eqn:Hr0; [|done].
    destruct (getPlayer r0 socket) as [[i p]|]; [|done]. cbv zeta.
    destruct (if String.eqb _ "" then None else Some _) as [n|];
      [|by apply (Hset c0 r0)].
    case_bool_decide; [|by apply (Hset c0 r0)].
    match goal with |- context [emitSystemChat ?u ?k ?m ?n ?rs] =>
      destruct (emitSystemChat_spec u k m n rs) as (u' & out & -> & _ & Hu)
    end.
    simpl. destruct (String.eqb _ "");
      [|rewrite insert_insert_eq]; by apply (Hset c0 r0).
  - unfold placeShips. destruct (rooms !! c0) as [r0|] eqn:Hr0; [|done].
    destruct (getPlayer r0 socket) as [[i p]|]; [|done].
    destruct (validate submitted); [|done]. cbv zeta.
    destruct (_ && _); simpl; by rewrite !lookup_insert_ne.
  - destruct (decide (c0 = c)) as [->|Hne].
    + specialize (Hquiet eq_refl). revert Hquiet. unfold attack.
      rewrite Hr. destruct (negb _); [done|].
      destruct (getOpponent r socket) as [[j opponent]|]; [|done].
      destruct (getPlayer r socket) as [[i p]|]; [|done]. cbv zeta.
      destruct (_ || _); [done|].
      destruct (bool_decide (_ ∈ hits p) || _); [done|].
      destruct (board_get _ _ _ _) as [found|]; [|done].
      destruct (truthy found).
      * destruct (list_find _ _) as [[? s]|].
        -- unfold resolve. simpl. intros Hquiet. by edestruct Hquiet.
        -- intros _. simpl. rewrite lookup_insert_eq. by eexists.
      * unfold resolve. simpl. intros Hquiet. by edestruct Hquiet.
    + clear Hquiet. unfold attack.
      destruct (rooms !! c0) as [r0|] eqn:Hr0; [|done].
      destruct (negb _); [done|].
      destruct (getOpponent r0 socket) as [[j opponent]|]; [|done].
      destruct (getPlayer r0 socket) as [[i p]|]; [|done]. cbv zeta.
      destruct (_ || _); [done|].
      destruct (bool_decide (_ ∈ hits p) || _); [done|].
      destruct (board_get _ _ _ _) as [found|]; [|done].
      destruct (truthy found).
      * destruct (list_find _ _) as [[? s]|]; unfold resolve; simpl;
          by rewrite lookup_insert_ne.
      * unfold resolve. simpl. by rewrite lookup_insert_ne.
  - unfold chatMessage. destruct (rooms !! c0) as [r0|] eqn:Hr0; [|done].
    destruct (getPlayer r0 socket) as [[i p]|]; [|done].
    destruct (sanitizeChatMessage _ _ _); [|done].
    match goal with |- context [recordAndBroadcastChat ?u ?k ?e ?rs] =>
      destruct (recordAndBroadcastChat_spec u k e rs)
        as (u' & out & -> & _ & Hu)
    end.
    simpl. by apply (Hset c0 r0).
  - unfold disconnecting.
    pose proof (leave_rooms_elsewhere socket now c
                  (filter (λ c, is_Some (rooms !! c)) joined) ([], rooms))
      as Hrest.
    destruct (foldl _ _ _) as [out rs]. simpl in *. rewrite Hrest; [done|].
    intros Hin. apply list_elem_of_filter in Hin as [_ Hin]. done.
Qed.

Lemma quiet_run_keeps_turn es rooms c r :
  run_enabled trim collapse_whitespace es rooms →
  quiet_run trim collapse_whitespace c es rooms →
  rooms !! c = Some r →
  ∃ r', run trim collapse_whitespace es rooms !! c = Some r'
    ∧ turn r' = turn r.
Proof.
  revert rooms r. induction es as [|e es IH]; intros rooms r Hen Hq Hr.
  - by exists r.
  - destruct Hen as [He Hen], Hq as [Hq Hqs].
    destruct (quiet_keeps_turn e rooms c r He Hq Hr) as (r1 & Hr1 & Ht1).
    destruct (IH _ r1 Hen Hqs Hr1) as (r' & Hr' & Ht').
    exists r'. split; [done|]. congruence.
Qed.

(** X17: after an attack that went through and names no winner, and for as
    long as no fleet is placed in the room, no socket that had joined the
    room disconnects and the room accepts no other attack, an attack on
    the room goes through only if it comes from the socket the payload
    names as next; this holds whether or not the two attacks carry an
    acknowledgement callback. *)
Theorem attack_next_turn_only (callback callback' : bool) socket c t rooms p
    es socket' t' p' :
  (c, AttackResult p) ∈ emitted (on_attack callback socket c t rooms) →
  winner p = None →
  run_enabled trim collapse_whitespace es
    (registry (on_attack callback socket c t rooms)) →
  quiet_run trim collapse_whitespace c es
    (registry (on_attack callback socket c t rooms)) →
  (c, AttackResult p')
    ∈ emitted (on_attack callback' socket' c t'
                 (run trim collapse_whitespace es
                    (registry (on_attack callback socket c t rooms)))) →
  nextTurn p = Some socket'.
Proof.
  rewrite !on_attack_outcome. cbn [emitted registry].
  intros Hans%attack_broadcast_answered Hnone Hen Hquiet
         Hans'%attack_broadcast_answered.
  destruct (attack_passes_turn _ _ _ _ _ Hans Hnone) as (r1 & Hr1 & Ht1).
  destruct (quiet_run_keeps_turn es _ c r1 Hen Hquiet Hr1)
    as (r2 & Hr2 & Ht2).
  destruct (attack_accepted _ _ _ _ _ Hans')
    as (r' & _ & _ & _ & _ & _ & _ & Hr' & Hturn' & _).
  congruence.
Qed.

End ServerQuiet.

Lemma attack_next_turn_only_witness :
  ∃ p p',
    ("123456", AttackResult p)
      ∈ emitted (on_attack false "a" "123456" (at_ 3 3 3) started_game)
    ∧ winner p = None
    ∧ ("123456", AttackResult p')
        ∈ emitted (on_attack true "b" "123456" (at_ 0 0 0)
                     (run as_is as_is
                        [ ChatMessage "a" "123456" (Some "hit") 8;
                          Attack "a" "123456" (at_ 3 3 4) ]
                        (registry (on_attack false "a" "123456" (at_ 3 3 3)
                                     started_game))))
    ∧ nextTurn p = Some "b".
Proof.
  assert (Hfirst : ∃ p,
    head (emitted (on_attack false "a" "123456" (at_ 3 3 3) started_game))
    = Some ("123456", AttackResult p) ∧ winner p = None)
    by (eexists; split; [vm_compute; reflexivity|reflexivity]).
  assert (Hsecond : ∃ p',
    head (emitted (on_attack true "b" "123456" (at_ 0 0 0)
                     (run as_is as_is
                        [ ChatMessage "a" "123456" (Some "hit") 8;
                          Attack "a" "123456" (at_ 3 3 4) ]
                        (registry (on_attack false "a" "123456" (at_ 3 3 3)
                                     started_game)))))
    = Some ("123456", AttackResult p'))
    by (eexists; vm_compute; reflexivity).
  destruct Hfirst as (p & Hp%head_Some_elem_of & Hnone).
  destruct Hsecond as (p' & Hp'%head_Some_elem_of).
  exists p, p'. split; [exact Hp|]. split; [exact Hnone|].
  split; [exact Hp'|].
  apply (attack_next_turn_only as_is as_is false true "a" "123456" (at_ 3 3 3)
           started_game p
           [ ChatMessage "a" "123456" (Some "hit") 8;
             Attack "a" "123456" (at_ 3 3 4) ]
           "b" (at_ 0 0 0) p' Hp Hnone).
  - vm_compute. tauto.
  - split; [exact I|]. split; [|exact I].
    intros _ q. vm_compute. discriminate.
  - exact Hp'.
Defined.

(** ** The order of the cells of a ship *)

Lemma constant_on_Permutation a cs cs' :
  cs ≡ₚ cs' → constant_on a cs → constant_on a cs'.
Proof.
  intros Hperm Hconst c c' Hc Hc'. apply Hconst; by rewrite Hperm.
Qed.

Lemma straight_Permutation cs cs' : cs ≡ₚ cs' → straight cs → straight cs'.
Proof.
  intros Hperm (a & Hvaries & Hothers & m & Hrun). exists a.
  split; [|split].
  - intros Hconst. apply Hvaries.
    by apply (constant_on_Permutation a cs' cs).
  - intros a' Ha'. apply (constant_on_Permutation a' cs cs'); auto.
  - exists m. by rewrite <- Hperm.
Qed.

Lemma same_ship_lookup l l' i n cs' :
  Forall2 same_ship l l' → l' !! i = Some (Placement n cs') →
  ∃ cs, l !! i = Some (Placement n cs) ∧ cs ≡ₚ cs'.
Proof.
  intros Hsame Hi.
  destruct (Forall2_lookup_r _ _ _ _ _ Hsame Hi) as ([|n0 cs] & Hl & Hs);
    [done|].
  destruct Hs as [-> Hperm]. eauto.
Qed.

Lemma holds_same_ships k l l' :
  Forall2 same_ship l l' → holds k (Some l) → holds k (Some l').
Proof.
  intros Hsame.
  assert (Hin : ∀ n cs', Placement n cs' ∈ l' →
            ∃ cs, Placement n cs ∈ l ∧ cs ≡ₚ cs').
  { intros n cs' [i Hi]%list_elem_of_lookup.
    destruct (same_ship_lookup _ _ _ _ _ Hsame Hi) as (cs & Hcs & Hperm).
    exists cs. split; [by eapply list_elem_of_lookup_2|done]. }
  destruct k; simpl.
  - intros (l0 & [= <-] & Hnames). exists l'. split; [done|].
    rewrite <- Hnames. clear -Hsame.
    induction Hsame as [|s s' l l' Hs _ IH]; [done|]. csimpl. rewrite IH.
    destruct s, s'; simpl in *; try done. by destruct Hs as [-> _].
  - intros H l0 n cs' len [= <-] (cs & Hcs & Hperm)%Hin Hcat.
    rewrite <- Hperm. by apply (H l n cs len).
  - intros H l0 n cs' c [= <-] (cs & Hcs & Hperm)%Hin Hc.
    apply (H l n cs c); [done..|]. by rewrite Hperm.
  - intros H l0 n cs' [= <-] (cs & Hcs & Hperm)%Hin Hwhole Hlong.
    apply (straight_Permutation (to_cell <$> cs)); [by rewrite Hperm|].
    apply (H l n cs); [done..| |].
    + by rewrite Hperm.
    + by rewrite Hperm.
  - intros H l0 i j n1 cs1' n2 cs2' c [= <-] Hij Hi Hj Hc1 Hc2.
    destruct (same_ship_lookup _ _ _ _ _ Hsame Hi) as (cs1 & Hcs1 & Hp1).
    destruct (same_ship_lookup _ _ _ _ _ Hsame Hj) as (cs2 & Hcs2 & Hp2).
    apply (H l i j n1 cs1 n2 cs2 c); [done..| |].
    + by rewrite Hp1.
    + by rewrite Hp2.
Qed.

(** X23: whether a submission is accepted does not depend on the order in
    which a ship lists its cells, and neither does the board it yields:
    with the cells of each ship reordered the submission is accepted too,
    with the same board and the same occupied cells; the ship stored at
    each position keeps its name and holds the same cells as before, and
    it holds them in the order in which the reordered entry lists them. *)
Theorem validate_cell_order_irrelevant l l' st :
  Forall2 same_ship l l' → validate (Some l) = Return st →
  ∃ st', validate (Some l') = Return st'
    ∧ layout_board st' = layout_board st
    ∧ occupied st' = occupied st
    ∧ Forall2 (λ s s', name s = name s' ∧ cells s ≡ₚ cells s')
              (sanitizedShips st) (sanitizedShips st')
    ∧ Forall2 stored_as l' (sanitizedShips st').
Proof.
  intros Hsame Hvalid.
  pose proof (validate_spec (Some l)) as Hspec. rewrite Hvalid in Hspec.
  destruct Hspec as (fleet & [= ->] & Hlen & Hacc).
  pose proof (validate_spec (Some l')) as Hspec'.
  destruct (validate (Some l')) as [st'|msg].
  - destruct Hspec' as (fleet' & [= ->] & Hlen' & Hacc').
    exists st'. split; [done|].
    apply Forall2_fmap_1 in Hsame.
    assert (Hfrom : ∀ e' c, e' ∈ fleet' → c ∈ e'.2 →
              ∃ e, e ∈ fleet ∧ e.1 = e'.1 ∧ c ∈ e.2).
    { intros e' c [i Hi]%list_elem_of_lookup Hc.
      destruct (Forall2_lookup_r _ _ _ _ _ Hsame Hi) as (e & He & Hn & Hp).
      exists e. split; [by eapply list_elem_of_lookup_2|].
      split; [done|]. by rewrite Hp. }
    assert (Hto : ∀ e c, e ∈ fleet → c ∈ e.2 →
              ∃ e', e' ∈ fleet' ∧ e'.1 = e.1 ∧ c ∈ e'.2).
    { intros e c [i Hi]%list_elem_of_lookup Hc.
      destruct (Forall2_lookup_l _ _ _ _ _ Hsame Hi) as (e' & He' & Hn & Hp).
      exists e'. split; [by eapply list_elem_of_lookup_2|].
      split; [done|]. by rewrite <- Hp. }
    destruct Hacc as (Hships & _ & _ & _ & Hocc & _ & Hcube & Hboard).
    destruct Hacc' as (Hships' & _ & _ & _ & Hocc' & _ & Hcube' & Hboard').
    assert (Hcells : ∀ c S,
      cell_at (layout_board st') c = Some (Some S)
      ↔ cell_at (layout_board st) c = Some (Some S)).
    { intros c S. rewrite Hboard, Hboard'. split.
      - intros (e' & He' & <- & (c0 & -> & Hc0)%list_elem_of_fmap).
        destruct (Hfrom e' c0 He' Hc0) as (e & He & Hn & Hc).
        exists e. split; [done|]. split; [done|].
        apply list_elem_of_fmap. eauto.
      - intros (e & He & <- & (c0 & -> & Hc0)%list_elem_of_fmap).
        destruct (Hto e c0 He Hc0) as (e' & He' & Hn & Hc).
        exists e'. split; [done|]. split; [done|].
        apply list_elem_of_fmap. eauto. }
    split; [|split; [|split]].
    + apply cube_ext; [done..|]. intros c Hc.
      destruct (cube_cell_at _ c Hcube Hc) as [v Hv].
      destruct (cube_cell_at _ c Hcube' Hc) as [v' Hv'].
      rewrite Hv, Hv'. f_equal.
      destruct v as [S|], v' as [S'|]; [| | |done].
      * apply Hcells in Hv. congruence.
      * apply Hcells in Hv. congruence.
      * apply Hcells in Hv'. congruence.
    + apply set_eq. intros k. rewrite Hocc, Hocc'. split.
      * intros (e' & c & He' & Hc & ->).
        destruct (Hfrom e' c He' Hc) as (e & ? & _ & ?). eauto.
      * intros (e & c & He & Hc & ->).
        destruct (Hto e c He Hc) as (e' & ? & _ & ?). eauto.
    + rewrite Hships, Hships'. apply Forall2_fmap.
      eapply Forall2_impl; [exact Hsame|].
      intros e e' [Hn Hp]. simpl. split; [done|]. by rewrite Hp.
    + rewrite Hships'. apply stored_as_fleet.
  - destruct Hspec' as (k & _ & Hnot). destruct Hnot.
    apply (holds_same_ships k (entry <$> fleet)); [done|].
    by apply accepted_holds with st.
Qed.

Lemma validate_cell_order_irrelevant_witness :
  Forall2 same_ship fleet1 (backwards <$> fleet1)
  ∧ ∃ st st', validate (Some fleet1) = Return st
      ∧ validate (Some (backwards <$> fleet1)) = Return st'
      ∧ layout_board st' = layout_board st
      ∧ cells <$> sanitizedShips st' !! 4%nat
        = Some [Cell 4 4 1; Cell 4 4 0].
Proof.
  split; [apply same_ship_backwards|].
  destruct fleet1_accepted as [st Hst].
  destruct (validate_cell_order_irrelevant fleet1 (backwards <$> fleet1) st
              (same_ship_backwards fleet1) Hst)
    as (st' & Hst' & Hboard & _ & _ & Horder).
  exists st, st'. split; [exact Hst|]. split; [exact Hst'|].
  split; [exact Hboard|].
  do 5 (apply Forall2_cons_inv_l in Horder
          as (? & ? & [_ ?] & Horder & ->)).
  simpl. f_equal. assumption.
Defined.
